(** * three-js-template: the simulation core, embedded and verified

    The development follows the TypeScript sources:
      - [src/physics/PhysicsWorld.ts]   fixed-timestep accumulator loop
      - [src/objects/Ball.ts]           physics-backed projectile
      - [src/objects/Seagull.ts]        flying actor, path, hit transition
      - [src/scenes/ExampleScene.ts]    per-tick order, win countdown
      - [src/FirstPersonControls.ts]    raycast projectiles, keys, jump
      - [unnamed/part_000]              vertex shader of the ocean

    Numbers.  A JavaScript [number] is modelled by
      - [Z] where the code holds integers (Date.now() milliseconds, the
        remaining-seagull countdown),
      - [Q] where the code only adds, subtracts and compares (the physics
        accumulator), so that the model runs,
      - [R] where the code takes square roots, arctangents or floors
        (vectors, flight path, orientation).
    Rounding, infinities and NaN of IEEE doubles are not modelled: an
    equality proved here holds of the doubles up to rounding.  Where a
    test of the code could go the other way in doubles (the accumulator
    next to a multiple of the timestep, the squared length of a vector
    too short to be squared) the statements keep a stated distance from
    that input ([rounding_margin], [ordinary_length]).

    Objects.  Every three.js / cannon object that the code compares by
    identity or shares between two owners is given an identifier; the
    scene graph (Object3D.parent) and the GPU resources released by
    dispose() live in one shared store, [Stage].

    Collaborators.  The methods of three.js and cannon that the sources
    call are written out after the libraries' documentation where they
    are arithmetic (Vector3, Quaternion) or bookkeeping (add, remove,
    addBody, removeBody); the raycaster and the rigid-body solver are
    inputs of the model.  The spline sampler is a parameter of the
    seagull, and [CatmullRom.getPoint] writes out the one of three.js.
    Asynchronous callbacks
    (timers, model loads) are separate operations that a caller may run
    at any point. *)

From Stdlib Require Import ZArith QArith Reals Lra Lia List Bool.
From Stdlib Require Import Qround.
From Stdlib Require Lqa.
From stdpp Require Import base option list gmap.
From Equations Require Import Equations.
Import ListNotations.

Set Default Proof Using "Type".

(** ** Object identities and the shared store *)

Abbreviation ObjId := nat (only parsing).

(** [graph] is Object3D.parent for every object that has one (child to
    parent); [disposeLog] records every geometry.dispose() and
    material.dispose() call, in reverse order of the calls. *)
Record Stage := mkStage {
  graph : gmap nat nat;
  disposeLog : list nat
}.

(** Object3D.add(child): the child leaves its former parent, if any, and
    gets [p] as its parent. *)
Definition Object3D_add (p c : ObjId) (st : Stage) : Stage :=
  mkStage (<[c := p]> (graph st)) (disposeLog st).

(** Object3D.remove(child): nothing happens unless [c] is a child of [p]. *)
Definition Object3D_remove (p c : ObjId) (st : Stage) : Stage :=
  match graph st !! c with
  | Some q => if Nat.eqb q p then mkStage (delete c (graph st)) (disposeLog st)
              else st
  | None => st
  end.

Definition parentOf (c : ObjId) (st : Stage) : option ObjId := graph st !! c.

Definition gpu_dispose (r : ObjId) (st : Stage) : Stage :=
  mkStage (graph st) (r :: disposeLog st).

Definition releases (r : ObjId) (st : Stage) : nat :=
  count_occ Nat.eq_dec (disposeLog st) r.

(** ** src/physics/PhysicsWorld.ts *)

Module PhysicsWorld.

(** The cannon engine is a collaborator: of CANNON.World the model keeps
    the calls made to it, [steps] (the argument of every world.step, most
    recent first) and the engine's own body list. *)
Record World := mkWorld {
  steps : list Q;
  wbodies : list ObjId
}.

Definition World_step (dt : Q) (w : World) : World :=
  mkWorld (dt :: steps w) (wbodies w).

(** World.addBody returns at once when the engine already holds the
    body. *)
Definition World_addBody (b : ObjId) (w : World) : World :=
  if existsb (Nat.eqb b) (wbodies w) then w
  else mkWorld (steps w) (wbodies w ++ [b]).

Fixpoint remove_first (b : ObjId) (l : list ObjId) : list ObjId :=
  match l with
  | [] => []
  | x :: r => if Nat.eqb x b then r else x :: remove_first b r
  end.

Definition World_removeBody (b : ObjId) (w : World) : World :=
  mkWorld (steps w) (remove_first b (wbodies w)).

Record t := mk {
  world : World;
  accumulator : Q;
  bodies : list ObjId
}.

Definition timeStep : Q := 1 # 60.
Definition maxSteps : nat := 3.

Definition addBody (b : ObjId) (p : t) : t :=
  mk (World_addBody b (world p)) (accumulator p) (bodies p ++ [b]).

(** indexOf + splice(index, 1), then world.removeBody. *)
Definition removeBody (b : ObjId) (p : t) : t :=
  mk (World_removeBody b (world p)) (accumulator p)
     (remove_first b (bodies p)).

(** Bodies are only ever looked up among bodies, so the ground body may
    share its number with a scene object. *)
Definition groundBody : ObjId := 0%nat.

Definition create : t :=
  addBody groundBody (mk (mkWorld [] []) 0 []).

(** The loop test [this.accumulator >= this.timeStep && steps < maxSteps]. *)
Definition loop_test (p : t) (n : nat) : bool :=
  Qle_bool timeStep (accumulator p) && Nat.ltb n maxSteps.

Definition loop_body (p : t) : t :=
  mk (World_step timeStep (world p)) (accumulator p - timeStep) (bodies p).

Definition inspect {A : Type} (a : A) : { b : A | a = b } :=
  exist _ a eq_refl.

(** The while loop of update(); it returns the state and the local
    counter [steps].  The accumulator is an exact rational here and a
    double in the source: the two can differ on the test when the
    accumulator is within rounding of the timestep. *)
Equations loop (p : t) (n : nat) : t * nat by wf (maxSteps - n)%nat lt :=
  loop p n with inspect (loop_test p n) := {
    | exist _ true Ht => loop (loop_body p) (S n)
    | exist _ false _ => (p, n)
  }.
Next Obligation.
  unfold loop_test in Ht. apply andb_prop in Ht as [_ Ht].
  apply Nat.ltb_lt in Ht. unfold maxSteps in *. lia.
Qed.

Definition update_counting (deltaTime : Q) (p : t) : t * nat :=
  loop (mk (world p) (accumulator p + deltaTime) (bodies p)) 0.

Definition update (deltaTime : Q) (p : t) : t :=
  fst (update_counting deltaTime p).

Definition dispose (p : t) : t :=
  fold_left (fun q b => removeBody b q) (bodies p) p.

End PhysicsWorld.

(** ** JavaScript built-ins used by the sources *)

Module Js.
Local Open Scope R_scope.

(** Math.floor. *)
Definition Math_floor (r : R) : Z := Int_part r.

(** Math.atan2(y, x), the angle of the point (x, y) in (-PI, PI]. *)
Definition Math_atan2 (y x : R) : R :=
  if Rlt_dec 0 x then atan (y / x)
  else if Rlt_dec x 0 then
    (if Rle_dec 0 y then atan (y / x) + PI else atan (y / x) - PI)
  else if Rlt_dec 0 y then PI / 2
  else if Rlt_dec y 0 then - PI / 2
  else 0.

(** The remainder [a % 1]: [a] minus its integer part truncated towards
    zero. *)
Definition rem1 (a : R) : R :=
  if Rle_dec 0 a then a - IZR (Int_part a) else a + IZR (Int_part (- a)).

(** Math.random(): the successive results are an input of the model; a
    generator is the sequence of its future results and a cursor. *)
Record Rng := mkRng { draws : nat -> R; cursor : nat }.

Definition Math_random (g : Rng) : R * Rng :=
  (draws g (cursor g), mkRng (draws g) (S (cursor g))).

(** The generator after [k] more calls of Math.random(). *)
Definition skip (k : nat) (g : Rng) : Rng :=
  mkRng (draws g) (k + cursor g).

(** What Math.random() promises: every result is in [0, 1). *)
Definition unit_draws (g : Rng) : Prop :=
  forall n, 0 <= draws g n < 1.
End Js.

(** ** three.js Vector3 and Quaternion, as far as the sources use them *)

Module Vector3.
Local Open Scope R_scope.

Record t := mk { x : R; y : R; z : R }.

Definition zero : t := mk 0 0 0.
Definition sub (a b : t) : t := mk (x a - x b) (y a - y b) (z a - z b).
Definition dot (a b : t) : R := x a * x b + y a * y b + z a * z b.
Definition lengthSq (v : t) : R := x v * x v + y v * y v + z v * z v.
Definition length (v : t) : R := sqrt (lengthSq v).
Definition multiplyScalar (v : t) (s : R) : t :=
  mk (x v * s) (y v * s) (z v * s).
Definition divideScalar (v : t) (s : R) : t := multiplyScalar v (1 / s).

(** normalize() is [divideScalar(this.length() || 1)]: the zero vector
    stays the zero vector.  Over the reals the length is 0 for the zero
    vector only; in the doubles of the source the squared length is
    rounded to 0 below a length of about 1.5e-162 as well, and beyond
    about 1.3e154 it is infinite.  Statements about [normalize] that
    depend on the test keep to lengths away from both. *)
Definition normalize (v : t) : t :=
  divideScalar v (if Req_dec_T (length v) 0 then 1 else length v).

Definition add (a b : t) : t := mk (x a + x b) (y a + y b) (z a + z b).

Definition distanceToSquared (a b : t) : R :=
  let dx := x a - x b in
  let dy := y a - y b in
  let dz := z a - z b in
  dx * dx + dy * dy + dz * dz.

Definition addScaledVector (a v : t) (s : R) : t :=
  mk (x a + x v * s) (y a + y v * s) (z a + z v * s).

(** reflect(normal) is [this - 2 (this . normal) normal]. *)
Definition reflect (v n : t) : t :=
  sub v (multiplyScalar n (2 * dot v n)).
End Vector3.

Module Quaternion.
Local Open Scope R_scope.

Record t := mk { x : R; y : R; z : R; w : R }.

Definition identity : t := mk 0 0 0 1.

(** Vector3.applyQuaternion(q): v + w t + q x t with t = 2 (q x v). *)
Definition apply (v : Vector3.t) (q : t) : Vector3.t :=
  let vx := Vector3.x v in
  let vy := Vector3.y v in
  let vz := Vector3.z v in
  let tx := 2 * (y q * vz - z q * vy) in
  let ty := 2 * (z q * vx - x q * vz) in
  let tz := 2 * (x q * vy - y q * vx) in
  Vector3.mk (vx + w q * tx + y q * tz - z q * ty)
             (vy + w q * ty + z q * tx - x q * tz)
             (vz + w q * tz + x q * ty - y q * tx).
End Quaternion.

(** Mesh.material is one material or an array of materials. *)
Inductive MaterialSlot :=
| Single (m : ObjId)
| Many (ms : list ObjId).

Definition dispose_materials (m : MaterialSlot) (st : Stage) : Stage :=
  match m with
  | Single r => gpu_dispose r st
  | Many rs => fold_left (fun acc r => gpu_dispose r acc) rs st
  end.

(** ** src/objects/Ball.ts *)

Module Ball.

Record Mesh := mkMesh {
  meshId : ObjId;
  position : Vector3.t;
  quaternion : Quaternion.t;
  geometry : ObjId;
  material : MaterialSlot
}.

(** The CANNON.Body of the ball; the engine moves it between two calls
    of update(), which the model leaves to the caller. *)
Record Body := mkBody {
  bodyId : ObjId;
  bposition : Vector3.t;
  bquaternion : Quaternion.t;
  velocity : Vector3.t;
  listeners : list nat
}.

Record t := mk {
  mesh : Mesh;
  body : Body;
  creationTime : Z;
  onCollideCallback : option nat;
  disposed : bool
}.

Definition LIFETIME : Z := 5000.

(** [new Ball(position, velocity, cb)] at time [now]; [oid] is the first
    of the four fresh identities the constructor allocates. *)
Definition create (pos vel : Vector3.t) (cb : option nat) (now : Z)
    (oid : ObjId) : t :=
  mk (mkMesh oid pos Quaternion.identity (oid + 2)%nat (Single (oid + 3)%nat))
     (mkBody (oid + 1)%nat pos Quaternion.identity vel
             (match cb with Some c => [c] | None => [] end))
     now cb false.

(** update() with [now] the result of its Date.now(). *)
Definition update (now : Z) (b : t) : bool * t :=
  if disposed b then (false, b)
  else
    let m := mesh b in
    let m' := mkMesh (meshId m) (bposition (body b)) (bquaternion (body b))
                     (geometry m) (material m) in
    (Z.ltb (now - creationTime b) LIFETIME,
     mk m' (body b) (creationTime b) (onCollideCallback b) (disposed b)).

Definition getMesh (b : t) : Mesh := mesh b.
Definition getBody (b : t) : Body := body b.

Definition removeEventListener (c : nat) (bd : Body) : Body :=
  mkBody (bodyId bd) (bposition bd) (bquaternion bd) (velocity bd)
         (PhysicsWorld.remove_first c (listeners bd)).

Definition dispose (b : t) (st : Stage) : t * Stage :=
  if disposed b then (b, st)
  else
    let bd := match onCollideCallback b with
              | Some c => removeEventListener c (body b)
              | None => body b
              end in
    let st1 := gpu_dispose (geometry (mesh b)) st in
    let st2 := dispose_materials (material (mesh b)) st1 in
    (mk (mesh b) bd (creationTime b) (onCollideCallback b) true, st2).

End Ball.

(** ** src/objects/Seagull.ts *)

Module Seagull.
Local Open Scope R_scope.

Record Box3 := mkBox3 { bmin : Vector3.t; bmax : Vector3.t }.
Record Euler := mkEuler { ex : R; ey : R; ez : R }.

(** A Mesh child of the model, as dispose() sees it. *)
Record MeshRes := mkMeshRes { geometry : ObjId; material : MaterialSlot }.

Record Group := mkGroup {
  gid : ObjId;
  position : Vector3.t;
  rotation : Euler;
  isSeagullTag : bool;
  meshes : list MeshRes
}.

Record AnimationMixer := mkMixer { mixerTime : R; playing : bool }.

(** [new CatmullRomCurve3(points, closed)]. *)
Record CatmullRomCurve3 := mkCurve { points : list Vector3.t; closed : bool }.

Record Gltf := mkGltf { scene : Group; animations : nat }.

Definition defaultBounds : Box3 :=
  mkBox3 (Vector3.mk (-100) 0 (-100)) (Vector3.mk 100 50 100).

(** The loop of createRandomPath: [n] more points, three draws each. *)
Fixpoint path_points (n : nat) (b : Box3) (g : Js.Rng) : list Vector3.t :=
  match n with
  | O => []
  | S k =>
      let '(rx, g1) := Js.Math_random g in
      let x := Vector3.x (bmin b)
               + rx * (Vector3.x (bmax b) - Vector3.x (bmin b)) in
      let '(ry, g2) := Js.Math_random g1 in
      let y := Vector3.y (bmin b) + 5 + ry * 15 in
      let '(rz, g3) := Js.Math_random g2 in
      let z := Vector3.z (bmin b)
               + rz * (Vector3.z (bmax b) - Vector3.z (bmin b)) in
      Vector3.mk x y z :: path_points k b g3
  end.

(** createRandomPath: one draw for the number of points, then the
    loop; the generator comes back advanced by the draws made. *)
Definition createRandomPath (b : Box3) (g : Js.Rng)
    : CatmullRomCurve3 * Js.Rng :=
  let '(r, g1) := Js.Math_random g in
  let numPoints := Z.to_nat (5 + Js.Math_floor (r * 3)) in
  (mkCurve (path_points numPoints b g1) true, Js.skip (3 * numPoints) g1).

(** createFallbackModel: body, two wings sharing one geometry and one
    material, a head sharing the body material, a collision sphere. *)
Definition fallbackModel (oid : ObjId) : Group :=
  mkGroup oid Vector3.zero (mkEuler 0 0 0) true
    [ mkMeshRes (oid + 1)%nat (Single (oid + 2)%nat);
      mkMeshRes (oid + 3)%nat (Single (oid + 4)%nat);
      mkMeshRes (oid + 3)%nat (Single (oid + 4)%nat);
      mkMeshRes (oid + 5)%nat (Single (oid + 2)%nat);
      mkMeshRes (oid + 6)%nat (Single (oid + 7)%nat) ].

Definition lookAheadValue : R := 5 / 100.

(** Lines 229-256 of update(): place the model on the current sample and
    turn it towards the look-ahead sample. *)
Definition orient (currentPosition nextPosition : Vector3.t) (m : Group)
    : Group :=
  let direction :=
    Vector3.normalize (Vector3.sub nextPosition currentPosition) in
  if Rlt_dec (1 / 1000) (Vector3.length direction) then
    let targetRotation :=
      Js.Math_atan2 (Vector3.x direction) (Vector3.z direction) in
    let bankAngle := Vector3.x direction * (- (3 / 10)) in
    let verticalAngle := Vector3.y direction * (5 / 10) in
    mkGroup (gid m) currentPosition
            (mkEuler verticalAngle targetRotation bankAngle)
            (isSeagullTag m) (meshes m)
  else
    mkGroup (gid m) currentPosition (rotation m) (isSeagullTag m) (meshes m).

Section Actor.
(** [Env] is whatever the hit callback closes over; [getPoint] is
    CatmullRomCurve3.getPoint, the spline sampler of three.js. *)
Variable Env : Type.
Variable getPoint : CatmullRomCurve3 -> R -> Vector3.t.

Record t := mk {
  model : option Group;
  mixer : option AnimationMixer;
  path : CatmullRomCurve3;
  progress : R;
  speed : R;
  bounds : Box3;
  modelLoaded : bool;
  isHit : bool;
  onHitCallback : option (Env -> Env)
}.

(** [new Seagull(onHitCallback)]: the path from the default bounds,
    the speed, the fallback model; loadModel() only starts the
    asynchronous load, whose completion is [onModelLoaded]. *)
Definition create (cb : option (Env -> Env)) (g : Js.Rng) (oid : ObjId)
    : t * Js.Rng :=
  let '(p, g1) := createRandomPath defaultBounds g in
  let '(r, g2) := Js.Math_random g1 in
  (mk (Some (fallbackModel oid)) None p 0 (3 / 100 + r * (2 / 100))
      defaultBounds true false cb, g2).

(** update() with [delta] the result of clock.getDelta(). *)
Definition update (delta : R) (s : t) : t :=
  match model s with
  | None => s
  | Some m =>
      if negb (modelLoaded s) then s
      else
        let mixer' :=
          match mixer s with
          | Some mx => Some (mkMixer (mixerTime mx + delta) (playing mx))
          | None => None
          end in
        let p1 := progress s + speed s * delta in
        let p2 := if Rlt_dec 1 p1 then p1 - 1 else p1 in
        let currentPosition := getPoint (path s) p2 in
        let nextPosition :=
          getPoint (path s) (Js.rem1 (p2 + lookAheadValue)) in
        mk (Some (orient currentPosition nextPosition m)) mixer' (path s)
           p2 (speed s) (bounds s) (modelLoaded s) (isHit s)
           (onHitCallback s)
  end.

Definition getModel (s : t) : option Group := model s.

Definition setBounds (lo hi : Vector3.t) (s : t) (g : Js.Rng)
    : t * Js.Rng :=
  let b := mkBox3 lo hi in
  let '(p, g1) := createRandomPath b g in
  (mk (model s) (mixer s) p (progress s) (speed s) b (modelLoaded s)
      (isHit s) (onHitCallback s), g1).

Definition dispose_mesh (st : Stage) (r : MeshRes) : Stage :=
  dispose_materials (material r) (gpu_dispose (geometry r) st).

Definition dispose (s : t) (st : Stage) : t * Stage :=
  let mixer' :=
    match mixer s with
    | Some mx => Some (mkMixer (mixerTime mx) false)
    | None => None
    end in
  let st' :=
    match model s with
    | Some m => fold_left dispose_mesh (meshes m) st
    | None => st
    end in
  (mk (model s) mixer' (path s) (progress s) (speed s) (bounds s)
      (modelLoaded s) (isHit s) (onHitCallback s), st').

Definition hit (s : t) (st : Stage) (env : Env) : t * Stage * Env :=
  if isHit s then (s, st, env)
  else
    let s1 := mk (model s) (mixer s) (path s) (progress s) (speed s)
                 (bounds s) (modelLoaded s) true (onHitCallback s) in
    let env1 :=
      match onHitCallback s1 with
      | Some cb => cb env
      | None => env
      end in
    let st1 :=
      match model s1 with
      | Some m =>
          match parentOf (gid m) st with
          | Some p => Object3D_remove p (gid m) st
          | None => st
          end
      | None => st
      end in
    let '(s2, st2) := dispose s1 st1 in
    (s2, st2, env1).

(** The success callback of loadModel(). *)
Definition onModelLoaded (gltf : Gltf) (s : t) (st : Stage) : t * Stage :=
  let parent :=
    match model s with
    | Some m => parentOf (gid m) st
    | None => None
    end in
  let st1 :=
    match parent, model s with
    | Some p, Some m => Object3D_remove p (gid m) st
    | _, _ => st
    end in
  let sc := scene gltf in
  let m' := mkGroup (gid sc) (position sc)
                    (mkEuler (ex (rotation sc)) PI (ez (rotation sc)))
                    true (meshes sc) in
  let mixer' :=
    if Nat.ltb 0 (animations gltf) then Some (mkMixer 0 true)
    else mixer s in
  let st2 :=
    match parent with
    | Some p => Object3D_add p (gid m') st1
    | None => st1
    end in
  (mk (Some m') mixer' (path s) (progress s) (speed s) (bounds s) true
      (isHit s) (onHitCallback s), st2).

End Actor.

Arguments mk {Env}.
Arguments model {Env}.
Arguments mixer {Env}.
Arguments path {Env}.
Arguments progress {Env}.
Arguments speed {Env}.
Arguments bounds {Env}.
Arguments modelLoaded {Env}.
Arguments isHit {Env}.
Arguments onHitCallback {Env}.
Arguments create {Env}.
Arguments update {Env}.
Arguments getModel {Env}.
Arguments setBounds {Env}.
Arguments dispose {Env}.
Arguments hit {Env}.
Arguments onModelLoaded {Env}.

End Seagull.

(** ** three.js CatmullRomCurve3.getPoint

    The sampler that Seagull.update calls on its path.  The curves of
    createRandomPath keep the default curve type, "centripetal". *)

Module CatmullRom.
Local Open Scope R_scope.

(** CubicPoly: the polynomial c0 + c1 t + c2 t^2 + c3 t^3. *)
Record CubicPoly := mkPoly { c0 : R; c1 : R; c2 : R; c3 : R }.

(** init(x0, x1, t0, t1): the cubic through x0 at 0 and x1 at 1 with
    the derivatives t0 and t1 there. *)
Definition init (x0 x1 t0 t1 : R) : CubicPoly :=
  mkPoly x0 t0 (- 3 * x0 + 3 * x1 - 2 * t0 - t1)
         (2 * x0 - 2 * x1 + t0 + t1).

Definition initNonuniformCatmullRom (x0 x1 x2 x3 dt0 dt1 dt2 : R)
    : CubicPoly :=
  let t1 := (x1 - x0) / dt0 - (x2 - x0) / (dt0 + dt1) + (x2 - x1) / dt1 in
  let t2 := (x2 - x1) / dt1 - (x3 - x1) / (dt1 + dt2) + (x3 - x2) / dt2 in
  init x1 x2 (t1 * dt1) (t2 * dt1).

Definition calc (p : CubicPoly) (t : R) : R :=
  let t2 := t * t in
  let t3 := t2 * t in
  c0 p + c1 p * t + c2 p * t2 + c3 p * t3.

(** [points[i]]: undefined outside the array. *)
Definition at_index (ps : list Vector3.t) (i : Z) : option Vector3.t :=
  if (i <? 0)%Z then None else nth_error ps (Z.to_nat i).

(** Math.pow(d, 0.25) of a squared distance. *)
Definition fourth_root (d : R) : R := sqrt (sqrt d).

(** getPoint(t).  [None] is the TypeError of the source when one of the
    four points it reads is undefined, as on a curve without points. *)
Definition getPoint (c : Seagull.CatmullRomCurve3) (t : R)
    : option Vector3.t :=
  let points := Seagull.points c in
  let l := Z.of_nat (length points) in
  let p := IZR (l - (if Seagull.closed c then 0 else 1)) * t in
  let intPoint0 := Js.Math_floor p in
  let weight0 := p - IZR intPoint0 in
  let '(intPoint, weight) :=
    if Seagull.closed c then
      ((intPoint0
        + (if (0 <? intPoint0)%Z then 0
           else (Z.abs intPoint0 / l + 1) * l))%Z, weight0)
    else if Req_dec_T weight0 0 then
      (if (intPoint0 =? l - 1)%Z then ((l - 2)%Z, 1) else (intPoint0, weight0))
    else (intPoint0, weight0) in
  let p0 :=
    if Seagull.closed c || (0 <? intPoint)%Z then
      at_index points (Z.rem (intPoint - 1) l)
    else
      match at_index points 0, at_index points 1 with
      | Some a, Some b => Some (Vector3.add (Vector3.sub a b) a)
      | _, _ => None
      end in
  let p1 := at_index points (Z.rem intPoint l) in
  let p2 := at_index points (Z.rem (intPoint + 1) l) in
  let p3 :=
    if Seagull.closed c || (intPoint + 2 <? l)%Z then
      at_index points (Z.rem (intPoint + 2) l)
    else
      match at_index points (l - 1), at_index points (l - 2) with
      | Some a, Some b => Some (Vector3.add (Vector3.sub a b) a)
      | _, _ => None
      end in
  match p0, p1, p2, p3 with
  | Some q0, Some q1, Some q2, Some q3 =>
      let d0 := fourth_root (Vector3.distanceToSquared q0 q1) in
      let d1 := fourth_root (Vector3.distanceToSquared q1 q2) in
      let d2 := fourth_root (Vector3.distanceToSquared q2 q3) in
      let dt1 := if Rlt_dec d1 (1 / 10000) then 1 else d1 in
      let dt0 := if Rlt_dec d0 (1 / 10000) then dt1 else d0 in
      let dt2 := if Rlt_dec d2 (1 / 10000) then dt1 else d2 in
      let px :=
        initNonuniformCatmullRom (Vector3.x q0) (Vector3.x q1) (Vector3.x q2)
          (Vector3.x q3) dt0 dt1 dt2 in
      let py :=
        initNonuniformCatmullRom (Vector3.y q0) (Vector3.y q1) (Vector3.y q2)
          (Vector3.y q3) dt0 dt1 dt2 in
      let pz :=
        initNonuniformCatmullRom (Vector3.z q0) (Vector3.z q1) (Vector3.z q2)
          (Vector3.z q3) dt0 dt1 dt2 in
      Some (Vector3.mk (calc px weight) (calc py weight) (calc pz weight))
  | _, _, _, _ => None
  end.

(** The sampler as Seagull.update uses it, on curves with points. *)
Definition sampler (c : Seagull.CatmullRomCurve3) (t : R) : Vector3.t :=
  match getPoint c t with
  | Some q => q
  | None => Vector3.zero
  end.

End CatmullRom.

(** ** src/scenes/ExampleScene.ts *)

Module ExampleScene.

(** What handleSeagullHit touches: the countdown and the win screen.
    [winScreen] is the display state of the element ([true] for
    "block", [false] for "none"); [winSignals] counts the calls of
    showWinScreen. *)
Record Hud := mkHud {
  remainingSeagulls : Z;
  winScreen : option bool;
  winSignals : nat
}.

Definition NUM_SEAGULLS : nat := 5.

Definition showWinScreen (h : Hud) : Hud :=
  mkHud (remainingSeagulls h)
        (match winScreen h with Some _ => Some true | None => None end)
        (S (winSignals h)).

Definition handleSeagullHit (h : Hud) : Hud :=
  let h1 := mkHud (remainingSeagulls h - 1) (winScreen h) (winSignals h) in
  if Z.leb (remainingSeagulls h1) 0 then showWinScreen h1 else h1.

Definition createWinScreen (h : Hud) : Hud :=
  mkHud (remainingSeagulls h) (Some false) (winSignals h).

Record t := mk {
  sceneId : ObjId;
  stage : Stage;
  hud : Hud;
  seagulls : list (Seagull.t Hud);
  physicsWorld : PhysicsWorld.t;
  balls : list Ball.t;
  rng : Js.Rng;
  nextId : ObjId
}.

Definition boundsMin : Vector3.t := Vector3.mk (-50) 15 (-50).
Definition boundsMax : Vector3.t := Vector3.mk 50 35 50.

(** One turn of the loop of initSeagulls; the timers it starts are
    [attachSeagull]. *)
Definition spawnSeagull (s : t) : t :=
  let '(g0, r1) :=
    Seagull.create (Some handleSeagullHit) (rng s) (nextId s) in
  let '(g1, r2) := Seagull.setBounds boundsMin boundsMax g0 r1 in
  mk (sceneId s) (stage s) (hud s) (seagulls s ++ [g1]) (physicsWorld s)
     (balls s) r2 (nextId s + 8)%nat.

Definition initSeagulls (s : t) : t :=
  let s0 := mk (sceneId s) (stage s)
               (mkHud (Z.of_nat NUM_SEAGULLS) (winScreen (hud s))
                      (winSignals (hud s)))
               (seagulls s) (physicsWorld s) (balls s) (rng s) (nextId s) in
  let s1 := Nat.iter NUM_SEAGULLS spawnSeagull s0 in
  mk (sceneId s1) (stage s1) (createWinScreen (hud s1)) (seagulls s1)
     (physicsWorld s1) (balls s1) (rng s1) (nextId s1).

(** The 500 ms timer of seagull [i]: add its model to the scene. *)
Definition attachSeagull (i : nat) (s : t) : t :=
  match seagulls s !! i with
  | Some g =>
      match Seagull.getModel g with
      | Some m =>
          mk (sceneId s) (Object3D_add (sceneId s) (Seagull.gid m) (stage s))
             (hud s) (seagulls s) (physicsWorld s) (balls s) (rng s)
             (nextId s)
      | None => s
      end
  | None => s
  end.

(** The constructor: the seagulls, then the physics world.  The light,
    the ocean, the sky and the sound are left out. *)
Definition create (sid : ObjId) (g : Js.Rng) : t :=
  let s := initSeagulls
             (mk sid (mkStage ∅ []) (mkHud 0 None 0) []
                 (PhysicsWorld.mk (PhysicsWorld.mkWorld [] []) 0%Q [])
                 [] g (S sid)) in
  mk (sceneId s) (stage s) (hud s) (seagulls s) PhysicsWorld.create
     (balls s) (rng s) (nextId s).

(** [seagull.hit()] on the [i]-th seagull of the scene, as both
    collision paths end up calling it. *)
Definition hitSeagull (i : nat) (s : t) : t :=
  match seagulls s !! i with
  | Some g =>
      let '(g', st', h') := Seagull.hit g (stage s) (hud s) in
      mk (sceneId s) st' h' (<[i := g']> (seagulls s)) (physicsWorld s)
         (balls s) (rng s) (nextId s)
  | None => s
  end.

(** onBallCollide: [target] is the seagull that the collided body's
    userData points to, if it is a seagull body. *)
Definition onBallCollide (target : option nat) (s : t) : t :=
  match target with
  | Some i =>
      match seagulls s !! i with
      | Some g => if Seagull.isHit g then s else hitSeagull i s
      | None => s
      end
  | None => s
  end.

Definition collideCallback : nat := 0%nat.

Definition throwBall (pos vel : Vector3.t) (now : Z) (s : t) : t :=
  let ball := Ball.create pos vel (Some collideCallback) now (nextId s) in
  mk (sceneId s)
     (Object3D_add (sceneId s) (Ball.meshId (Ball.getMesh ball)) (stage s))
     (hud s) (seagulls s)
     (PhysicsWorld.addBody (Ball.bodyId (Ball.getBody ball)) (physicsWorld s))
     (balls s ++ [ball]) (rng s) (nextId s + 4)%nat.

Definition set_balls (bs : list Ball.t) (s : t) : t :=
  mk (sceneId s) (stage s) (hud s) (seagulls s) (physicsWorld s) bs
     (rng s) (nextId s).

(** The body of [if (!isAlive)]: remove the mesh, remove the body,
    dispose, splice(i, 1). *)
Definition removeDead (i : nat) (ball : Ball.t) (s : t) : t :=
  let st1 :=
    Object3D_remove (sceneId s) (Ball.meshId (Ball.getMesh ball)) (stage s) in
  let pw :=
    PhysicsWorld.removeBody (Ball.bodyId (Ball.getBody ball))
                            (physicsWorld s) in
  let '(_, st2) := Ball.dispose ball st1 in
  mk (sceneId s) st2 (hud s) (seagulls s) pw (delete i (balls s)) (rng s)
     (nextId s).

(** One turn of the loop over this.balls, for index [i]; [now] is what
    Date.now() returns inside the update() of that ball. *)
Definition loop_turn (now : Z) (i : nat) (s : t) : t :=
  match balls s !! i with
  | Some ball =>
      let '(isAlive, ball1) := Ball.update now ball in
      let s1 := set_balls (<[i := ball1]> (balls s)) s in
      if isAlive then s1 else removeDead i ball1 s1
  | None => s
  end.

(** [for (let i = n - 1; i >= 0; i--)]. *)
Fixpoint balls_loop (now : nat -> Z) (n : nat) (s : t) : t :=
  match n with
  | O => s
  | S i => balls_loop now i (loop_turn (now i) i s)
  end.

(** update(): physics, seagulls, balls.  The ocean and the frustum
    culling only write shader uniforms and [visible] flags, which the
    model does not carry. *)
Definition update (getPoint : Seagull.CatmullRomCurve3 -> R -> Vector3.t)
    (deltaTime : Q) (gullDelta : nat -> R) (now : nat -> Z) (s : t) : t :=
  let pw := PhysicsWorld.update deltaTime (physicsWorld s) in
  let gulls :=
    imap (fun i g => Seagull.update getPoint (gullDelta i) g) (seagulls s) in
  balls_loop now (length (balls s))
    (mk (sceneId s) (stage s) (hud s) gulls pw (balls s) (rng s) (nextId s)).

Definition detachSeagull (st : Stage) (g : Seagull.t Hud) : Stage :=
  match Seagull.getModel g with
  | Some m =>
      match parentOf (Seagull.gid m) st with
      | Some p => Object3D_remove p (Seagull.gid m) st
      | None => st
      end
  | None => st
  end.

Definition resetGame (s : t) : t :=
  initSeagulls
    (mk (sceneId s) (fold_left detachSeagull (seagulls s) (stage s)) (hud s)
        [] (physicsWorld s) (balls s) (rng s) (nextId s)).

(** The click handler of the "Play Again" button. *)
Definition playAgain (s : t) : t :=
  resetGame
    (mk (sceneId s) (stage s)
        (mkHud (remainingSeagulls (hud s))
               (match winScreen (hud s) with
                | Some _ => Some false
                | None => None
                end)
               (winSignals (hud s)))
        (seagulls s) (physicsWorld s) (balls s) (rng s) (nextId s)).

(** The first loop of dispose(): [this.remove(model)]. *)
Definition removeModel (sid : ObjId) (st : Stage) (g : Seagull.t Hud)
    : Stage :=
  match Seagull.getModel g with
  | Some m => Object3D_remove sid (Seagull.gid m) st
  | None => st
  end.

(** The second loop of dispose(): the body leaves the physics world
    and the ball is disposed; its mesh is not removed from the scene. *)
Definition disposeBall (x : PhysicsWorld.t * Stage) (ball : Ball.t)
    : PhysicsWorld.t * Stage :=
  (PhysicsWorld.removeBody (Ball.bodyId (Ball.getBody ball)) (fst x),
   snd (Ball.dispose ball (snd x))).

(** dispose().  The third loop runs over this.seagulls, which is empty
    by then.  The sound and the DOM element of the win screen are left
    out. *)
Definition dispose (s : t) : t :=
  let st1 := fold_left (removeModel (sceneId s)) (seagulls s) (stage s) in
  let '(pw, st2) := fold_left disposeBall (balls s) (physicsWorld s, st1) in
  mk (sceneId s) st2 (hud s) [] pw [] (rng s) (nextId s).

End ExampleScene.

(** ** src/FirstPersonControls.ts: the projectiles moved by raycasting *)

Module FirstPersonControls.
Local Open Scope R_scope.

Definition BOUNCE_FACTOR : R := 6 / 10.

(** An entry of Raycaster.intersectObjects: [objectRoot] is the group
    the intersected object belongs to (itself when it has no seagull
    ancestor). *)
Record Intersection := mkIntersection {
  distance : R;
  point : Vector3.t;
  faceNormal : option Vector3.t;
  objectRoot : ObjId;
  objectIsSeagull : bool;
  objectQuaternion : Quaternion.t
}.

(** The thrown Mesh with its custom [velocity] property. *)
Record BallMesh := mkBall {
  ballId : ObjId;
  position : Vector3.t;
  velocity : option Vector3.t
}.

Inductive Outcome :=
| NoVelocity
| HitSeagull (c : Intersection)
| Bounced (b : BallMesh)
| Integrated (b : BallMesh).

(** Lines 433-457: free flight, gravity, the floor at y = 0, rest. *)
Definition integrate (delta : R) (b : BallMesh) (v : Vector3.t) : BallMesh :=
  let p1 := Vector3.addScaledVector (position b) v delta in
  let v1 := Vector3.mk (Vector3.x v) (Vector3.y v - (98 / 10) * delta)
                       (Vector3.z v) in
  let '(p2, v2) :=
    if Rlt_dec (Vector3.y p1) 0 then
      let vy := - Vector3.y v1 * BOUNCE_FACTOR in
      (Vector3.mk (Vector3.x p1) 0 (Vector3.z p1),
       Vector3.mk (Vector3.x v1 * (95 / 100))
                  (if Rlt_dec (Rabs vy) (5 / 10) then 0 else vy)
                  (Vector3.z v1 * (95 / 100)))
    else (p1, v1) in
  let v3 := if Rlt_dec (Vector3.lengthSq v2) (1 / 10) then Vector3.zero
            else v2 in
  mkBall (ballId b) p2 (Some v3).

(** The body of the loop over this.balls for one ball; [collidable] is
    this.collidableMeshes.length and [intersections] what the raycaster
    returns for the ray from the ball along its velocity. *)
Definition stepBall (collidable : nat) (intersections : list Intersection)
    (delta : R) (b : BallMesh) : Outcome :=
  match velocity b with
  | None => NoVelocity
  | Some v =>
      let moveDistance := Vector3.length v * delta in
      let collision :=
        if Nat.ltb 0 collidable then
          match intersections with
          | c :: _ => if Rlt_dec (distance c) moveDistance then Some c
                      else None
          | [] => None
          end
        else None in
      match collision with
      | Some c =>
          if objectIsSeagull c then HitSeagull c
          else
            match faceNormal c with
            | Some normal =>
                let normalWorld :=
                  Quaternion.apply normal (objectQuaternion c) in
                Bounced
                  (mkBall (ballId b)
                     (Vector3.addScaledVector (point c) normalWorld (2 / 10))
                     (Some (Vector3.multiplyScalar
                              (Vector3.reflect v normalWorld)
                              BOUNCE_FACTOR)))
            | None => Integrated (integrate delta b v)
            end
      | None => Integrated (integrate delta b v)
      end
  end.

Record t := mk {
  balls : list BallMesh;
  collidableMeshes : list ObjId
}.

(** The search [for (const seagull of this.scene.seagulls)]: the index
    of the first seagull whose model is, or contains, the object. *)
Fixpoint find_owner (root : ObjId)
    (gs : list (Seagull.t ExampleScene.Hud)) (k : nat) : option nat :=
  match gs with
  | [] => None
  | g :: rest =>
      match Seagull.getModel g with
      | Some m => if Nat.eqb (Seagull.gid m) root then Some k
                  else find_owner root rest (S k)
      | None => find_owner root rest (S k)
      end
  end.

(** The seagull branch: hit the first seagull of the scene whose model
    owns the intersected object, then drop the ball if it is still a
    child of the scene. *)
Definition resolveSeagullHit (i : nat) (b : BallMesh) (c : Intersection)
    (ctl : t) (sc : ExampleScene.t) : t * ExampleScene.t :=
  let owner := find_owner (objectRoot c) (ExampleScene.seagulls sc) 0 in
  let sc1 :=
    match owner with
    | Some k => ExampleScene.hitSeagull k sc
    | None => sc
    end in
  match parentOf (ballId b) (ExampleScene.stage sc1) with
  | Some p =>
      if Nat.eqb p (ExampleScene.sceneId sc1) then
        (mk (delete i (balls ctl)) (collidableMeshes ctl),
         ExampleScene.mk (ExampleScene.sceneId sc1)
           (Object3D_remove p (ballId b) (ExampleScene.stage sc1))
           (ExampleScene.hud sc1) (ExampleScene.seagulls sc1)
           (ExampleScene.physicsWorld sc1) (ExampleScene.balls sc1)
           (ExampleScene.rng sc1) (ExampleScene.nextId sc1))
      else (ctl, sc1)
  | None => (ctl, sc1)
  end.

(** [for (let i = n - 1; i >= 0; i--)] over this.balls in update();
    [cast i] is the raycaster's answer for the ball at index [i]. *)
Fixpoint balls_loop (cast : nat -> list Intersection) (delta : R) (n : nat)
    (ctl : t) (sc : ExampleScene.t) : t * ExampleScene.t :=
  match n with
  | O => (ctl, sc)
  | S i =>
      match balls ctl !! i with
      | Some b =>
          match stepBall (length (collidableMeshes ctl)) (cast i) delta b with
          | NoVelocity => balls_loop cast delta i ctl sc
          | HitSeagull c =>
              let '(ctl1, sc1) := resolveSeagullHit i b c ctl sc in
              balls_loop cast delta i ctl1 sc1
          | Bounced b' | Integrated b' =>
              balls_loop cast delta i
                (mk (<[i := b']> (balls ctl)) (collidableMeshes ctl)) sc
          end
      | None => balls_loop cast delta i ctl sc
      end
  end.

(** *** Throwing, expiry and disposal of the projectiles *)

(** The camera as throwBall reads it. *)
Record Camera := mkCamera {
  cameraPosition : Vector3.t;
  cameraQuaternion : Quaternion.t
}.

Definition BALL_SPEED : R := 100.

(** The geometry and the material that all thrown meshes share. *)
Record Shared := mkShared { ballGeometry : ObjId; ballMaterial : ObjId }.

Definition set_stage (st : Stage) (sc : ExampleScene.t) : ExampleScene.t :=
  ExampleScene.mk (ExampleScene.sceneId sc) st (ExampleScene.hud sc)
    (ExampleScene.seagulls sc) (ExampleScene.physicsWorld sc)
    (ExampleScene.balls sc) (ExampleScene.rng sc) (ExampleScene.nextId sc).

(** Lines 166-180 of throwBall: the new mesh [oid] starts half a unit
    in front of the camera and flies along the camera's forward axis. *)
Definition newBall (cam : Camera) (oid : ObjId) : BallMesh :=
  let direction :=
    Quaternion.apply (Vector3.mk 0 0 (-1)) (cameraQuaternion cam) in
  mkBall oid
    (Vector3.addScaledVector (cameraPosition cam) direction (5 / 10))
    (Some (Vector3.multiplyScalar direction BALL_SPEED)).

(** throwBall, in a scene; the timer it starts is [expireBall]. *)
Definition throwBall (cam : Camera) (oid : ObjId) (ctl : t)
    (sc : ExampleScene.t) : t * ExampleScene.t :=
  let ball := newBall cam oid in
  (mk (balls ctl ++ [ball]) (collidableMeshes ctl),
   set_stage (Object3D_add (ExampleScene.sceneId sc) (ballId ball)
                (ExampleScene.stage sc)) sc).

(** Array.prototype.indexOf on the tracked meshes, from index [k]. *)
Fixpoint indexOf (oid : ObjId) (l : list BallMesh) (k : nat) : option nat :=
  match l with
  | [] => None
  | b :: r => if Nat.eqb (ballId b) oid then Some k else indexOf oid r (S k)
  end.

(** The BALL_LIFETIME timer of the mesh [oid]. *)
Definition expireBall (sh : Shared) (oid : ObjId) (ctl : t)
    (sc : ExampleScene.t) : t * ExampleScene.t :=
  let st := ExampleScene.stage sc in
  let st1 :=
    match parentOf oid st with
    | Some p =>
        if Nat.eqb p (ExampleScene.sceneId sc)
        then Object3D_remove (ExampleScene.sceneId sc) oid st
        else st
    | None => st
    end in
  let balls' :=
    match indexOf oid (balls ctl) 0 with
    | Some i => delete i (balls ctl)
    | None => balls ctl
    end in
  (mk balls' (collidableMeshes ctl),
   set_stage (gpu_dispose (ballGeometry sh) st1) sc).

(** One turn of the loop of dispose(). *)
Definition disposeBall (sh : Shared) (sid : ObjId) (st : Stage)
    (ball : BallMesh) : Stage :=
  gpu_dispose (ballMaterial sh)
    (gpu_dispose (ballGeometry sh) (Object3D_remove sid (ballId ball) st)).

(** dispose(), as far as the projectiles and their resources go. *)
Definition dispose (sh : Shared) (ctl : t) (sc : ExampleScene.t)
    : t * ExampleScene.t :=
  let st1 :=
    fold_left (disposeBall sh (ExampleScene.sceneId sc)) (balls ctl)
              (ExampleScene.stage sc) in
  (mk [] (collidableMeshes ctl),
   set_stage (gpu_dispose (ballMaterial sh)
                (gpu_dispose (ballGeometry sh) st1)) sc).

(** *** The keys and the player *)

Inductive KeyCode :=
| KeyW | ArrowUp | KeyS | ArrowDown | KeyA | ArrowLeft | KeyD | ArrowRight
| Space | OtherKey.

Record Keys := mkKeys {
  moveForward : bool;
  moveBackward : bool;
  moveLeft : bool;
  moveRight : bool;
  jumpRequested : bool
}.

Definition onKeyDown (c : KeyCode) (k : Keys) : Keys :=
  match c with
  | KeyW | ArrowUp =>
      mkKeys true (moveBackward k) (moveLeft k) (moveRight k)
             (jumpRequested k)
  | KeyS | ArrowDown =>
      mkKeys (moveForward k) true (moveLeft k) (moveRight k)
             (jumpRequested k)
  | KeyA | ArrowLeft =>
      mkKeys (moveForward k) (moveBackward k) true (moveRight k)
             (jumpRequested k)
  | KeyD | ArrowRight =>
      mkKeys (moveForward k) (moveBackward k) (moveLeft k) true
             (jumpRequested k)
  | Space =>
      mkKeys (moveForward k) (moveBackward k) (moveLeft k) (moveRight k) true
  | OtherKey => k
  end.

Definition onKeyUp (c : KeyCode) (k : Keys) : Keys :=
  match c with
  | KeyW | ArrowUp =>
      mkKeys false (moveBackward k) (moveLeft k) (moveRight k)
             (jumpRequested k)
  | KeyS | ArrowDown =>
      mkKeys (moveForward k) false (moveLeft k) (moveRight k)
             (jumpRequested k)
  | KeyA | ArrowLeft =>
      mkKeys (moveForward k) (moveBackward k) false (moveRight k)
             (jumpRequested k)
  | KeyD | ArrowRight =>
      mkKeys (moveForward k) (moveBackward k) (moveLeft k) false
             (jumpRequested k)
  | Space =>
      mkKeys (moveForward k) (moveBackward k) (moveLeft k) (moveRight k) false
  | OtherKey => k
  end.

(** Number(b) for a boolean. *)
Definition Number (b : bool) : R := if b then 1 else 0.

Definition movementSpeed : R := 15.
Definition jumpSpeed : R := 15.
Definition gravity : R := 50.
Definition playerHeight : R := 25 / 10.

(** Lines 300-307 of update(): this.direction once the keys have been
    read; its y component is never written and stays 0. *)
Definition moveDirection (k : Keys) (delta : R) : Vector3.t :=
  let d := Vector3.mk (Number (moveRight k) - Number (moveLeft k)) 0
                      (Number (moveBackward k) - Number (moveForward k)) in
  if Rlt_dec 0 (Vector3.length d) then
    Vector3.multiplyScalar (Vector3.normalize d) (movementSpeed * delta)
  else d.

Record Player := mkPlayer {
  velocityY : R;
  isOnGround : bool;
  canJump : bool
}.

(** checkGroundCollision: [ground] is the distance of the first
    intersection of the ray cast downwards from the camera, if any. *)
Definition checkGroundCollision (collidable : nat) (ground : option R)
    (p : Player) : Player :=
  if Nat.eqb collidable 0 then p
  else
    mkPlayer (velocityY p)
      (match ground with
       | Some d => if Rle_dec d playerHeight then true else false
       | None => false
       end)
      (canJump p).

(** Lines 282-298 of update(), with the pointer locked: the ground
    check, gravity, the jump.  The boolean tells whether the 250 ms
    timer, [jumpTimer], was started. *)
Definition jumpStep (collidable : nat) (ground : option R) (delta : R)
    (k : Keys) (p : Player) : Player * bool :=
  let p1 := checkGroundCollision collidable ground p in
  let vy :=
    if negb (isOnGround p1) then velocityY p1 - gravity * delta
    else if Rlt_dec (velocityY p1) 0 then 0
    else velocityY p1 in
  if jumpRequested k && isOnGround p1 && canJump p1
  then (mkPlayer jumpSpeed false false, true)
  else (mkPlayer vy (isOnGround p1) (canJump p1), false).

Definition jumpTimer (p : Player) : Player :=
  mkPlayer (velocityY p) (isOnGround p) true.

End FirstPersonControls.

(** ** The vertex shader of the ocean (src/unnamed/part_000) *)

Module OceanShader.
Local Open Scope R_scope.

Record vec2 := mkVec2 { vx : R; vy : R }.

(** The GLSL built-ins the shader uses, after the GLSL specification;
    a float is a real number here. *)
Definition floor (x : R) : R := IZR (Int_part x).
Definition fract (x : R) : R := x - floor x.
Definition dot (a b : vec2) : R := vx a * vx b + vy a * vy b.
Definition mix (a b t : R) : R := a * (1 - t) + b * t.
Definition add (a b : vec2) : vec2 := mkVec2 (vx a + vx b) (vy a + vy b).
Definition sub (a b : vec2) : vec2 := mkVec2 (vx a - vx b) (vy a - vy b).
Definition scale (a : vec2) (k : R) : vec2 := mkVec2 (vx a * k) (vy a * k).

Definition random (st : vec2) : R :=
  fract (sin (dot st (mkVec2 (129898 / 10000) (78233 / 1000)))
         * (437585453 / 10000)).

Definition randomGradient (p : vec2) : vec2 :=
  let angle := random p * 20 * (314159 / 100000) in
  mkVec2 (cos angle) (sin angle).

Definition smoothInterpolation (a b t : R) : R :=
  let smoothT := t * t * (3 - 2 * t) in
  mix a b smoothT.

Definition perlinNoise (p : vec2) : R :=
  let gridCell := mkVec2 (floor (vx p)) (floor (vy p)) in
  let localCoord := mkVec2 (fract (vx p)) (fract (vy p)) in
  let grad00 := randomGradient gridCell in
  let grad10 := randomGradient (add gridCell (mkVec2 1 0)) in
  let grad01 := randomGradient (add gridCell (mkVec2 0 1)) in
  let grad11 := randomGradient (add gridCell (mkVec2 1 1)) in
  let dot00 := dot grad00 localCoord in
  let dot10 := dot grad10 (sub localCoord (mkVec2 1 0)) in
  let dot01 := dot grad01 (sub localCoord (mkVec2 0 1)) in
  let dot11 := dot grad11 (sub localCoord (mkVec2 1 1)) in
  let ux := smoothInterpolation dot00 dot10 (vx localCoord) in
  let uy := smoothInterpolation dot01 dot11 (vx localCoord) in
  smoothInterpolation ux uy (vy localCoord).

(** [for (int i = 0; i < 6; i++)], with [n] turns left. *)
Fixpoint fbm_loop (n : nat) (x : vec2) (total amplitude frequency : R) : R :=
  match n with
  | O => total
  | S k =>
      fbm_loop k x (total + perlinNoise (scale x frequency) * amplitude)
               (amplitude * (5 / 10)) (frequency * 2)
  end.

Definition fbm (x : vec2) : R := fbm_loop 6 x 0 (5 / 10) (25 / 100).

Record Uniforms := mkUniforms {
  time : R;
  waveAmplitude : R;
  waveFrequency : R;
  waveDirection : vec2
}.

(** main(): the displaced vertex and the varying [displacement]; the
    projection to clip space is left out. *)
Definition main (u : Uniforms) (position normal : Vector3.t)
    : Vector3.t * R :=
  let noiseCoord :=
    add (scale (mkVec2 (Vector3.x position) (Vector3.z position))
               (waveFrequency u))
        (scale (scale (waveDirection u) (time u)) (1 / 10)) in
  let noiseVal := fbm noiseCoord * waveAmplitude u in
  (Vector3.addScaledVector position normal noiseVal, noiseVal).

End OceanShader.

(** * Vocabulary of the statements *)

(** What the loop has done when it stops after [m - n] turns. *)
Record loop_post (p : PhysicsWorld.t) (n : nat) (r : PhysicsWorld.t * nat)
  : Prop := {
  post_count : (n <= snd r <= PhysicsWorld.maxSteps)%nat;
  post_steps :
    PhysicsWorld.steps (PhysicsWorld.world (fst r)) =
    repeat PhysicsWorld.timeStep (snd r - n)
      ++ PhysicsWorld.steps (PhysicsWorld.world p);
  post_wbodies :
    PhysicsWorld.wbodies (PhysicsWorld.world (fst r)) =
    PhysicsWorld.wbodies (PhysicsWorld.world p);
  post_bodies : PhysicsWorld.bodies (fst r) = PhysicsWorld.bodies p;
  post_acc :
    (PhysicsWorld.accumulator (fst r) ==
     PhysicsWorld.accumulator p
     - inject_Z (Z.of_nat (snd r - n)) * PhysicsWorld.timeStep)%Q;
  post_exit :
    (snd r < PhysicsWorld.maxSteps)%nat ->
    (PhysicsWorld.accumulator (fst r) < PhysicsWorld.timeStep)%Q
}.

(** The calls a client can make on a Ball. *)
Inductive BallCall :=
| CallUpdate (now : Z)
| CallDispose.

Definition ball_call (x : Ball.t * Stage) (c : BallCall) : Ball.t * Stage :=
  match c with
  | CallUpdate now => (snd (Ball.update now (fst x)), snd x)
  | CallDispose => Ball.dispose (fst x) (snd x)
  end.

(** The GPU resources a ball owns: its geometry and its materials. *)
Definition ball_resources (b : Ball.t) : list ObjId :=
  Ball.geometry (Ball.mesh b) ::
  match Ball.material (Ball.mesh b) with
  | Single m => [m]
  | Many ms => ms
  end.

Definition owned (r : ObjId) (b : Ball.t) : nat :=
  count_occ Nat.eq_dec (ball_resources b) r.

(** How many times [r] is owned by the balls of a list: 0 when no
    tracked ball has it. *)
Definition owners (r : ObjId) (l : list Ball.t) : nat :=
  list_sum (map (owned r) l).

Definition reports_dead (now : Z) (b : Ball.t) : bool :=
  negb (fst (Ball.update now b)).

(** How many times [r] is owned by those of the first [n] balls that
    [sel] selects. *)
Fixpoint tally (sel : nat -> Ball.t -> bool) (r : ObjId) (l : list Ball.t)
    (n : nat) : nat :=
  match n with
  | O => 0
  | S i =>
      match l !! i with
      | Some b => if sel i b then owned r b else 0
      | None => 0
      end + tally sel r l i
  end.

(** The same count for the balls that report dead, [now i] being the
    time read for the ball at index [i]. *)
Definition dead_in (now : nat -> Z) : ObjId -> list Ball.t -> nat -> nat :=
  tally (fun i b => reports_dead (now i) b).

(** The scene tracks live balls with distinct resources, and both body
    lists are free of duplicates, as in every scene that the constructor
    and throwBall build. *)
Record balls_wf (s : ExampleScene.t) : Prop := {
  wf_live : Forall (fun b => Ball.disposed b = false) (ExampleScene.balls s);
  wf_owner : forall r, (owners r (ExampleScene.balls s) <= 1)%nat;
  wf_registry :
    NoDup (PhysicsWorld.bodies (ExampleScene.physicsWorld s));
  wf_engine :
    NoDup (PhysicsWorld.wbodies
             (PhysicsWorld.world (ExampleScene.physicsWorld s)))
}.

(** A scene to try the statements on: the constructor, then two balls
    thrown at times 0 and 3000 ms. *)
Definition demo_rng : Js.Rng := Js.mkRng (fun _ => (1 / 2)%R) 0.

Definition demo_scene : ExampleScene.t :=
  ExampleScene.throwBall (Vector3.mk 0 2 0) (Vector3.mk 0 0 (-100)) 3000
    (ExampleScene.throwBall (Vector3.mk 0 2 0) (Vector3.mk 0 0 (-100)) 0
       (ExampleScene.create 0 demo_rng)).

(** A sampler to run update() with where the result does not depend on
    the spline: every sample is the origin. *)
Definition origin_sampler (c : Seagull.CatmullRomCurve3) (u : R) : Vector3.t :=
  Vector3.zero.

(** The first ball of [demo_scene]. *)
Definition demo_ball : Ball.t :=
  Ball.create (Vector3.mk 0 2 0) (Vector3.mk 0 0 (-100))
              (Some ExampleScene.collideCallback) 0 41.

(** hit() once more on the result of a hit(). *)
Definition hit_again {Env : Type} (x : Seagull.t Env * Stage * Env)
    : Seagull.t Env * Stage * Env :=
  Seagull.hit (fst (fst x)) (snd (fst x)) (snd x).

(** The resources dispose() releases, one entry per release. *)
Definition group_resources (m : Seagull.Group) : list ObjId :=
  flat_map (fun r => Seagull.geometry r ::
                     match Seagull.material r with
                     | Single x => [x]
                     | Many xs => xs
                     end)
           (Seagull.meshes m).

(** progress after one more tick: advance, then wrap once above 1. *)
Definition advance (progress speed delta : R) : R :=
  if Rlt_dec 1 (progress + speed * delta) then progress + speed * delta - 1
  else (progress + speed * delta)%R.

(** A seagull to try the statements on: built by the constructor with
    object identity 1, its hit callback counting the notifications, and
    the stage in which its model is a child of the scene 0. *)
Definition demo_gull : Seagull.t nat :=
  fst (Seagull.create (Some S) demo_rng 1).

Definition demo_stage : Stage := Object3D_add 0 1 (mkStage ∅ []).

(** A length whose square is an ordinary double, neither rounded to 0
    nor infinite: between 1e-150 and 1e150. *)
Definition ordinary_length (l : R) : Prop :=
  (/ 10 ^ 150 <= l <= 10 ^ 150)%R.

(** Two path samples half a millimetre apart. *)
Definition sample_here : Vector3.t := Vector3.mk 10 20 10.
Definition sample_ahead : Vector3.t := Vector3.mk (10 + 1 / 2000) 20 10.

(** Inside the axis-aligned box, corners included. *)
Definition in_box (b : Seagull.Box3) (q : Vector3.t) : Prop :=
  (Vector3.x (Seagull.bmin b) <= Vector3.x q <= Vector3.x (Seagull.bmax b)
   /\ Vector3.y (Seagull.bmin b) <= Vector3.y q <= Vector3.y (Seagull.bmax b)
   /\ Vector3.z (Seagull.bmin b) <= Vector3.z q
      <= Vector3.z (Seagull.bmax b))%R.

(** Where createRandomPath puts a control point: x and z inside the box,
    y in the band of height 15 that starts 5 above the lower corner.
    Both ends of the band are included: the largest draw makes a double
    equal to min.y + 20. *)
Definition in_flight_band (b : Seagull.Box3) (q : Vector3.t) : Prop :=
  (Vector3.x (Seagull.bmin b) <= Vector3.x q <= Vector3.x (Seagull.bmax b)
   /\ Vector3.y (Seagull.bmin b) + 5 <= Vector3.y q
      <= Vector3.y (Seagull.bmin b) + 20
   /\ Vector3.z (Seagull.bmin b) <= Vector3.z q
      <= Vector3.z (Seagull.bmax b))%R.

Definition flight_path (b : Seagull.Box3) (p : Seagull.CatmullRomCurve3)
    : Prop :=
  (5 <= length (Seagull.points p) <= 7)%nat
  /\ Seagull.closed p = true
  /\ Forall (in_flight_band b) (Seagull.points p).

(** A box only 10 high. *)
Definition low_box_min : Vector3.t := Vector3.mk 0 0 0.
Definition low_box_max : Vector3.t := Vector3.mk 10 10 10.

(** Results of Math.random() that make a path of five control points
    with a steep climb: 0 for the number of points, then x, y and z of
    each point; every later result is 0. *)
Definition steep_draws : list R :=
  [ 0; 1 / 4; 0; 49 / 50; 1 / 4; 14 / 15; 1 / 2; 3 / 4; 14 / 15; 1 / 2;
    3 / 4; 0; 49 / 50; 1 / 2; 0; 0 ]%R.

Definition steep_rng : Js.Rng := Js.mkRng (fun n => nth n steep_draws 0%R) 0.

(** The control points those results make in the box of ExampleScene. *)
Definition steep_points : list Vector3.t :=
  [ Vector3.mk (-25) 20 48; Vector3.mk (-25) 34 0; Vector3.mk 25 34 0;
    Vector3.mk 25 20 48; Vector3.mk 0 20 (-50) ].

(** The seagull after setBounds with the box of ExampleScene, and after
    setBounds with the low box, on those results. *)
Definition steep_gull : Seagull.t nat :=
  fst (Seagull.setBounds ExampleScene.boundsMin ExampleScene.boundsMax
         demo_gull steep_rng).

Definition low_gull : Seagull.t nat :=
  fst (Seagull.setBounds low_box_min low_box_max demo_gull steep_rng).

(** Everything the rest of the argument needs to know about one turn. *)
Record turn_post (now : Z) (i : nat) (s s' : ExampleScene.t) : Prop := {
  tp_scene : ExampleScene.sceneId s' = ExampleScene.sceneId s;
  tp_graph : forall c q,
    parentOf c (ExampleScene.stage s') = Some q ->
    parentOf c (ExampleScene.stage s) = Some q;
  tp_prefix : forall j, (j < i)%nat ->
    ExampleScene.balls s' !! j = ExampleScene.balls s !! j;
  tp_live :
    Forall (fun b => Ball.disposed b = false) (ExampleScene.balls s) ->
    Forall (fun b => Ball.disposed b = false) (ExampleScene.balls s');
  tp_registry_sub : forall x,
    x ∈ PhysicsWorld.bodies (ExampleScene.physicsWorld s') ->
    x ∈ PhysicsWorld.bodies (ExampleScene.physicsWorld s);
  tp_engine_sub : forall x,
    x ∈ PhysicsWorld.wbodies (PhysicsWorld.world (ExampleScene.physicsWorld s')) ->
    x ∈ PhysicsWorld.wbodies (PhysicsWorld.world (ExampleScene.physicsWorld s));
  tp_registry_nodup :
    NoDup (PhysicsWorld.bodies (ExampleScene.physicsWorld s)) ->
    NoDup (PhysicsWorld.bodies (ExampleScene.physicsWorld s'));
  tp_engine_nodup :
    NoDup (PhysicsWorld.wbodies (PhysicsWorld.world (ExampleScene.physicsWorld s))) ->
    NoDup (PhysicsWorld.wbodies (PhysicsWorld.world (ExampleScene.physicsWorld s')));
  tp_releases : forall r,
    Forall (fun b => Ball.disposed b = false) (ExampleScene.balls s) ->
    releases r (ExampleScene.stage s') =
    (match ExampleScene.balls s !! i with
     | Some b => if reports_dead now b then owned r b else 0
     | None => 0
     end + releases r (ExampleScene.stage s))%nat;
  tp_owners : forall r,
    (owners r (ExampleScene.balls s')
     + match ExampleScene.balls s !! i with
       | Some b => if reports_dead now b then owned r b else 0
       | None => 0
       end)%nat = owners r (ExampleScene.balls s);
  tp_dead : forall b,
    ExampleScene.balls s !! i = Some b -> reports_dead now b = true ->
    parentOf (Ball.meshId (Ball.mesh b)) (ExampleScene.stage s')
      <> Some (ExampleScene.sceneId s)
    /\ (NoDup (PhysicsWorld.bodies (ExampleScene.physicsWorld s)) ->
        Ball.bodyId (Ball.body b)
          ∉ PhysicsWorld.bodies (ExampleScene.physicsWorld s'))
    /\ (NoDup (PhysicsWorld.wbodies
                 (PhysicsWorld.world (ExampleScene.physicsWorld s))) ->
        Ball.bodyId (Ball.body b)
          ∉ PhysicsWorld.wbodies
              (PhysicsWorld.world (ExampleScene.physicsWorld s')))
}.

(** The same facts for the whole loop over the first [n] balls. *)
Record sweep_post (now : nat -> Z) (n : nat) (s s' : ExampleScene.t) : Prop := {
  sp_scene : ExampleScene.sceneId s' = ExampleScene.sceneId s;
  sp_graph : forall c q,
    parentOf c (ExampleScene.stage s') = Some q ->
    parentOf c (ExampleScene.stage s) = Some q;
  sp_live :
    Forall (fun b => Ball.disposed b = false) (ExampleScene.balls s) ->
    Forall (fun b => Ball.disposed b = false) (ExampleScene.balls s');
  sp_registry_sub : forall x,
    x ∈ PhysicsWorld.bodies (ExampleScene.physicsWorld s') ->
    x ∈ PhysicsWorld.bodies (ExampleScene.physicsWorld s);
  sp_engine_sub : forall x,
    x ∈ PhysicsWorld.wbodies (PhysicsWorld.world (ExampleScene.physicsWorld s')) ->
    x ∈ PhysicsWorld.wbodies (PhysicsWorld.world (ExampleScene.physicsWorld s));
  sp_registry_nodup :
    NoDup (PhysicsWorld.bodies (ExampleScene.physicsWorld s)) ->
    NoDup (PhysicsWorld.bodies (ExampleScene.physicsWorld s'));
  sp_engine_nodup :
    NoDup (PhysicsWorld.wbodies (PhysicsWorld.world (ExampleScene.physicsWorld s))) ->
    NoDup (PhysicsWorld.wbodies (PhysicsWorld.world (ExampleScene.physicsWorld s')));
  sp_releases : forall r,
    Forall (fun b => Ball.disposed b = false) (ExampleScene.balls s) ->
    releases r (ExampleScene.stage s') =
    (dead_in now r (ExampleScene.balls s) n
     + releases r (ExampleScene.stage s))%nat;
  sp_owners : forall r,
    (owners r (ExampleScene.balls s')
     + dead_in now r (ExampleScene.balls s) n)%nat
    = owners r (ExampleScene.balls s);
  sp_dead : forall j b,
    (j < n)%nat -> ExampleScene.balls s !! j = Some b ->
    reports_dead (now j) b = true ->
    parentOf (Ball.meshId (Ball.mesh b)) (ExampleScene.stage s')
      <> Some (ExampleScene.sceneId s)
    /\ (NoDup (PhysicsWorld.bodies (ExampleScene.physicsWorld s)) ->
        Ball.bodyId (Ball.body b)
          ∉ PhysicsWorld.bodies (ExampleScene.physicsWorld s'))
    /\ (NoDup (PhysicsWorld.wbodies
                 (PhysicsWorld.world (ExampleScene.physicsWorld s))) ->
        Ball.bodyId (Ball.body b)
          ∉ PhysicsWorld.wbodies
              (PhysicsWorld.world (ExampleScene.physicsWorld s')))
}.

(** The resources of the seagull models have been allocated. *)
Definition gulls_allocated (s : ExampleScene.t) : Prop :=
  forall k gl m r,
    ExampleScene.seagulls s !! k = Some gl ->
    Seagull.model gl = Some m -> r ∈ group_resources m ->
    (r < ExampleScene.nextId s)%nat.

(** A reachable scene tracks its balls well, and moreover: no tracked
    ball owns a resource, and no body list holds a body, numbered
    [nextId] or above, which makes the next ball fresh; and the resources
    of the seagull models are below [nextId] and owned by no ball. *)
Record scene_wf (s : ExampleScene.t) : Prop := {
  sw_balls : balls_wf s;
  sw_fresh : forall r, (ExampleScene.nextId s <= r)%nat ->
    owners r (ExampleScene.balls s) = 0%nat;
  sw_registry : forall x,
    x ∈ PhysicsWorld.bodies (ExampleScene.physicsWorld s) ->
    (x < ExampleScene.nextId s)%nat;
  sw_engine : forall x,
    x ∈ PhysicsWorld.wbodies
          (PhysicsWorld.world (ExampleScene.physicsWorld s)) ->
    (x < ExampleScene.nextId s)%nat;
  sw_gulls : forall k gl m r,
    ExampleScene.seagulls s !! k = Some gl ->
    Seagull.model gl = Some m -> r ∈ group_resources m ->
    (r < ExampleScene.nextId s)%nat
    /\ owners r (ExampleScene.balls s) = 0%nat
}.

(** The resource [r] is in use no more: it has been allocated, and
    neither a tracked ball nor a seagull model owns it. *)
Record retired (r : ObjId) (s : ExampleScene.t) : Prop := {
  rt_balls : owners r (ExampleScene.balls s) = 0%nat;
  rt_old : (r < ExampleScene.nextId s)%nat;
  rt_gulls : forall k gl m,
    ExampleScene.seagulls s !! k = Some gl ->
    Seagull.model gl = Some m -> r ∉ group_resources m
}.

(** What happens to the scene: a frame, a ball thrown, hit() called on
    the [i]-th seagull by the raycast path, a collision reported by the
    physics engine, the 500 ms timer of the [i]-th seagull. *)
Inductive SceneEvent :=
| Tick (deltaTime : Q) (gullDelta : nat -> R) (now : nat -> Z)
| Throw (pos vel : Vector3.t) (now : Z)
| Hit (i : nat)
| Collide (target : option nat)
| Attach (i : nat).

Definition scene_event
    (getPoint : Seagull.CatmullRomCurve3 -> R -> Vector3.t)
    (s : ExampleScene.t) (e : SceneEvent) : ExampleScene.t :=
  match e with
  | Tick dt gd now => ExampleScene.update getPoint dt gd now s
  | Throw pos vel now => ExampleScene.throwBall pos vel now s
  | Hit i => ExampleScene.hitSeagull i s
  | Collide target => ExampleScene.onBallCollide target s
  | Attach i => ExampleScene.attachSeagull i s
  end.

(** The scene after the events [es], in that order. *)
Definition run (getPoint : Seagull.CatmullRomCurve3 -> R -> Vector3.t)
    (es : list SceneEvent) (s : ExampleScene.t) : ExampleScene.t :=
  fold_left (scene_event getPoint) es s.

(** The seagulls that the events ask to hit, in order. *)
Definition event_hits (e : SceneEvent) : list nat :=
  match e with
  | Hit i => [i]
  | Collide (Some i) => [i]
  | _ => []
  end.

Definition hit_indices (es : list SceneEvent) : list nat :=
  flat_map event_hits es.

(** How many distinct seagulls of the scene occur among the indices
    [l]. *)
Definition distinct_hits (l : list nat) : nat :=
  length (List.filter (fun k => existsb (Nat.eqb k) l)
            (seq 0 ExampleScene.NUM_SEAGULLS)).

(** A seagull as initSeagulls makes it: not hit, notifying the scene. *)
Definition fresh_gull (x : Seagull.t ExampleScene.Hud) : Prop :=
  Seagull.isHit x = false
  /\ Seagull.onHitCallback x = Some ExampleScene.handleSeagullHit.

(** The scene after the hits [l], seen from the countdown. *)
Record win_inv (l : list nat) (s : ExampleScene.t) : Prop := {
  wi_len : length (ExampleScene.seagulls s) = ExampleScene.NUM_SEAGULLS;
  wi_gulls : forall k gl,
    ExampleScene.seagulls s !! k = Some gl ->
    Seagull.isHit gl = existsb (Nat.eqb k) l
    /\ Seagull.onHitCallback gl = Some ExampleScene.handleSeagullHit;
  wi_remaining :
    ExampleScene.remainingSeagulls (ExampleScene.hud s)
    = (Z.of_nat ExampleScene.NUM_SEAGULLS - Z.of_nat (distinct_hits l))%Z;
  wi_signals :
    ExampleScene.winSignals (ExampleScene.hud s)
    = if Nat.eqb (distinct_hits l) ExampleScene.NUM_SEAGULLS
      then 1%nat else 0%nat;
  wi_screen :
    ExampleScene.winScreen (ExampleScene.hud s)
    = Some (Nat.eqb (distinct_hits l) ExampleScene.NUM_SEAGULLS)
}.

(** A ball one unit above a floor tile, falling at unit speed, and the
    raycaster's answer: the tile half a unit below, facing up. *)
Definition falling_ball : FirstPersonControls.BallMesh :=
  FirstPersonControls.mkBall 7 (Vector3.mk 0 1 0) (Some (Vector3.mk 0 (-1) 0)).

Definition floor_tile : FirstPersonControls.Intersection :=
  FirstPersonControls.mkIntersection (1 / 2) (Vector3.mk 0 (1 / 2) 0)
    (Some (Vector3.mk 0 1 0)) 9 false Quaternion.identity.

(** The same tile on an object turned about the x axis, by the angle
    whose cosine is 7/25. *)
Definition tilt : Quaternion.t := Quaternion.mk (3 / 5) 0 0 (4 / 5).

Definition tilted_tile : FirstPersonControls.Intersection :=
  FirstPersonControls.mkIntersection (1 / 2) (Vector3.mk 0 (1 / 2) 0)
    (Some (Vector3.mk 0 1 0)) 9 false tilt.

(** A face of a mesh that is not turned in its parent, with the normal
    (3/5, 4/5, 0) in the space of the mesh; and the rotation of a parent
    turned half a turn about the y axis, as update() turns the model of
    a seagull that flies towards -z.  The collision sphere of the
    fallback model is such a mesh: it is a Mesh, so collidable, is not
    tagged as a seagull, and is a child of the model. *)
Definition sphere_face : FirstPersonControls.Intersection :=
  FirstPersonControls.mkIntersection (1 / 2) (Vector3.mk 0 (1 / 2) 0)
    (Some (Vector3.mk (3 / 5) (4 / 5) 0)) 9 false Quaternion.identity.

Definition half_turn : Quaternion.t := Quaternion.mk 0 1 0 0.

(** The face normal in world space, for an object whose parent has the
    world rotation [parent]: the object's own rotation, then that of
    the parent. *)
Definition worldNormal (parent : Quaternion.t)
    (c : FirstPersonControls.Intersection) (normal : Vector3.t) : Vector3.t :=
  Quaternion.apply
    (Quaternion.apply normal (FirstPersonControls.objectQuaternion c)) parent.

(** The bounce in the words of the specification: the velocity reflected
    about the world-space normal and scaled by the bounce factor, the
    ball at the impact point offset 0.2 along that normal. *)
Definition spec_bounce_velocity (parent : Quaternion.t)
    (c : FirstPersonControls.Intersection) (normal v : Vector3.t)
    : Vector3.t :=
  Vector3.multiplyScalar (Vector3.reflect v (worldNormal parent c normal))
    FirstPersonControls.BOUNCE_FACTOR.

Definition spec_bounce_position (parent : Quaternion.t)
    (c : FirstPersonControls.Intersection) (normal : Vector3.t) : Vector3.t :=
  Vector3.addScaledVector (FirstPersonControls.point c)
    (worldNormal parent c normal) (2 / 10).


(** * Vocabulary of the further statements *)

(** The frames of a run, each with its deltaTime. *)
Definition physics_frames (dts : list Q) (p : PhysicsWorld.t) : PhysicsWorld.t :=
  fold_left (fun q dt => PhysicsWorld.update dt q) dts p.

(** The accumulator is a double in the source and an exact rational
    here.  The two agree on which way [accumulator >= timeStep] goes
    except within a few units in the last place of a multiple of the
    timestep; the statements that depend on the test keep the relative
    distance [rounding_margin] from those multiples. *)
Definition rounding_margin : Q := 1 # 1000000000.

(** [a] is not within the margin of [j] timesteps. *)
Definition clear_of_multiple (j : Z) (a : Q) : Prop :=
  (a <= inject_Z j * PhysicsWorld.timeStep * (1 - rounding_margin)
   \/ inject_Z j * PhysicsWorld.timeStep * (1 + rounding_margin) <= a)%Q.

(** [a] is not within the margin of a value at which the loop test of
    update() can change: one, two or three timesteps. *)
Definition clear_of_thresholds (a : Q) : Prop :=
  clear_of_multiple 1 a /\ clear_of_multiple 2 a /\ clear_of_multiple 3 a.

(** A frame that the three steps of one update() can absorb: at most
    three timesteps (50 ms) less the margin. *)
Definition short_frame (dt : Q) : Prop :=
  (0 <= dt /\ dt <= 3 * PhysicsWorld.timeStep * (1 - rounding_margin))%Q.

(** The time the frames [dts] took altogether. *)
Definition elapsed (dts : list Q) : Q := fold_right Qplus 0%Q dts.

(** The time the engine has been stepped through: the sum of the
    arguments of all calls of world.step. *)
Definition simulated (p : PhysicsWorld.t) : Q :=
  fold_right Qplus 0%Q (PhysicsWorld.steps (PhysicsWorld.world p)).

(** update() called once per frame, [deltas] being the successive
    results of clock.getDelta(). *)
Definition gull_frames {Env : Type}
    (getPoint : Seagull.CatmullRomCurve3 -> R -> Vector3.t)
    (deltas : list R) (s : Seagull.t Env) : Seagull.t Env :=
  fold_left (fun x d => Seagull.update getPoint d x) deltas s.

(** dispose() on the result of a dispose(). *)
Definition dispose_again {Env : Type} (x : Seagull.t Env * Stage)
    : Seagull.t Env * Stage :=
  Seagull.dispose (fst x) (snd x).

(** The balls that one frame keeps, [k] being the index of the first
    ball of [l] in this.balls: those whose update() returns true, in
    their order, as that update() leaves them. *)
Fixpoint survivors (now : nat -> Z) (k : nat) (l : list Ball.t)
    : list Ball.t :=
  match l with
  | [] => []
  | b :: r =>
      let '(isAlive, b') := Ball.update (now k) b in
      if isAlive then b' :: survivors now (S k) r
      else survivors now (S k) r
  end.

(** The physics world of a scene as the constructor and throwBall
    build it: the ground plane first, the engine's list equal to the
    registry, and no tracked ball on the ground plane's body. *)
Record world_inv (s : ExampleScene.t) : Prop := {
  wv_ground : exists rest,
    PhysicsWorld.bodies (ExampleScene.physicsWorld s)
    = PhysicsWorld.groundBody :: rest;
  wv_mirror :
    PhysicsWorld.wbodies (PhysicsWorld.world (ExampleScene.physicsWorld s))
    = PhysicsWorld.bodies (ExampleScene.physicsWorld s);
  wv_balls :
    Forall (fun b => Ball.bodyId (Ball.body b) <> PhysicsWorld.groundBody)
           (ExampleScene.balls s)
}.

(** The scene after the hits [l] of a game that started when
    showWinScreen had been called [base] times. *)
Record game_inv (base : nat) (l : list nat) (s : ExampleScene.t) : Prop := {
  gi_len : length (ExampleScene.seagulls s) = ExampleScene.NUM_SEAGULLS;
  gi_gulls : forall k gl,
    ExampleScene.seagulls s !! k = Some gl ->
    Seagull.isHit gl = existsb (Nat.eqb k) l
    /\ Seagull.onHitCallback gl = Some ExampleScene.handleSeagullHit;
  gi_remaining :
    ExampleScene.remainingSeagulls (ExampleScene.hud s)
    = (Z.of_nat ExampleScene.NUM_SEAGULLS - Z.of_nat (distinct_hits l))%Z;
  gi_signals :
    ExampleScene.winSignals (ExampleScene.hud s)
    = (base + if Nat.eqb (distinct_hits l) ExampleScene.NUM_SEAGULLS
              then 1 else 0)%nat;
  gi_screen :
    ExampleScene.winScreen (ExampleScene.hud s)
    = Some (Nat.eqb (distinct_hits l) ExampleScene.NUM_SEAGULLS)
}.

(** A rotation: a quaternion of norm 1. *)
Definition unit_quaternion (q : Quaternion.t) : Prop :=
  (Quaternion.x q * Quaternion.x q + Quaternion.y q * Quaternion.y q
   + Quaternion.z q * Quaternion.z q + Quaternion.w q * Quaternion.w q = 1)%R.

(** A ball lying still at the height [h]. *)
Definition resting_ball (h : R) : FirstPersonControls.BallMesh :=
  FirstPersonControls.mkBall 7 (Vector3.mk 0 h 0) (Some Vector3.zero).

(** A camera at eye height looking along -z. *)
Definition demo_camera : FirstPersonControls.Camera :=
  FirstPersonControls.mkCamera (Vector3.mk 0 (25 / 10) 0) Quaternion.identity.

(** What happens to the player between two readings: a frame with the
    pointer locked, or the 250 ms timer of a jump firing. *)
Inductive PlayerEvent :=
| Frame (collidable : nat) (ground : option R) (delta : R)
        (k : FirstPersonControls.Keys)
| TimerFired.

(** The player and the number of jumps started so far. *)
Definition player_event (x : FirstPersonControls.Player * nat)
    (e : PlayerEvent) : FirstPersonControls.Player * nat :=
  match e with
  | Frame c g d k =>
      let '(p, jumped) := FirstPersonControls.jumpStep c g d k (fst x) in
      (p, if jumped then S (snd x) else snd x)
  | TimerFired => (FirstPersonControls.jumpTimer (fst x), snd x)
  end.

Definition timers_fired (es : list PlayerEvent) : nat :=
  length (List.filter (fun e => match e with TimerFired => true | _ => false end)
            es).

(** The demo controls: space and W held down. *)
Definition demo_keys : FirstPersonControls.Keys :=
  FirstPersonControls.onKeyDown FirstPersonControls.KeyW
    (FirstPersonControls.onKeyDown FirstPersonControls.Space
       (FirstPersonControls.mkKeys false false false false false)).

(** The meshes of the controls: two tracked projectiles sharing
    geometry 70 and material 71. *)
Definition demo_shared : FirstPersonControls.Shared :=
  FirstPersonControls.mkShared 70 71.
(** * PhysicsWorld.update *)

Example physics_update_one_second :
  PhysicsWorld.steps (PhysicsWorld.world (PhysicsWorld.update 1 PhysicsWorld.create))
  = [1 # 60; 1 # 60; 1 # 60].
Proof. vm_compute. reflexivity. Qed.

Lemma loop_unfold (p : PhysicsWorld.t) (n : nat) :
  PhysicsWorld.loop p n =
  if PhysicsWorld.loop_test p n
  then PhysicsWorld.loop (PhysicsWorld.loop_body p) (S n)
  else (p, n).
Proof.
  apply (PhysicsWorld.loop_elim
           (fun p n r => r = if PhysicsWorld.loop_test p n
                             then PhysicsWorld.loop (PhysicsWorld.loop_body p) (S n)
                             else (p, n))).
  - intros q m Ht _ _. now rewrite Ht.
  - intros q m Hf _. now rewrite Hf.
Qed.

Lemma loop_spec (p : PhysicsWorld.t) (n : nat) :
  (n <= PhysicsWorld.maxSteps)%nat -> loop_post p n (PhysicsWorld.loop p n).
Proof.
  apply (PhysicsWorld.loop_elim
           (fun p n r => (n <= PhysicsWorld.maxSteps)%nat -> loop_post p n r)).
  - intros q m Ht IH _ Hm.
    unfold PhysicsWorld.loop_test in Ht. apply andb_prop in Ht as [Hacc Hlt].
    apply Nat.ltb_lt in Hlt.
    destruct (IH Hlt) as [Hc Hs Hw Hb Ha He].
    set (r := PhysicsWorld.loop (PhysicsWorld.loop_body q) (S m)) in *.
    split; try assumption.
    + lia.
    + rewrite Hs.
      replace (snd r - m)%nat with (S (snd r - S m)) by lia.
      cbn [repeat]. rewrite repeat_cons, <- app_assoc. reflexivity.
    + rewrite Ha. simpl.
      replace (snd r - m)%nat with (S (snd r - S m)) by lia.
      rewrite Nat2Z.inj_succ. unfold Z.succ. rewrite inject_Z_plus.
      ring.
  - intros q m Hf _ Hm. split; simpl; try reflexivity.
    + lia.
    + now rewrite Nat.sub_diag.
    + rewrite Nat.sub_diag. simpl. ring.
    + intros Hlt. unfold PhysicsWorld.loop_test in Hf.
      apply andb_false_iff in Hf as [Hf | Hf].
      * apply Qnot_le_lt. intros Hle. apply Qle_bool_iff in Hle. congruence.
      * apply Nat.ltb_ge in Hf. lia.
Qed.

(** C4. Whatever the frame time [dt] and the accumulator, one call of
    PhysicsWorld.update performs [k] engine steps with [k <= 3], each of
    them of the fixed size 1/60, and returns: [update] is a total
    function, its loop being defined by recursion on [maxSteps - steps]. *)
Theorem physics_update_at_most_three_steps (dt : Q) (p : PhysicsWorld.t) :
  exists k : nat,
    (k <= 3)%nat /\
    snd (PhysicsWorld.update_counting dt p) = k /\
    PhysicsWorld.steps (PhysicsWorld.world (PhysicsWorld.update dt p)) =
    repeat (1 # 60) k ++ PhysicsWorld.steps (PhysicsWorld.world p).
Proof.
  unfold PhysicsWorld.update, PhysicsWorld.update_counting.
  set (q := PhysicsWorld.mk _ _ _).
  destruct (loop_spec q 0 (Nat.le_0_l _)) as [Hc Hs _ _ _ _].
  exists (snd (PhysicsWorld.loop q 0)). repeat split.
  - apply Hc.
  - rewrite Hs, Nat.sub_0_r. reflexivity.
Qed.

(** C5, as the code has it.  No accumulated time is discarded: after
    update(dt) the accumulator is the old one plus [dt] minus one timestep
    for each of the [k] steps performed.  It is below one timestep
    whenever fewer than 3 steps were performed, and can only stay at or
    above one timestep when the cap of 3 steps stopped the loop. *)
Theorem physics_update_retains_excess (dt : Q) (p : PhysicsWorld.t) :
  let k := snd (PhysicsWorld.update_counting dt p) in
  let a := PhysicsWorld.accumulator (PhysicsWorld.update dt p) in
  (a == PhysicsWorld.accumulator p + dt
        - inject_Z (Z.of_nat k) * PhysicsWorld.timeStep)%Q
  /\ ((k < 3)%nat -> (a < PhysicsWorld.timeStep)%Q)
  /\ ((PhysicsWorld.timeStep <= a)%Q -> k = 3%nat).
Proof.
  unfold PhysicsWorld.update, PhysicsWorld.update_counting.
  set (q := PhysicsWorld.mk _ _ _).
  destruct (loop_spec q 0 (Nat.le_0_l _)) as [Hc _ _ _ Ha He].
  cbv zeta. split; [| split].
  - rewrite Ha, Nat.sub_0_r. reflexivity.
  - exact He.
  - intros Hle.
    destruct (Nat.eq_dec (snd (PhysicsWorld.loop q 0)) 3) as [E | E]; [exact E |].
    exfalso. apply (Qlt_not_le _ _ (He ltac:(unfold PhysicsWorld.maxSteps in *; lia))).
    exact Hle.
Qed.

(** C5, counterexample.  A fresh world updated with a frame of one second
    performs its 3 steps and keeps 57/60 s in the accumulator, far more
    than one timestep: the excess is neither discarded nor reduced to a
    remainder below 1/60 s. *)
Lemma physics_update_excess_not_discarded :
  snd (PhysicsWorld.update_counting 1 PhysicsWorld.create) = 3%nat /\
  (PhysicsWorld.accumulator (PhysicsWorld.update 1 PhysicsWorld.create)
   == 57 # 60)%Q /\
  ~ (PhysicsWorld.accumulator (PhysicsWorld.update 1 PhysicsWorld.create)
     < PhysicsWorld.timeStep)%Q.
Proof.
  split; [| split].
  - vm_compute. reflexivity.
  - vm_compute. reflexivity.
  - vm_compute. discriminate.
Qed.

(** * Ball *)

Lemma ball_update_disposed (now : Z) (b : Ball.t) :
  Ball.disposed b = true -> Ball.update now b = (false, b).
Proof. intros H. unfold Ball.update. now rewrite H. Qed.

Lemma ball_dispose_disposed (b : Ball.t) (st : Stage) :
  Ball.disposed b = true -> Ball.dispose b st = (b, st).
Proof. intros H. unfold Ball.dispose. now rewrite H. Qed.

Lemma ball_dispose_sets_flag (b : Ball.t) (st : Stage) :
  Ball.disposed (fst (Ball.dispose b st)) = true.
Proof.
  unfold Ball.dispose. destruct (Ball.disposed b) eqn:E; [exact E | reflexivity].
Qed.

(** C10. After dispose(), update() returns false and changes nothing,
    whatever Date.now() reads (also within the 5000 ms lifetime), a second
    dispose() changes nothing, and so does any further sequence of
    update() and dispose() calls. *)
Theorem ball_inert_after_dispose (b : Ball.t) (st : Stage) :
  let b' := fst (Ball.dispose b st) in
  let st' := snd (Ball.dispose b st) in
  Ball.disposed b' = true
  /\ (forall now, Ball.update now b' = (false, b'))
  /\ Ball.update (Ball.creationTime b') b' = (false, b')
  /\ Ball.dispose b' st' = (b', st')
  /\ (forall calls, fold_left ball_call calls (b', st') = (b', st')).
Proof.
  cbv zeta.
  pose proof (ball_dispose_sets_flag b st) as Hd.
  set (b' := fst (Ball.dispose b st)) in *.
  set (st' := snd (Ball.dispose b st)).
  repeat split.
  - exact Hd.
  - intros now. now apply ball_update_disposed.
  - now apply ball_update_disposed.
  - now apply ball_dispose_disposed.
  - intros calls. induction calls as [| c calls IH]; [reflexivity |].
    cbn [fold_left]. replace (ball_call (b', st') c) with (b', st'); [exact IH |].
    destruct c as [now |]; unfold ball_call; cbn [fst snd].
    + now rewrite ball_update_disposed.
    + now rewrite ball_dispose_disposed.
Qed.

Example ball_alive_before_5000 :
  fst (Ball.update 4999 demo_ball) = true
  /\ fst (Ball.update 5000 demo_ball) = false.
Proof. split; reflexivity. Qed.

(** * The balls of ExampleScene.update *)

Section RemoveFirst.
Implicit Types (x y : ObjId) (l : list ObjId).

(** World.addBody with a body that the engine does not hold yet. *)
Lemma World_addBody_fresh (b : ObjId) (w : PhysicsWorld.World) :
  b ∉ PhysicsWorld.wbodies w ->
  PhysicsWorld.World_addBody b w
  = PhysicsWorld.mkWorld (PhysicsWorld.steps w)
      (PhysicsWorld.wbodies w ++ [b]).
Proof.
  intros Hb. unfold PhysicsWorld.World_addBody.
  destruct (existsb (Nat.eqb b) (PhysicsWorld.wbodies w)) eqn:E;
    [| reflexivity].
  apply existsb_exists in E as (x & Hx & Hbx).
  apply Nat.eqb_eq in Hbx. subst x.
  exfalso. apply Hb. now apply list_elem_of_In.
Qed.

Lemma remove_first_elem x y l :
  y ∈ PhysicsWorld.remove_first x l -> y ∈ l.
Proof.
  induction l as [| a l IH]; simpl; [easy |].
  destruct (Nat.eqb a x); intros H.
  - now apply elem_of_cons; right.
  - apply elem_of_cons in H as [-> | H]; apply elem_of_cons; auto.
Qed.

Lemma remove_first_NoDup x l :
  NoDup l -> NoDup (PhysicsWorld.remove_first x l).
Proof.
  induction 1 as [| a l Ha Hl IH]; simpl; [constructor |].
  destruct (Nat.eqb a x); [assumption |].
  constructor; [| assumption].
  intros H. apply Ha. eapply remove_first_elem, H.
Qed.

Lemma remove_first_gone x l :
  NoDup l -> x ∉ PhysicsWorld.remove_first x l.
Proof.
  induction 1 as [| a l Ha Hl IH]; simpl; [apply not_elem_of_nil |].
  destruct (Nat.eqb a x) eqn:E.
  - apply Nat.eqb_eq in E. now subst a.
  - apply Nat.eqb_neq in E. intros H.
    apply elem_of_cons in H as [H | H]; [congruence | now apply IH].
Qed.
End RemoveFirst.

Lemma Object3D_remove_gone (p c : ObjId) (st : Stage) :
  parentOf c (Object3D_remove p c st) <> Some p.
Proof.
  unfold Object3D_remove, parentOf.
  destruct (graph st !! c) as [q |] eqn:E.
  - destruct (Nat.eqb q p) eqn:Eq; simpl.
    + rewrite lookup_delete_eq. discriminate.
    + apply Nat.eqb_neq in Eq. congruence.
  - congruence.
Qed.

Lemma Object3D_remove_shrinks (p c c' q : ObjId) (st : Stage) :
  parentOf c' (Object3D_remove p c st) = Some q -> parentOf c' st = Some q.
Proof.
  unfold Object3D_remove, parentOf.
  destruct (graph st !! c) as [q' |]; [| easy].
  destruct (Nat.eqb q' p); [| easy]. simpl.
  intros H. now apply lookup_delete_Some in H as [_ H].
Qed.

Lemma Object3D_remove_log (p c : ObjId) (st : Stage) :
  disposeLog (Object3D_remove p c st) = disposeLog st.
Proof.
  unfold Object3D_remove.
  destruct (graph st !! c) as [q |]; [| reflexivity].
  now destruct (Nat.eqb q p).
Qed.

Lemma dispose_materials_graph (m : MaterialSlot) (st : Stage) :
  graph (dispose_materials m st) = graph st.
Proof.
  destruct m as [r | rs]; simpl; [reflexivity |].
  revert st. induction rs as [| r rs IH]; intros st; simpl; [reflexivity |].
  now rewrite IH.
Qed.

Lemma releases_gpu_dispose (r r' : ObjId) (st : Stage) :
  releases r (gpu_dispose r' st) =
  (count_occ Nat.eq_dec [r'] r + releases r st)%nat.
Proof.
  unfold releases, gpu_dispose. simpl.
  destruct (Nat.eq_dec r' r); reflexivity.
Qed.

Lemma releases_dispose_materials (r : ObjId) (m : MaterialSlot) (st : Stage) :
  releases r (dispose_materials m st) =
  (count_occ Nat.eq_dec
     (match m with Single x => [x] | Many xs => xs end) r
   + releases r st)%nat.
Proof.
  destruct m as [x | xs]; simpl dispose_materials.
  - apply releases_gpu_dispose.
  - revert st. induction xs as [| x xs IH]; intros st; [reflexivity |].
    cbn [fold_left]. rewrite IH, releases_gpu_dispose. simpl.
    destruct (Nat.eq_dec x r); lia.
Qed.

Lemma ball_dispose_graph (b : Ball.t) (st : Stage) :
  graph (snd (Ball.dispose b st)) = graph st.
Proof.
  unfold Ball.dispose. destruct (Ball.disposed b); [reflexivity |].
  simpl. now rewrite dispose_materials_graph.
Qed.

Lemma ball_dispose_releases (r : ObjId) (b : Ball.t) (st : Stage) :
  Ball.disposed b = false ->
  releases r (snd (Ball.dispose b st)) = (owned r b + releases r st)%nat.
Proof.
  intros Hd. unfold Ball.dispose. rewrite Hd. cbn [snd].
  rewrite releases_dispose_materials, releases_gpu_dispose.
  unfold owned, ball_resources. simpl.
  destruct (Nat.eq_dec (Ball.geometry (Ball.mesh b)) r); lia.
Qed.

(** update() changes the transform of the mesh only. *)
Lemma ball_update_keeps (now : Z) (b : Ball.t) :
  let b' := snd (Ball.update now b) in
  Ball.meshId (Ball.mesh b') = Ball.meshId (Ball.mesh b)
  /\ ball_resources b' = ball_resources b
  /\ Ball.body b' = Ball.body b
  /\ Ball.creationTime b' = Ball.creationTime b
  /\ Ball.disposed b' = Ball.disposed b.
Proof.
  unfold Ball.update. destruct (Ball.disposed b) eqn:E; simpl; repeat split.
  now rewrite E.
Qed.

Lemma owned_update (r : ObjId) (now : Z) (b : Ball.t) :
  owned r (snd (Ball.update now b)) = owned r b.
Proof.
  unfold owned. now destruct (ball_update_keeps now b) as (_ & -> & _).
Qed.

Lemma owners_insert (r : ObjId) (l : list Ball.t) (i : nat) (b b' : Ball.t) :
  l !! i = Some b -> owned r b' = owned r b ->
  owners r (<[i := b']> l) = owners r l.
Proof.
  unfold owners. revert i.
  induction l as [| a l IH]; intros [| i] Hl Ho; simpl in *; try discriminate.
  - injection Hl as ->. now rewrite Ho.
  - f_equal. now apply IH.
Qed.

Lemma owners_delete (r : ObjId) (l : list Ball.t) (i : nat) (b : Ball.t) :
  l !! i = Some b ->
  (owners r (delete i l) + owned r b)%nat = owners r l.
Proof.
  unfold owners. revert i.
  induction l as [| a l IH]; intros [| i] Hl; simpl in *; try discriminate.
  - injection Hl as ->. lia.
  - rewrite <- (IH i Hl). lia.
Qed.

Lemma owned_le_owners (r : ObjId) (l : list Ball.t) (i : nat) (b : Ball.t) :
  l !! i = Some b -> (owned r b <= owners r l)%nat.
Proof.
  intros Hl. rewrite <- (owners_delete r l i b Hl). lia.
Qed.

Lemma delete_insert_same {A : Type} (l : list A) (i : nat) (x : A) :
  delete i (<[i := x]> l) = delete i l.
Proof.
  revert i. induction l as [| a l IH]; intros [| i]; simpl; try reflexivity.
  f_equal. apply IH.
Qed.

Lemma tally_ext (sel : nat -> Ball.t -> bool) (r : ObjId)
    (l l' : list Ball.t) (n : nat) :
  (forall j, (j < n)%nat -> l' !! j = l !! j) ->
  tally sel r l' n = tally sel r l n.
Proof.
  induction n as [| i IH]; intros H; simpl; [reflexivity |].
  rewrite (H i) by lia. rewrite IH; [reflexivity |].
  intros j Hj. apply H. lia.
Qed.

Lemma dead_in_ext (now : nat -> Z) (r : ObjId) (l l' : list Ball.t) (n : nat) :
  (forall j, (j < n)%nat -> l' !! j = l !! j) ->
  dead_in now r l' n = dead_in now r l n.
Proof. apply tally_ext. Qed.

Lemma dead_in_S (now : nat -> Z) (r : ObjId) (l : list Ball.t) (i : nat) :
  dead_in now r l (S i) =
  (match l !! i with
   | Some b => if reports_dead (now i) b then owned r b else 0
   | None => 0
   end + dead_in now r l i)%nat.
Proof. reflexivity. Qed.

(** A selected ball among the first [n] is counted. *)
Lemma tally_ge (sel : nat -> Ball.t -> bool) (r : ObjId) (l : list Ball.t)
    (n j : nat) (b : Ball.t) :
  (j < n)%nat -> l !! j = Some b -> sel j b = true ->
  (owned r b <= tally sel r l n)%nat.
Proof.
  induction n as [| i IH]; intros Hj Hb Hs; [lia |].
  simpl. destruct (Nat.eq_dec j i) as [-> | Hne].
  - rewrite Hb, Hs. lia.
  - specialize (IH ltac:(lia) Hb Hs). lia.
Qed.

(** Selected and unselected balls together are at most all owners. *)
Lemma tally_split (sel : nat -> Ball.t -> bool) (r : ObjId) (l : list Ball.t)
    (n : nat) :
  (tally sel r l n + tally (fun i b => negb (sel i b)) r l n
   <= owners r l)%nat.
Proof.
  assert (H : (tally sel r l n + tally (fun i b => negb (sel i b)) r l n
               = owners r (take n l))%nat).
  { induction n as [| i IH]; [reflexivity |].
    simpl tally. destruct (l !! i) as [b |] eqn:Hb.
    - rewrite (take_S_r l i b Hb). unfold owners in *.
      rewrite map_app, list_sum_app. simpl.
      destruct (sel i b); simpl; lia.
    - rewrite take_ge in IH by (apply lookup_ge_None; exact Hb).
      rewrite take_ge by (apply lookup_ge_None in Hb; lia). lia. }
  rewrite H. rewrite <- (take_drop n l) at 2. unfold owners.
  rewrite map_app, list_sum_app. lia.
Qed.


Lemma removeDead_eq (i : nat) (b : Ball.t) (s : ExampleScene.t) :
  ExampleScene.removeDead i b s =
  ExampleScene.mk (ExampleScene.sceneId s)
    (snd (Ball.dispose b
            (Object3D_remove (ExampleScene.sceneId s)
               (Ball.meshId (Ball.mesh b)) (ExampleScene.stage s))))
    (ExampleScene.hud s) (ExampleScene.seagulls s)
    (PhysicsWorld.removeBody (Ball.bodyId (Ball.body b))
       (ExampleScene.physicsWorld s))
    (delete i (ExampleScene.balls s)) (ExampleScene.rng s)
    (ExampleScene.nextId s).
Proof.
  unfold ExampleScene.removeDead, Ball.getMesh, Ball.getBody.
  now destruct (Ball.dispose _ _).
Qed.

(** The two ways a turn of the loop can go for the ball [b] at index [i]. *)
Lemma loop_turn_cases (now : Z) (i : nat) (s : ExampleScene.t) (b : Ball.t) :
  ExampleScene.balls s !! i = Some b ->
  let b1 := snd (Ball.update now b) in
  let s1 := ExampleScene.set_balls (<[i := b1]> (ExampleScene.balls s)) s in
  (reports_dead now b = false /\ ExampleScene.loop_turn now i s = s1)
  \/ (reports_dead now b = true
      /\ ExampleScene.loop_turn now i s = ExampleScene.removeDead i b1 s1).
Proof.
  intros Hb. unfold ExampleScene.loop_turn, reports_dead. rewrite Hb.
  destruct (Ball.update now b) as [[|] b1]; simpl; [left | right]; easy.
Qed.

Lemma loop_turn_post (now : Z) (i : nat) (s : ExampleScene.t) :
  turn_post now i s (ExampleScene.loop_turn now i s).
Proof.
  destruct (ExampleScene.balls s !! i) as [b |] eqn:Hb.
  2:{ unfold ExampleScene.loop_turn. rewrite Hb.
      split; auto; try easy; intros r; try rewrite Hb; try (intros; reflexivity);
        try lia; discriminate. }
  destruct (ball_update_keeps now b) as (Hm & Hr & Hbd & _ & Hd).
  destruct (loop_turn_cases now i s b Hb) as [[Hdead ->] | [Hdead ->]];
    [| rewrite removeDead_eq]; cbn [ExampleScene.set_balls
      ExampleScene.sceneId ExampleScene.stage ExampleScene.balls
      ExampleScene.physicsWorld ExampleScene.hud ExampleScene.seagulls
      ExampleScene.rng ExampleScene.nextId].
  - split; cbn [ExampleScene.set_balls ExampleScene.sceneId
                ExampleScene.stage ExampleScene.balls
                ExampleScene.physicsWorld]; try rewrite Hb; try rewrite Hdead.
    + reflexivity.
    + auto.
    + intros j Hj. apply list_lookup_insert_ne. lia.
    + intros Hl. apply Forall_insert; [assumption |].
      rewrite Hd. eapply Forall_lookup_1 in Hl; [exact Hl | exact Hb].
    + auto.
    + auto.
    + auto.
    + auto.
    + reflexivity.
    + intros r. rewrite (owners_insert r _ i b); [lia | assumption |].
      apply owned_update.
    + intros b0 Hb0 Hdead0. congruence.
  - split; cbn [ExampleScene.sceneId ExampleScene.stage ExampleScene.balls
                ExampleScene.physicsWorld PhysicsWorld.removeBody
                PhysicsWorld.bodies PhysicsWorld.world
                PhysicsWorld.World_removeBody PhysicsWorld.wbodies];
      try rewrite Hb; try rewrite Hdead.
    + reflexivity.
    + intros c q. unfold parentOf at 1. rewrite ball_dispose_graph.
      apply Object3D_remove_shrinks.
    + intros j Hj. rewrite delete_insert_same.
      apply list_lookup_delete_lt. exact Hj.
    + intros Hl. rewrite delete_insert_same. now apply Forall_delete.
    + intros x. apply remove_first_elem.
    + intros x. apply remove_first_elem.
    + apply remove_first_NoDup.
    + apply remove_first_NoDup.
    + intros r Hl. rewrite ball_dispose_releases.
      * rewrite owned_update. unfold releases.
        rewrite Object3D_remove_log. reflexivity.
      * rewrite Hd. eapply Forall_lookup_1 in Hl; [exact Hl | exact Hb].
    + intros r. rewrite delete_insert_same. apply owners_delete. exact Hb.
    + intros b0 Hb0 _. replace b0 with b by congruence.
      rewrite Hm, Hbd. split; [| split].
      * unfold parentOf. rewrite ball_dispose_graph.
        apply Object3D_remove_gone.
      * apply remove_first_gone.
      * apply remove_first_gone.
Qed.

Lemma balls_loop_post (now : nat -> Z) (n : nat) (s : ExampleScene.t) :
  sweep_post now n s (ExampleScene.balls_loop now n s).
Proof.
  revert s. induction n as [| i IH]; intros s.
  - split; cbn [ExampleScene.balls_loop]; auto; try (intros; reflexivity);
      try lia.
  - cbn [ExampleScene.balls_loop].
    pose proof (loop_turn_post (now i) i s) as T.
    set (s2 := ExampleScene.loop_turn (now i) i s) in *.
    specialize (IH s2). set (s' := ExampleScene.balls_loop now i s2) in *.
    destruct T as [T1 T2 T3 T4 T5 T6 T7 T8 T9 T10 T11].
    destruct IH as [I1 I2 I3 I4 I5 I6 I7 I8 I9 I10].
    assert (Hext : forall r, dead_in now r (ExampleScene.balls s2) i
                             = dead_in now r (ExampleScene.balls s) i)
      by (intros r; apply dead_in_ext, T3).
    split.
    + congruence.
    + auto.
    + auto.
    + auto.
    + auto.
    + auto.
    + auto.
    + intros r Hl. rewrite (I8 r (T4 Hl)), (T9 r Hl), Hext, dead_in_S. lia.
    + intros r. specialize (I9 r). specialize (T10 r). rewrite Hext in I9.
      rewrite dead_in_S. lia.
    + intros j b Hj Hb Hdead.
      destruct (Nat.eq_dec j i) as [-> | Hne].
      * destruct (T11 b Hb Hdead) as (D1 & D2 & D3). split; [| split].
        -- intros H. apply D1. now apply I2.
        -- intros Hn H. apply (D2 Hn). now apply I4.
        -- intros Hn H. apply (D3 Hn). now apply I5.
      * assert (Hj' : (j < i)%nat) by lia.
        rewrite <- (T3 j Hj') in Hb.
        destruct (I10 j b Hj' Hb Hdead) as (D1 & D2 & D3).
        rewrite T1 in D1. split; [exact D1 | split]; auto.
Qed.

Lemma physics_update_bodies (dt : Q) (p : PhysicsWorld.t) :
  PhysicsWorld.bodies (PhysicsWorld.update dt p) = PhysicsWorld.bodies p
  /\ PhysicsWorld.wbodies (PhysicsWorld.world (PhysicsWorld.update dt p))
     = PhysicsWorld.wbodies (PhysicsWorld.world p).
Proof.
  unfold PhysicsWorld.update, PhysicsWorld.update_counting.
  set (q := PhysicsWorld.mk _ _ _).
  destruct (loop_spec q 0 (Nat.le_0_l _)) as [_ _ Hw Hb _ _].
  now rewrite Hw, Hb.
Qed.

Lemma owned_pos (r : ObjId) (b : Ball.t) :
  r ∈ ball_resources b -> (1 <= owned r b)%nat.
Proof.
  intros H. apply list_elem_of_In in H.
  apply (count_occ_In Nat.eq_dec) in H. unfold owned. lia.
Qed.

(** * Seagull: the hit transition *)

Lemma seagull_dispose_graph {Env : Type} (s : Seagull.t Env) (st : Stage) :
  graph (snd (Seagull.dispose s st)) = graph st.
Proof.
  unfold Seagull.dispose. cbn [snd].
  destruct (Seagull.model s) as [m |]; [| reflexivity].
  generalize (Seagull.meshes m). intros l. revert st.
  induction l as [| r l IH]; intros st; [reflexivity |].
  cbn [fold_left]. rewrite IH. unfold Seagull.dispose_mesh.
  now rewrite dispose_materials_graph.
Qed.

Lemma seagull_dispose_releases {Env : Type} (s : Seagull.t Env) (st : Stage)
    (m : Seagull.Group) (r : ObjId) :
  Seagull.model s = Some m ->
  releases r (snd (Seagull.dispose s st)) =
  (count_occ Nat.eq_dec (group_resources m) r + releases r st)%nat.
Proof.
  intros Hm. unfold Seagull.dispose, group_resources. cbn [snd]. rewrite Hm.
  generalize (Seagull.meshes m). intros l. revert st.
  induction l as [| x l IH]; intros st; [reflexivity |].
  cbn [fold_left flat_map]. rewrite IH. unfold Seagull.dispose_mesh.
  rewrite releases_dispose_materials, releases_gpu_dispose.
  rewrite count_occ_app. simpl.
  destruct (Nat.eq_dec (Seagull.geometry x) r); lia.
Qed.

Lemma seagull_dispose_fields {Env : Type} (s : Seagull.t Env) (st : Stage) :
  let s' := fst (Seagull.dispose s st) in
  Seagull.model s' = Seagull.model s
  /\ Seagull.isHit s' = Seagull.isHit s
  /\ Seagull.modelLoaded s' = Seagull.modelLoaded s
  /\ Seagull.progress s' = Seagull.progress s
  /\ Seagull.speed s' = Seagull.speed s
  /\ Seagull.path s' = Seagull.path s.
Proof. cbv zeta. unfold Seagull.dispose. cbn. repeat split. Qed.

(** The three components of a first hit(). *)
Lemma seagull_first_hit {Env : Type} (s : Seagull.t Env) (st : Stage)
    (env : Env) :
  Seagull.isHit s = false ->
  let s1 := Seagull.mk (Seagull.model s) (Seagull.mixer s) (Seagull.path s)
              (Seagull.progress s) (Seagull.speed s) (Seagull.bounds s)
              (Seagull.modelLoaded s) true (Seagull.onHitCallback s) in
  let st1 := match Seagull.model s with
             | Some m =>
                 match parentOf (Seagull.gid m) st with
                 | Some p => Object3D_remove p (Seagull.gid m) st
                 | None => st
                 end
             | None => st
             end in
  Seagull.hit s st env =
  (fst (Seagull.dispose s1 st1), snd (Seagull.dispose s1 st1),
   match Seagull.onHitCallback s with Some cb => cb env | None => env end).
Proof.
  intros H. unfold Seagull.hit. rewrite H. cbn [Seagull.model
    Seagull.onHitCallback]. now destruct (Seagull.dispose _ _).
Qed.

Lemma seagull_hit_sets_flag {Env : Type} (s : Seagull.t Env) (st : Stage)
    (env : Env) :
  Seagull.isHit (fst (fst (Seagull.hit s st env))) = true.
Proof.
  destruct (Seagull.isHit s) eqn:E.
  - unfold Seagull.hit. now rewrite E.
  - rewrite (seagull_first_hit s st env E). cbn [fst].
    now destruct (seagull_dispose_fields
                    (Seagull.mk (Seagull.model s) (Seagull.mixer s)
                       (Seagull.path s) (Seagull.progress s) (Seagull.speed s)
                       (Seagull.bounds s) (Seagull.modelLoaded s) true
                       (Seagull.onHitCallback s))
                    (match Seagull.model s with
                     | Some m =>
                         match parentOf (Seagull.gid m) st with
                         | Some p => Object3D_remove p (Seagull.gid m) st
                         | None => st
                         end
                     | None => st
                     end)) as (_ & -> & _).
Qed.

Lemma detach_gone (c : ObjId) (st : Stage) :
  parentOf c (match parentOf c st with
              | Some p => Object3D_remove p c st
              | None => st
              end) = None.
Proof.
  destruct (parentOf c st) as [p |] eqn:E; [| exact E].
  unfold Object3D_remove. unfold parentOf in E. rewrite E, Nat.eqb_refl.
  unfold parentOf. simpl. apply lookup_delete_eq.
Qed.

Lemma detach_log (c : ObjId) (st : Stage) :
  disposeLog (match parentOf c st with
              | Some p => Object3D_remove p c st
              | None => st
              end) = disposeLog st.
Proof.
  destruct (parentOf c st); [apply Object3D_remove_log | reflexivity].
Qed.

(** What a first hit() does to the callback's environment and to the
    stage. *)
Lemma seagull_first_hit_effects {Env : Type} (s : Seagull.t Env) (st : Stage)
    (env : Env) :
  Seagull.isHit s = false ->
  snd (Seagull.hit s st env)
  = match Seagull.onHitCallback s with Some cb => cb env | None => env end
  /\ forall m, Seagull.model s = Some m ->
       parentOf (Seagull.gid m) (snd (fst (Seagull.hit s st env))) = None
       /\ forall r, releases r (snd (fst (Seagull.hit s st env))) =
            (count_occ Nat.eq_dec (group_resources m) r + releases r st)%nat.
Proof.
  intros H. rewrite (seagull_first_hit s st env H). cbn [fst snd].
  split; [reflexivity |]. intros m Hm. rewrite Hm. split.
  - unfold parentOf at 1. rewrite seagull_dispose_graph. apply detach_gone.
  - intros r. rewrite (seagull_dispose_releases _ _ m r) by reflexivity.
    unfold releases at 1. now rewrite detach_log.
Qed.

(** C1. Whatever the seagull, the stage and the callback: after one
    hit() the seagull is hit, and any number of further hit() calls
    changes nothing at all (neither the seagull, nor the scene graph and
    release log, nor what the callback acts on).  When the seagull was
    not hit before, that one hit() applied the callback exactly once,
    left the model without parent and released the model's resources
    once; when it was, hit() itself changed nothing. *)
Theorem seagull_hit_at_most_once {Env : Type} (s : Seagull.t Env)
    (st : Stage) (env : Env) :
  let r1 := Seagull.hit s st env in
  Seagull.isHit (fst (fst r1)) = true
  /\ (forall k, Nat.iter k hit_again r1 = r1)
  /\ (Seagull.isHit s = true -> r1 = (s, st, env))
  /\ (Seagull.isHit s = false ->
      snd r1 = match Seagull.onHitCallback s with
               | Some cb => cb env
               | None => env
               end
      /\ forall m, Seagull.model s = Some m ->
           parentOf (Seagull.gid m) (snd (fst r1)) = None
           /\ forall r, releases r (snd (fst r1)) =
                (count_occ Nat.eq_dec (group_resources m) r
                 + releases r st)%nat).
Proof.
  cbv zeta. pose proof (seagull_hit_sets_flag s st env) as Hflag.
  split; [exact Hflag | split; [| split]].
  - assert (Hagain : hit_again (Seagull.hit s st env) = Seagull.hit s st env).
    { unfold hit_again. destruct (Seagull.hit s st env) as [[s1 st1] env1].
      cbn [fst snd] in *. unfold Seagull.hit. now rewrite Hflag. }
    induction k as [| k IH]; [reflexivity |].
    rewrite Nat.iter_succ, IH. exact Hagain.
  - intros H. unfold Seagull.hit. now rewrite H.
  - apply seagull_first_hit_effects.
Qed.

(** The demo seagull, attached to the scene: one hit or four hits notify
    once, detach once and release the body geometry (object 2) once. *)
Lemma seagull_hit_at_most_once_witness :
  Nat.iter 3 hit_again (Seagull.hit demo_gull demo_stage 0%nat)
  = Seagull.hit demo_gull demo_stage 0%nat
  /\ snd (Seagull.hit demo_gull demo_stage 0%nat) = 1%nat
  /\ parentOf 1 (snd (fst (Seagull.hit demo_gull demo_stage 0%nat))) = None
  /\ releases 2 (snd (fst (Seagull.hit demo_gull demo_stage 0%nat))) = 1%nat.
Proof.
  destruct (seagull_hit_at_most_once demo_gull demo_stage 0%nat)
    as (_ & Hk & _ & H).
  destruct (H eq_refl) as [Henv Hm].
  destruct (Hm (Seagull.fallbackModel 1) eq_refl) as [Hp Hr].
  split; [apply Hk | split; [exact Henv | split; [exact Hp |]]].
  rewrite Hr. reflexivity.
Defined.

(** * Seagull: update() *)

Lemma seagull_update_keeps gp {Env : Type} (d : R) (s : Seagull.t Env) :
  let s' := Seagull.update gp d s in
  Seagull.isHit s' = Seagull.isHit s
  /\ option_map Seagull.gid (Seagull.model s')
     = option_map Seagull.gid (Seagull.model s)
  /\ option_map Seagull.meshes (Seagull.model s')
     = option_map Seagull.meshes (Seagull.model s)
  /\ Seagull.path s' = Seagull.path s
  /\ Seagull.speed s' = Seagull.speed s
  /\ Seagull.bounds s' = Seagull.bounds s
  /\ Seagull.modelLoaded s' = Seagull.modelLoaded s
  /\ Seagull.onHitCallback s' = Seagull.onHitCallback s.
Proof.
  cbv zeta. unfold Seagull.update.
  destruct (Seagull.model s) as [m |] eqn:Em; [| now rewrite Em].
  destruct (Seagull.modelLoaded s) eqn:El; cbn [negb];
    [| now rewrite Em, El].
  cbn. unfold Seagull.orient.
  destruct (Rlt_dec _ _); cbn; repeat split.
Qed.

Lemma seagull_update_moves gp {Env : Type} (d : R) (s : Seagull.t Env)
    (m : Seagull.Group) :
  Seagull.model s = Some m -> Seagull.modelLoaded s = true ->
  let u := advance (Seagull.progress s) (Seagull.speed s) d in
  Seagull.progress (Seagull.update gp d s) = u
  /\ option_map Seagull.position (Seagull.model (Seagull.update gp d s))
     = Some (gp (Seagull.path s) u).
Proof.
  intros Hm Hl. cbv zeta. unfold Seagull.update, advance.
  rewrite Hm, Hl. cbn. unfold Seagull.orient.
  destruct (Rlt_dec (1 / 1000) _); cbn; split; reflexivity.
Qed.

(** C2, as the code has it.  After the first hit() the model has no
    parent: the visual is absent from the scene.  update() takes neither
    the scene graph nor the release log nor the callback's environment,
    so it cannot re-attach or release anything; any sequence of update()
    calls keeps the hit flag, the model's identity and meshes, the path
    and the speed.  But update() is not a no-op: while the model is
    loaded each call still advances the path progress and moves the
    detached model to the new sample. *)
Theorem seagull_update_after_hit gp {Env : Type} (s : Seagull.t Env)
    (st : Stage) (env : Env) :
  Seagull.isHit s = false ->
  let s1 := fst (fst (Seagull.hit s st env)) in
  let st1 := snd (fst (Seagull.hit s st env)) in
  (forall m, Seagull.model s1 = Some m ->
             parentOf (Seagull.gid m) st1 = None)
  /\ (forall deltas,
        let s2 := fold_left (fun a d => Seagull.update gp d a) deltas s1 in
        Seagull.isHit s2 = true
        /\ option_map Seagull.gid (Seagull.model s2)
           = option_map Seagull.gid (Seagull.model s1)
        /\ option_map Seagull.meshes (Seagull.model s2)
           = option_map Seagull.meshes (Seagull.model s1)
        /\ Seagull.path s2 = Seagull.path s1
        /\ Seagull.speed s2 = Seagull.speed s1)
  /\ (forall d m,
        Seagull.model s1 = Some m -> Seagull.modelLoaded s1 = true ->
        let u := advance (Seagull.progress s1) (Seagull.speed s1) d in
        Seagull.progress (Seagull.update gp d s1) = u
        /\ option_map Seagull.position
             (Seagull.model (Seagull.update gp d s1))
           = Some (gp (Seagull.path s1) u)).
Proof.
  intros H. cbv zeta.
  pose proof (seagull_hit_sets_flag s st env) as Hflag.
  destruct (seagull_first_hit_effects s st env H) as [_ Hm].
  assert (Hmodel : Seagull.model (fst (fst (Seagull.hit s st env)))
                   = Seagull.model s).
  { rewrite (seagull_first_hit s st env H). cbn [fst].
    now destruct (seagull_dispose_fields
                    (Seagull.mk (Seagull.model s) (Seagull.mixer s)
                       (Seagull.path s) (Seagull.progress s) (Seagull.speed s)
                       (Seagull.bounds s) (Seagull.modelLoaded s) true
                       (Seagull.onHitCallback s))
                    (match Seagull.model s with
                     | Some m =>
                         match parentOf (Seagull.gid m) st with
                         | Some p => Object3D_remove p (Seagull.gid m) st
                         | None => st
                         end
                     | None => st
                     end)) as (-> & _). }
  split; [| split].
  - intros m Em. rewrite Hmodel in Em. now destruct (Hm m Em).
  - intros deltas. revert Hflag.
    generalize (fst (fst (Seagull.hit s st env))). clear.
    induction deltas as [| d deltas IH]; intros s1 Hflag.
    + cbn. repeat split. exact Hflag.
    + cbn [fold_left].
      destruct (seagull_update_keeps gp d s1) as (K1 & K2 & K3 & K4 & K5 & _).
      specialize (IH (Seagull.update gp d s1)). rewrite K1 in IH.
      destruct (IH Hflag) as (I1 & I2 & I3 & I4 & I5).
      repeat split; congruence.
  - intros d m Em El. exact (seagull_update_moves gp d _ m Em El).
Qed.

(** The demo seagull, hit while attached to the scene. *)
Lemma seagull_update_after_hit_witness :
  let s1 := fst (fst (Seagull.hit demo_gull demo_stage 0%nat)) in
  parentOf 1 (snd (fst (Seagull.hit demo_gull demo_stage 0%nat))) = None
  /\ Seagull.isHit
       (fold_left (fun a d => Seagull.update origin_sampler d a)
                  [1%R; 2%R] s1) = true
  /\ Seagull.progress (Seagull.update origin_sampler 1 s1)
     = advance (Seagull.progress s1) (Seagull.speed s1) 1.
Proof.
  destruct (seagull_update_after_hit origin_sampler demo_gull demo_stage
              0%nat eq_refl) as (H1 & H2 & H3).
  split; [exact (H1 (Seagull.fallbackModel 1) eq_refl) | split].
  - exact (proj1 (H2 [1%R; 2%R])).
  - exact (proj1 (H3 1%R (Seagull.fallbackModel 1) eq_refl eq_refl)).
Defined.

(** C2, counterexample.  The demo seagull is hit; the next update() with
    a frame of one second moves its path progress from 0 to 0.04: the
    update after the hit is not a no-op. *)
Lemma seagull_update_after_hit_not_noop :
  let s1 := fst (fst (Seagull.hit demo_gull demo_stage 0%nat)) in
  Seagull.isHit s1 = true
  /\ Seagull.progress s1 = 0%R
  /\ Seagull.progress (Seagull.update origin_sampler 1 s1) = (4 / 100)%R
  /\ Seagull.update origin_sampler 1 s1 <> s1.
Proof.
  cbv zeta.
  assert (Hp : Seagull.progress
                 (Seagull.update origin_sampler 1
                    (fst (fst (Seagull.hit demo_gull demo_stage 0%nat))))
               = (4 / 100)%R).
  { destruct (seagull_update_moves origin_sampler 1
                (fst (fst (Seagull.hit demo_gull demo_stage 0%nat)))
                (Seagull.fallbackModel 1) eq_refl eq_refl) as [-> _].
    change (advance 0 (3 / 100 + 1 / 2 * (2 / 100)) 1 = (4 / 100)%R).
    unfold advance. destruct (Rlt_dec _ _); lra. }
  split; [reflexivity | split; [reflexivity | split; [exact Hp |]]].
  intros E. rewrite E in Hp. change (0 = 4 / 100)%R in Hp. lra.
Qed.

(** * Seagull: the orientation guard of update() *)

Section Normalize.
Local Open Scope R_scope.
Implicit Types v : Vector3.t.

Lemma lengthSq_nonneg v : 0 <= Vector3.lengthSq v.
Proof. unfold Vector3.lengthSq. nra. Qed.

Lemma length_zero v : Vector3.lengthSq v = 0 -> Vector3.length v = 0.
Proof. intros H. unfold Vector3.length. rewrite H. apply sqrt_0. Qed.

Lemma length_pos v : Vector3.lengthSq v <> 0 -> 0 < Vector3.length v.
Proof.
  intros H. unfold Vector3.length. apply sqrt_lt_R0.
  pose proof (lengthSq_nonneg v). lra.
Qed.

Lemma length_sqr v :
  Vector3.length v * Vector3.length v = Vector3.lengthSq v.
Proof. unfold Vector3.length. apply sqrt_sqrt, lengthSq_nonneg. Qed.

Lemma lengthSq_scaled v (k : R) :
  Vector3.lengthSq (Vector3.multiplyScalar v k)
  = k * k * Vector3.lengthSq v.
Proof. unfold Vector3.lengthSq, Vector3.multiplyScalar. simpl. ring. Qed.

(** The zero vector stays the zero vector. *)
Lemma normalize_degenerate v :
  Vector3.lengthSq v = 0 -> Vector3.length (Vector3.normalize v) = 0.
Proof.
  intros H. unfold Vector3.normalize.
  destruct (Req_dec_T (Vector3.length v) 0) as [_ | Hn].
  - apply length_zero. unfold Vector3.divideScalar.
    rewrite lengthSq_scaled, H. ring.
  - exfalso. apply Hn. now apply length_zero.
Qed.

(** Any other vector becomes a unit vector. *)
Lemma normalize_unit v :
  Vector3.lengthSq v <> 0 -> Vector3.length (Vector3.normalize v) = 1.
Proof.
  intros H. pose proof (length_pos v H) as Hpos.
  unfold Vector3.normalize.
  destruct (Req_dec_T (Vector3.length v) 0) as [E | _]; [lra |].
  unfold Vector3.length at 1, Vector3.divideScalar.
  rewrite lengthSq_scaled, <- (length_sqr v).
  replace (1 / Vector3.length v * (1 / Vector3.length v)
           * (Vector3.length v * Vector3.length v)) with 1
    by (field; lra).
  apply sqrt_1.
Qed.

Lemma lengthSq_sub_zero (a b : Vector3.t) :
  Vector3.lengthSq (Vector3.sub a b) = 0 <-> a = b.
Proof.
  destruct a as [ax ay az], b as [bx by_ bz].
  unfold Vector3.lengthSq, Vector3.sub. simpl. split.
  - intros H.
    pose proof (Rle_0_sqr (ax - bx)) as Px.
    pose proof (Rle_0_sqr (ay - by_)) as Py.
    pose proof (Rle_0_sqr (az - bz)) as Pz.
    unfold Rsqr in Px, Py, Pz.
    assert (Hx : (ax - bx) * (ax - bx) = 0) by lra.
    assert (Hy : (ay - by_) * (ay - by_) = 0) by lra.
    assert (Hz : (az - bz) * (az - bz) = 0) by lra.
    apply Rmult_integral in Hx, Hy, Hz.
    f_equal; lra.
  - intros E. injection E as -> -> ->. ring.
Qed.
End Normalize.

(** What the guarded block of update() does with two samples. *)
Lemma orient_cases (cur next : Vector3.t) (m : Seagull.Group) :
  let n := Vector3.normalize (Vector3.sub next cur) in
  (next = cur -> Seagull.rotation (Seagull.orient cur next m)
                 = Seagull.rotation m)
  /\ (next <> cur ->
      Vector3.length n = 1%R
      /\ Seagull.rotation (Seagull.orient cur next m)
         = Seagull.mkEuler (Vector3.y n * (5 / 10))
             (Js.Math_atan2 (Vector3.x n) (Vector3.z n))
             (Vector3.x n * - (3 / 10))).
Proof.
  cbv zeta. unfold Seagull.orient. split.
  - intros E. apply lengthSq_sub_zero in E.
    rewrite (normalize_degenerate _ E).
    destruct (Rlt_dec (1 / 1000) 0); [lra | reflexivity].
  - intros Hne.
    assert (Hsq : Vector3.lengthSq (Vector3.sub next cur) <> 0%R)
      by (intros E; now apply lengthSq_sub_zero in E).
    rewrite (normalize_unit _ Hsq). split; [reflexivity |].
    destruct (Rlt_dec (1 / 1000) 1); [reflexivity | lra].
Qed.

(** update() runs that block on the sample at the new progress and on the
    look-ahead sample. *)
Lemma seagull_update_orients gp {Env : Type} (d : R) (s : Seagull.t Env)
    (m : Seagull.Group) :
  Seagull.model s = Some m -> Seagull.modelLoaded s = true ->
  let u := advance (Seagull.progress s) (Seagull.speed s) d in
  Seagull.model (Seagull.update gp d s)
  = Some (Seagull.orient (gp (Seagull.path s) u)
            (gp (Seagull.path s) (Js.rem1 (u + Seagull.lookAheadValue))) m).
Proof.
  intros Hm Hl. cbv zeta. unfold Seagull.update, advance.
  rewrite Hm, Hl. reflexivity.
Qed.

(** A vector of ordinary length is not the zero vector. *)
Lemma ordinary_length_differ (cur next : Vector3.t) :
  ordinary_length (Vector3.length (Vector3.sub next cur)) -> next <> cur.
Proof.
  intros [Hl _] E.
  apply lengthSq_sub_zero in E.
  unfold Vector3.length in Hl. rewrite E, sqrt_0 in Hl.
  assert (0 < / 10 ^ 150)%R.
  { apply Rinv_0_lt_compat, pow_lt. lra. }
  lra.
Qed.

Lemma samples_differ : sample_ahead <> sample_here.
Proof. unfold sample_ahead, sample_here. intros E. injection E as E. lra. Qed.

Lemma samples_apart :
  Vector3.length (Vector3.sub sample_ahead sample_here) = (1 / 2000)%R.
Proof.
  unfold Vector3.length.
  rewrite <- (sqrt_square (1 / 2000)) by lra. f_equal.
  unfold Vector3.lengthSq, Vector3.sub, sample_ahead, sample_here.
  simpl. field.
Qed.

Lemma samples_ordinary :
  ordinary_length (Vector3.length (Vector3.sub sample_ahead sample_here)).
Proof.
  rewrite samples_apart. unfold ordinary_length.
  assert (H4 : (10 ^ 4 <= 10 ^ 150)%R) by (apply Rle_pow; [lra | lia]).
  assert (E4 : (10 ^ 4 = 10000)%R) by (simpl; ring).
  rewrite E4 in H4. set (B := (10 ^ 150)%R) in *. clearbody B.
  split; [| lra].
  apply Rmult_le_reg_r with (r := B); [lra |].
  rewrite Rinv_l by lra. lra.
Qed.

(** C9, as the code has it.  The model is always moved to the current
    sample.  The orientation update is skipped, and the rotation left as
    it was, when the look-ahead sample equals the current one: the
    threshold 0.001 is compared with the length of the normalised
    direction, which is 0 for a zero displacement.  For every
    displacement of ordinary length, between 1e-150 and 1e150 and so
    also below 0.001, the normalised direction has length 1 and pitch,
    yaw and bank are set from it.  Below 1e-150 the doubles of the
    source may round the squared length to 0, which skips the update;
    nothing is said there. *)
Theorem seagull_orientation_guard (cur next : Vector3.t) (m : Seagull.Group) :
  let n := Vector3.normalize (Vector3.sub next cur) in
  Seagull.position (Seagull.orient cur next m) = cur
  /\ (next = cur ->
      Seagull.rotation (Seagull.orient cur next m) = Seagull.rotation m)
  /\ (ordinary_length (Vector3.length (Vector3.sub next cur)) ->
      Vector3.length n = 1%R
      /\ Seagull.rotation (Seagull.orient cur next m)
         = Seagull.mkEuler (Vector3.y n * (5 / 10))
             (Js.Math_atan2 (Vector3.x n) (Vector3.z n))
             (Vector3.x n * - (3 / 10))).
Proof.
  cbv zeta. split.
  - unfold Seagull.orient. now destruct (Rlt_dec _ _).
  - destruct (orient_cases cur next m) as [H0 H1]. split; [exact H0 |].
    intros Hl. apply H1. now apply ordinary_length_differ.
Qed.

Lemma seagull_orientation_guard_witness :
  let n := Vector3.normalize (Vector3.sub sample_ahead sample_here) in
  Seagull.rotation
    (Seagull.orient sample_here sample_here (Seagull.fallbackModel 1))
  = Seagull.rotation (Seagull.fallbackModel 1)
  /\ Seagull.rotation
       (Seagull.orient sample_here sample_ahead (Seagull.fallbackModel 1))
     = Seagull.mkEuler (Vector3.y n * (5 / 10))
         (Js.Math_atan2 (Vector3.x n) (Vector3.z n))
         (Vector3.x n * - (3 / 10)).
Proof.
  split.
  - exact (proj1 (proj2 (seagull_orientation_guard sample_here sample_here
                           (Seagull.fallbackModel 1))) eq_refl).
  - exact (proj2 (proj2 (proj2 (seagull_orientation_guard sample_here
                                  sample_ahead (Seagull.fallbackModel 1)))
                    samples_ordinary)).
Defined.

(** C9, counterexample.  The look-ahead sample lies 0.0005 away from the
    current one, below the threshold 0.001 that the code writes, and the
    orientation update is carried out all the same: the rotation of the
    model changes. *)
Lemma seagull_small_displacement_turns :
  (Vector3.length (Vector3.sub sample_ahead sample_here) < 1 / 1000)%R
  /\ Seagull.rotation
       (Seagull.orient sample_here sample_ahead (Seagull.fallbackModel 1))
     <> Seagull.rotation (Seagull.fallbackModel 1).
Proof.
  split.
  - unfold Vector3.length.
    rewrite <- (sqrt_square (1 / 1000)) by lra.
    apply sqrt_lt_1_alt. split; [apply lengthSq_nonneg |].
    unfold Vector3.lengthSq, Vector3.sub, sample_ahead, sample_here.
    simpl. lra.
  - destruct (orient_cases sample_here sample_ahead (Seagull.fallbackModel 1))
      as [_ H]. destruct (H samples_differ) as [_ ->]. clear H.
    change (Seagull.rotation (Seagull.fallbackModel 1))
      with (Seagull.mkEuler 0 0 0).
    intros E. injection E as _ _ E. revert E.
    unfold Vector3.normalize, Vector3.divideScalar, Vector3.multiplyScalar,
      Vector3.sub, sample_ahead, sample_here. simpl.
    destruct (Req_dec_T _ 0) as [_ | Hn]; [lra |].
    set (L := Vector3.length _) in *.
    pose proof (Rinv_neq_0_compat L Hn) as Hi.
    unfold Rdiv. intros E. apply Hi. lra.
Qed.

(** * Seagull: the flight path *)

Lemma floor_three_draws (r : R) :
  (0 <= r < 1)%R -> (0 <= Js.Math_floor (r * 3) <= 2)%Z.
Proof.
  intros [H0 H1]. unfold Js.Math_floor.
  destruct (base_Int_part (r * 3)) as [Hle Hgt].
  split.
  - assert (H : (-1 < Int_part (r * 3))%Z) by (apply lt_IZR; lra). lia.
  - assert (H : (Int_part (r * 3) < 3)%Z) by (apply lt_IZR; lra). lia.
Qed.

Lemma path_points_length (n : nat) (b : Seagull.Box3) (g : Js.Rng) :
  length (Seagull.path_points n b g) = n.
Proof.
  revert g. induction n as [| n IH]; intros g; [reflexivity |].
  cbn. now rewrite IH.
Qed.

Lemma path_points_band (n : nat) (b : Seagull.Box3) (g : Js.Rng) :
  Js.unit_draws g ->
  (Vector3.x (Seagull.bmin b) <= Vector3.x (Seagull.bmax b))%R ->
  (Vector3.z (Seagull.bmin b) <= Vector3.z (Seagull.bmax b))%R ->
  Forall (in_flight_band b) (Seagull.path_points n b g).
Proof.
  intros Hg Hx Hz. revert g Hg.
  induction n as [| n IH]; intros g Hg; [constructor |].
  cbn. constructor.
  - unfold in_flight_band. cbn.
    pose proof (Hg (Js.cursor g)) as D0.
    pose proof (Hg (S (Js.cursor g))) as D1.
    pose proof (Hg (S (S (Js.cursor g)))) as D2.
    repeat split; nra.
  - apply IH. exact Hg.
Qed.

Lemma createRandomPath_flight (b : Seagull.Box3) (g : Js.Rng) :
  Js.unit_draws g ->
  (Vector3.x (Seagull.bmin b) <= Vector3.x (Seagull.bmax b))%R ->
  (Vector3.z (Seagull.bmin b) <= Vector3.z (Seagull.bmax b))%R ->
  flight_path b (fst (Seagull.createRandomPath b g)).
Proof.
  intros Hg Hx Hz. unfold Seagull.createRandomPath, flight_path. cbn.
  rewrite path_points_length.
  pose proof (floor_three_draws _ (Hg (Js.cursor g))) as Hf.
  split; [lia | split; [reflexivity |]].
  apply path_points_band; assumption.
Qed.

Lemma band_in_box (b : Seagull.Box3) (q : Vector3.t) :
  (Vector3.y (Seagull.bmin b) + 20 <= Vector3.y (Seagull.bmax b))%R ->
  in_flight_band b q -> in_box b q.
Proof. unfold in_flight_band, in_box. intros H (Hx & Hy & Hz). lra. Qed.

(** What createRandomPath does reach.  With Math.random() in [0, 1) and
    a box whose lower corner is not above the upper one in x and z, the
    path that setBounds creates is a closed curve on 5 to 7 control
    points with x and z inside the new box and y between min.y + 5 and
    min.y + 20; the control points are inside the box whenever the box is
    at least 20 high.  The constructor's path is the same for the
    default box, which is 50 high. *)
Lemma createRandomPath_control_points {Env : Type} (cb : option (Env -> Env))
    (s : Seagull.t Env) (lo hi : Vector3.t) (g : Js.Rng) (oid : ObjId) :
  Js.unit_draws g ->
  (Vector3.x lo <= Vector3.x hi)%R -> (Vector3.z lo <= Vector3.z hi)%R ->
  let s' := fst (Seagull.setBounds lo hi s g) in
  let s0 := fst (Seagull.create cb g oid) in
  Seagull.bounds s' = Seagull.mkBox3 lo hi
  /\ flight_path (Seagull.bounds s') (Seagull.path s')
  /\ ((Vector3.y lo + 20 <= Vector3.y hi)%R ->
      Forall (in_box (Seagull.bounds s')) (Seagull.points (Seagull.path s')))
  /\ Seagull.bounds s0 = Seagull.defaultBounds
  /\ flight_path (Seagull.bounds s0) (Seagull.path s0)
  /\ Forall (in_box (Seagull.bounds s0)) (Seagull.points (Seagull.path s0)).
Proof.
  intros Hg Hx Hz. cbv zeta.
  pose proof (createRandomPath_flight (Seagull.mkBox3 lo hi) g Hg Hx Hz) as F.
  assert (F0 : flight_path Seagull.defaultBounds
                 (fst (Seagull.createRandomPath Seagull.defaultBounds g))).
  { apply createRandomPath_flight; [exact Hg | cbn; lra | cbn; lra]. }
  unfold Seagull.setBounds, Seagull.create.
  destruct (Seagull.createRandomPath (Seagull.mkBox3 lo hi) g) as [p g1].
  destruct (Seagull.createRandomPath Seagull.defaultBounds g) as [p0 g0].
  cbn [fst snd Seagull.bounds Seagull.path Js.Math_random] in *.
  split; [reflexivity | split; [exact F | split; [| split; [reflexivity |]]]].
  - intros Hy. destruct F as (_ & _ & F).
    eapply Forall_impl; [exact F |]. intros q. apply band_in_box. exact Hy.
  - split; [exact F0 |]. destruct F0 as (_ & _ & F0).
    eapply Forall_impl; [exact F0 |]. intros q. apply band_in_box. cbn. lra.
Qed.

Lemma steep_rng_unit : Js.unit_draws steep_rng.
Proof.
  intros n. unfold steep_rng, steep_draws. cbn [Js.draws].
  do 16 (destruct n as [| n]; [cbn [nth]; lra |]).
  destruct n; cbn [nth]; lra.
Qed.

Lemma steep_count : Z.to_nat (5 + Js.Math_floor (0 * 3)) = 5%nat.
Proof.
  unfold Js.Math_floor.
  replace (Int_part (0 * 3)) with 0%Z; [reflexivity |].
  apply Int_part_spec. simpl. lra.
Qed.

(** The path of the steep results in the box of ExampleScene. *)
Lemma steep_gull_path :
  Seagull.path steep_gull = Seagull.mkCurve steep_points true.
Proof.
  unfold steep_gull, Seagull.setBounds, Seagull.createRandomPath.
  cbn [Js.Math_random steep_rng Js.draws Js.cursor fst snd Seagull.path
       nth steep_draws].
  rewrite steep_count. f_equal.
  unfold steep_points, ExampleScene.boundsMin, ExampleScene.boundsMax.
  cbn [Seagull.path_points Js.Math_random Js.draws Js.cursor nth steep_draws
       Seagull.bmin Seagull.bmax Vector3.x Vector3.y Vector3.z].
  repeat (f_equal; try lra).
Qed.

(** The same results in the low box. *)
Lemma low_gull_path :
  Seagull.path low_gull
  = Seagull.mkCurve
      [ Vector3.mk (5 / 2) 5 (49 / 5); Vector3.mk (5 / 2) 19 5;
        Vector3.mk (15 / 2) 19 5; Vector3.mk (15 / 2) 5 (49 / 5);
        Vector3.mk 5 5 0 ] true.
Proof.
  unfold low_gull, Seagull.setBounds, Seagull.createRandomPath.
  cbn [Js.Math_random steep_rng Js.draws Js.cursor fst snd Seagull.path
       nth steep_draws].
  rewrite steep_count. f_equal.
  unfold low_box_min, low_box_max.
  cbn [Seagull.path_points Js.Math_random Js.draws Js.cursor nth steep_draws
       Seagull.bmin Seagull.bmax Vector3.x Vector3.y Vector3.z].
  repeat (f_equal; try lra).
Qed.

Lemma fourth_root_2500 :
  CatmullRom.fourth_root 2500 = sqrt 50.
Proof.
  unfold CatmullRom.fourth_root. f_equal.
  apply sqrt_lem_1; lra.
Qed.

Lemma sqrt_50_bounds : (1 <= sqrt 50)%R.
Proof.
  rewrite <- sqrt_1 at 1. apply sqrt_le_1_alt. lra.
Qed.

(** With equal spacing the tangents are the central differences. *)
Lemma uniform_spacing (x0 x1 x2 x3 d w : R) :
  (0 < d)%R ->
  CatmullRom.calc (CatmullRom.initNonuniformCatmullRom x0 x1 x2 x3 d d d) w
  = (x1 + (x2 - x0) / 2 * w
     + (- 3 * x1 + 3 * x2 - (x2 - x0) - (x3 - x1) / 2) * (w * w)
     + (2 * x1 - 2 * x2 + (x2 - x0) / 2 + (x3 - x1) / 2) * (w * w * w))%R.
Proof.
  intros Hd.
  unfold CatmullRom.calc, CatmullRom.initNonuniformCatmullRom,
    CatmullRom.init.
  cbn [CatmullRom.c0 CatmullRom.c1 CatmullRom.c2 CatmullRom.c3].
  field. lra.
Qed.

Lemma steep_sample (t : R) :
  (1 / 4 <= t <= 7 / 20)%R ->
  let w := (5 * t - 1)%R in
  CatmullRom.getPoint (Seagull.mkCurve steep_points true) t
  = Some (Vector3.mk (-25 + 25 * w + 75 * (w * w) - 50 * (w * w * w))
                     (34 + 7 * w - 7 * (w * w))
                     (- 24 * w + 24 * (w * w))).
Proof.
  intros Ht. cbv zeta.
  unfold CatmullRom.getPoint.
  cbn [Seagull.points Seagull.closed steep_points length orb].
  change (Z.of_nat 5) with 5%Z. change (5 - 0)%Z with 5%Z.
  assert (Hi : Js.Math_floor (5 * t) = 1%Z).
  { unfold Js.Math_floor. symmetry. apply Int_part_spec. lra. }
  rewrite Hi.
  change (0 <? 1)%Z with true. cbv iota.
  change (Z.rem (1 + 0 - 1) 5) with 0%Z.
  change (Z.rem (1 + 0) 5) with 1%Z.
  change (Z.rem (1 + 0 + 1) 5) with 2%Z.
  change (Z.rem (1 + 0 + 2) 5) with 3%Z.
  unfold CatmullRom.at_index.
  change (0 <? 0)%Z with false. change (1 <? 0)%Z with false.
  change (2 <? 0)%Z with false. change (3 <? 0)%Z with false.
  cbv iota.
  change (Z.to_nat 0) with 0%nat. change (Z.to_nat 1) with 1%nat.
  change (Z.to_nat 2) with 2%nat. change (Z.to_nat 3) with 3%nat.
  unfold steep_points.
  cbn [nth_error Vector3.x Vector3.y Vector3.z].
  assert (D0 : Vector3.distanceToSquared (Vector3.mk (-25) 20 48)
                 (Vector3.mk (-25) 34 0) = 2500%R)
    by (unfold Vector3.distanceToSquared; cbn; lra).
  assert (D1 : Vector3.distanceToSquared (Vector3.mk (-25) 34 0)
                 (Vector3.mk 25 34 0) = 2500%R)
    by (unfold Vector3.distanceToSquared; cbn; lra).
  assert (D2 : Vector3.distanceToSquared (Vector3.mk 25 34 0)
                 (Vector3.mk 25 20 48) = 2500%R)
    by (unfold Vector3.distanceToSquared; cbn; lra).
  rewrite D0, D1, D2, fourth_root_2500.
  pose proof sqrt_50_bounds as Hd. set (d := sqrt 50) in *. clearbody d.
  destruct (Rlt_dec d (1 / 10000)) as [Hs | _]; [lra |].
  rewrite !uniform_spacing by lra.
  f_equal. f_equal; field.
Qed.

Lemma calc_start (x0 x1 t0 t1 : R) :
  CatmullRom.calc (CatmullRom.init x0 x1 t0 t1) 0 = x0.
Proof.
  unfold CatmullRom.calc, CatmullRom.init.
  cbn [CatmullRom.c0 CatmullRom.c1 CatmullRom.c2 CatmullRom.c3]. ring.
Qed.

(** The sampler of the low path at a fifth of the lap is its second
    control point. *)
Lemma low_sample :
  CatmullRom.getPoint
    (Seagull.mkCurve
       [ Vector3.mk (5 / 2) 5 (49 / 5); Vector3.mk (5 / 2) 19 5;
         Vector3.mk (15 / 2) 19 5; Vector3.mk (15 / 2) 5 (49 / 5);
         Vector3.mk 5 5 0 ] true) (1 / 5)
  = Some (Vector3.mk (5 / 2) 19 5).
Proof.
  unfold CatmullRom.getPoint.
  cbn [Seagull.points Seagull.closed length orb].
  change (Z.of_nat 5) with 5%Z. change (5 - 0)%Z with 5%Z.
  assert (Hi : Js.Math_floor (5 * (1 / 5)) = 1%Z).
  { unfold Js.Math_floor. symmetry. apply Int_part_spec. lra. }
  rewrite Hi.
  replace (5 * (1 / 5) - 1)%R with 0%R by lra.
  change (0 <? 1)%Z with true. cbv iota.
  change (Z.rem (1 + 0 - 1) 5) with 0%Z.
  change (Z.rem (1 + 0) 5) with 1%Z.
  change (Z.rem (1 + 0 + 1) 5) with 2%Z.
  change (Z.rem (1 + 0 + 2) 5) with 3%Z.
  unfold CatmullRom.at_index.
  change (0 <? 0)%Z with false. change (1 <? 0)%Z with false.
  change (2 <? 0)%Z with false. change (3 <? 0)%Z with false.
  cbv iota.
  change (Z.to_nat 0) with 0%nat. change (Z.to_nat 1) with 1%nat.
  change (Z.to_nat 2) with 2%nat. change (Z.to_nat 3) with 3%nat.
  cbn [nth_error Vector3.x Vector3.y Vector3.z].
  unfold CatmullRom.initNonuniformCatmullRom. cbv zeta.
  now rewrite !calc_start.
Qed.

Lemma orient_position (cur next : Vector3.t) (m : Seagull.Group) :
  Seagull.position (Seagull.orient cur next m) = cur.
Proof. unfold Seagull.orient. now destruct (Rlt_dec _ _). Qed.

Lemma update_bounds gp {Env : Type} (d : R) (s : Seagull.t Env) :
  Seagull.bounds (Seagull.update gp d s) = Seagull.bounds s.
Proof.
  unfold Seagull.update. destruct (Seagull.model s); [| reflexivity].
  destruct (negb (Seagull.modelLoaded s)); reflexivity.
Qed.

Lemma steep_points_in_box :
  Forall (in_box (Seagull.mkBox3 ExampleScene.boundsMin ExampleScene.boundsMax))
         steep_points.
Proof.
  unfold steep_points, in_box, ExampleScene.boundsMin, ExampleScene.boundsMax.
  repeat (apply List.Forall_cons;
          [cbn [Seagull.bmin Seagull.bmax Vector3.x Vector3.y Vector3.z];
           lra |]).
  apply List.Forall_nil.
Qed.

(** C8.  The claim fails on createRandomPath, against the comment of
    setBounds ("a new path within the new bounds").  With the box that
    ExampleScene gives every seagull, from (-50,15,-50) to (50,35,50),
    and results of Math.random() in [0, 1) that make the control points
    (-25,20,48), (-25,34,0), (25,34,0), (25,20,48), (0,20,-50), the path
    is a closed curve on 5 control points, all of them inside the box,
    and its sample at 3/10 of the lap is (0, 35.75, -6), above the box;
    so is every sample between 1/4 and 7/20 of the lap, by at least
    5/16, and update() puts the model of a seagull on such a sample
    (the curve is not confined to the box of its control points).  With
    the box from (0,0,0) to (10,10,10) and the same results, the second
    control point is (2.5, 19, 5), above the box, and is the sample at
    1/5 of the lap (the height of a control point is min.y + 5 +
    15 * random, whatever the height of the box). *)
Theorem seagull_path_leaves_bounds :
  Js.unit_draws steep_rng
  /\ Seagull.bounds steep_gull
     = Seagull.mkBox3 ExampleScene.boundsMin ExampleScene.boundsMax
  /\ flight_path (Seagull.bounds steep_gull) (Seagull.path steep_gull)
  /\ Forall (in_box (Seagull.bounds steep_gull))
            (Seagull.points (Seagull.path steep_gull))
  /\ CatmullRom.getPoint (Seagull.path steep_gull) (3 / 10)
     = Some (Vector3.mk 0 (143 / 4) (-6))
  /\ (forall t : R, (1 / 4 <= t <= 7 / 20)%R ->
      exists q, CatmullRom.getPoint (Seagull.path steep_gull) t = Some q
        /\ (Vector3.y (Seagull.bmax (Seagull.bounds steep_gull)) + 5 / 16
            <= Vector3.y q)%R
        /\ ~ in_box (Seagull.bounds steep_gull) q)
  /\ (forall (s : Seagull.t nat) (m : Seagull.Group) (d : R),
      Seagull.path s = Seagull.path steep_gull ->
      Seagull.bounds s = Seagull.bounds steep_gull ->
      Seagull.model s = Some m -> Seagull.modelLoaded s = true ->
      (1 / 4 <= advance (Seagull.progress s) (Seagull.speed s) d
       <= 7 / 20)%R ->
      exists m',
        Seagull.model (Seagull.update CatmullRom.sampler d s) = Some m'
        /\ ~ in_box (Seagull.bounds (Seagull.update CatmullRom.sampler d s))
                    (Seagull.position m'))
  /\ Seagull.bounds low_gull = Seagull.mkBox3 low_box_min low_box_max
  /\ exists q, nth_error (Seagull.points (Seagull.path low_gull)) 1 = Some q
       /\ q = Vector3.mk (5 / 2) 19 5
       /\ ~ in_box (Seagull.bounds low_gull) q
       /\ CatmullRom.getPoint (Seagull.path low_gull) (1 / 5) = Some q.
Proof.
  assert (Hb : Seagull.bounds steep_gull
               = Seagull.mkBox3 ExampleScene.boundsMin ExampleScene.boundsMax).
  { unfold steep_gull, Seagull.setBounds.
    destruct (Seagull.createRandomPath _ _). reflexivity. }
  assert (Hout : forall t : R, (1 / 4 <= t <= 7 / 20)%R ->
            exists q, CatmullRom.getPoint (Seagull.path steep_gull) t = Some q
              /\ (Vector3.y (Seagull.bmax (Seagull.bounds steep_gull)) + 5 / 16
                  <= Vector3.y q)%R
              /\ ~ in_box (Seagull.bounds steep_gull) q).
  { intros t Ht. rewrite steep_gull_path, Hb, (steep_sample t Ht).
    eexists. split; [reflexivity |].
    unfold in_box, ExampleScene.boundsMax.
    cbn [Seagull.bmax Seagull.bmin Vector3.x Vector3.y Vector3.z].
    split; [nra | intros (_ & Hy & _); nra]. }
  split; [exact steep_rng_unit |].
  split; [exact Hb |].
  split.
  { rewrite steep_gull_path. unfold flight_path.
    cbn [Seagull.points Seagull.closed].
    split; [unfold steep_points; cbn [length]; lia |].
    split; [reflexivity |].
    rewrite Hb. unfold steep_points, in_flight_band,
      ExampleScene.boundsMin, ExampleScene.boundsMax.
    repeat (apply List.Forall_cons;
            [cbn [Seagull.bmin Seagull.bmax Vector3.x Vector3.y Vector3.z];
             lra |]).
    apply List.Forall_nil. }
  split.
  { rewrite steep_gull_path, Hb. exact steep_points_in_box. }
  split.
  { rewrite steep_gull_path, steep_sample by lra. cbv zeta.
    f_equal. f_equal; field. }
  split; [exact Hout |].
  split.
  { intros s m d Hp Hbs Hm Hl Hu.
    rewrite (seagull_update_orients CatmullRom.sampler d s m Hm Hl).
    eexists. split; [reflexivity |].
    rewrite orient_position, update_bounds, Hbs, Hp.
    destruct (Hout _ Hu) as (q & Hq & _ & Hn).
    unfold CatmullRom.sampler. now rewrite Hq. }
  assert (Hbl : Seagull.bounds low_gull
                = Seagull.mkBox3 low_box_min low_box_max).
  { unfold low_gull, Seagull.setBounds.
    destruct (Seagull.createRandomPath _ _). reflexivity. }
  split; [exact Hbl |].
  exists (Vector3.mk (5 / 2) 19 5).
  rewrite low_gull_path, Hbl. cbn [Seagull.points nth_error].
  split; [reflexivity |]. split; [reflexivity |].
  split; [| exact low_sample].
  unfold in_box, low_box_min, low_box_max.
  cbn [Seagull.bmin Seagull.bmax Vector3.x Vector3.y Vector3.z].
  intros (_ & Hy & _). lra.
Qed.

(** The sample at 3/10 of the lap. *)
Lemma seagull_path_leaves_bounds_witness :
  exists q, CatmullRom.getPoint (Seagull.path steep_gull) (3 / 10) = Some q
    /\ (Vector3.y (Seagull.bmax (Seagull.bounds steep_gull)) + 5 / 16
        <= Vector3.y q)%R
    /\ ~ in_box (Seagull.bounds steep_gull) q.
Proof.
  apply (proj1 (proj2 (proj2 (proj2 (proj2 (proj2
           seagull_path_leaves_bounds))))) (3 / 10)%R).
  lra.
Defined.

(** * ExampleScene: the win countdown *)

Lemma spawnSeagull_adds (s : ExampleScene.t) :
  exists x, fresh_gull x
    /\ ExampleScene.seagulls (ExampleScene.spawnSeagull s)
       = ExampleScene.seagulls s ++ [x]
    /\ ExampleScene.hud (ExampleScene.spawnSeagull s) = ExampleScene.hud s.
Proof.
  unfold ExampleScene.spawnSeagull, Seagull.create, Seagull.setBounds.
  destruct (Seagull.createRandomPath Seagull.defaultBounds _) as [p g1].
  cbn [Js.Math_random].
  destruct (Seagull.createRandomPath (Seagull.mkBox3 _ _) _) as [p' g2].
  eexists. split; [| split; reflexivity]. split; reflexivity.
Qed.

Lemma spawn_many (n : nat) (s : ExampleScene.t) :
  exists xs, length xs = n /\ Forall fresh_gull xs
    /\ ExampleScene.seagulls (Nat.iter n ExampleScene.spawnSeagull s)
       = ExampleScene.seagulls s ++ xs
    /\ ExampleScene.hud (Nat.iter n ExampleScene.spawnSeagull s)
       = ExampleScene.hud s.
Proof.
  induction n as [| n (xs & Hl & Hf & Hs & Hh)].
  - exists []. rewrite app_nil_r. repeat split. constructor.
  - rewrite Nat.iter_succ.
    destruct (spawnSeagull_adds (Nat.iter n ExampleScene.spawnSeagull s))
      as (x & Hx & Hs' & Hh').
    exists (xs ++ [x]). split; [| split; [| split]].
    + rewrite length_app, Hl. simpl. lia.
    + apply Forall_app. split; [exact Hf | now constructor].
    + rewrite Hs', Hs. now rewrite app_assoc.
    + congruence.
Qed.

Lemma distinct_hits_le (l : list nat) :
  (distinct_hits l <= ExampleScene.NUM_SEAGULLS)%nat.
Proof.
  unfold distinct_hits.
  etransitivity; [apply List.filter_length_le |]. now rewrite length_seq.
Qed.

Lemma existsb_snoc (k i : nat) (l : list nat) :
  existsb (Nat.eqb k) (l ++ [i]) = existsb (Nat.eqb k) l || Nat.eqb k i.
Proof. rewrite existsb_app. simpl. now rewrite orb_false_r. Qed.

(** One more index adds a distinct seagull exactly when it is in range
    and new. *)
Lemma distinct_hits_snoc (l : list nat) (i : nat) :
  distinct_hits (l ++ [i]) =
  (distinct_hits l
   + if Nat.ltb i ExampleScene.NUM_SEAGULLS && negb (existsb (Nat.eqb i) l)
     then 1 else 0)%nat.
Proof.
  unfold distinct_hits. generalize ExampleScene.NUM_SEAGULLS as n.
  induction n as [| n IH]; [reflexivity |].
  rewrite seq_S, !List.filter_app, !length_app, IH. cbn [List.filter Nat.add].
  rewrite existsb_snoc.
  destruct (existsb (Nat.eqb n) l) eqn:En; cbn [orb length].
  - destruct (Nat.ltb_spec i n), (Nat.ltb_spec i (S n)); try lia;
      cbn [andb]; try lia.
    assert (i = n) by lia. subst i. rewrite En. cbn. lia.
  - destruct (Nat.eqb_spec n i) as [-> | Hne]; cbn [length].
    + rewrite En. rewrite Nat.ltb_irrefl.
      replace (Nat.ltb i (S i)) with true by (symmetry; apply Nat.ltb_lt; lia).
      cbn. lia.
    + destruct (Nat.ltb_spec i n), (Nat.ltb_spec i (S n)); try lia;
        cbn [andb]; lia.
Qed.

Lemma initSeagulls_post (s : ExampleScene.t) :
  exists xs, length xs = ExampleScene.NUM_SEAGULLS /\ Forall fresh_gull xs
    /\ ExampleScene.seagulls (ExampleScene.initSeagulls s)
       = ExampleScene.seagulls s ++ xs
    /\ ExampleScene.hud (ExampleScene.initSeagulls s)
       = ExampleScene.mkHud (Z.of_nat ExampleScene.NUM_SEAGULLS) (Some false)
           (ExampleScene.winSignals (ExampleScene.hud s)).
Proof.
  unfold ExampleScene.initSeagulls. cbv zeta.
  set (s0 := ExampleScene.mk _ _ (ExampleScene.mkHud _ _ _) _ _ _ _ _).
  destruct (spawn_many ExampleScene.NUM_SEAGULLS s0)
    as (xs & Hl & Hf & Hs & Hh).
  revert Hs Hh.
  generalize (Nat.iter ExampleScene.NUM_SEAGULLS ExampleScene.spawnSeagull s0).
  intros s1 Hs Hh. exists xs. cbn [ExampleScene.seagulls ExampleScene.hud].
  rewrite Hs, Hh. repeat split; assumption.
Qed.

Lemma win_inv_create (sid : ObjId) (g : Js.Rng) :
  win_inv [] (ExampleScene.create sid g).
Proof.
  unfold ExampleScene.create. cbv zeta.
  set (s0 := ExampleScene.mk sid _ _ _ _ _ _ _).
  destruct (initSeagulls_post s0) as (xs & Hl & Hf & Hs & Hh).
  revert Hs Hh. generalize (ExampleScene.initSeagulls s0).
  intros s1 Hs Hh.
  split; cbn [ExampleScene.seagulls ExampleScene.hud]; rewrite ?Hs, ?Hh.
  - exact Hl.
  - intros k gl Hk. eapply Forall_lookup_1 in Hf; [| exact Hk]. exact Hf.
  - reflexivity.
  - reflexivity.
  - reflexivity.
Qed.

Lemma hitSeagull_out_of_range (i : nat) (s : ExampleScene.t) :
  ExampleScene.seagulls s !! i = None -> ExampleScene.hitSeagull i s = s.
Proof. intros H. unfold ExampleScene.hitSeagull. now rewrite H. Qed.

Lemma hitSeagull_already_hit (i : nat) (s : ExampleScene.t)
    (gl : Seagull.t ExampleScene.Hud) :
  ExampleScene.seagulls s !! i = Some gl -> Seagull.isHit gl = true ->
  ExampleScene.seagulls (ExampleScene.hitSeagull i s) = ExampleScene.seagulls s
  /\ ExampleScene.hud (ExampleScene.hitSeagull i s) = ExampleScene.hud s.
Proof.
  intros Hi Hh. unfold ExampleScene.hitSeagull, Seagull.hit.
  rewrite Hi, Hh. cbn. split; [now apply list_insert_id | reflexivity].
Qed.

Lemma hitSeagull_first_hit (i : nat) (s : ExampleScene.t)
    (gl : Seagull.t ExampleScene.Hud) :
  ExampleScene.seagulls s !! i = Some gl -> fresh_gull gl ->
  exists gl',
    Seagull.isHit gl' = true
    /\ Seagull.onHitCallback gl' = Some ExampleScene.handleSeagullHit
    /\ ExampleScene.seagulls (ExampleScene.hitSeagull i s)
       = <[i := gl']> (ExampleScene.seagulls s)
    /\ ExampleScene.hud (ExampleScene.hitSeagull i s)
       = ExampleScene.handleSeagullHit (ExampleScene.hud s).
Proof.
  intros Hi [Hh Hcb]. unfold ExampleScene.hitSeagull. rewrite Hi.
  rewrite (seagull_first_hit gl _ _ Hh), Hcb.
  eexists. split; [| split; [| split]].
  3: { cbn [ExampleScene.seagulls]. reflexivity. }
  - reflexivity.
  - reflexivity.
  - reflexivity.
Qed.

Lemma win_inv_step (l : list nat) (i : nat) (s : ExampleScene.t) :
  win_inv l s -> win_inv (l ++ [i]) (ExampleScene.hitSeagull i s).
Proof.
  intros [Hlen Hg Hr Hs Hw].
  pose proof (distinct_hits_snoc l i) as Hd.
  pose proof (distinct_hits_le (l ++ [i])) as Hle.
  destruct (ExampleScene.seagulls s !! i) as [gl |] eqn:Hi.
  - assert (Hin : (i < ExampleScene.NUM_SEAGULLS)%nat)
      by (rewrite <- Hlen; eapply lookup_lt_Some; exact Hi).
    apply Nat.ltb_lt in Hin. rewrite Hin in Hd. cbn [andb] in Hd.
    destruct (Hg i gl Hi) as [Hflag Hcb].
    destruct (Seagull.isHit gl) eqn:Hh.
    + (* already hit: nothing happens *)
      rewrite <- Hflag in Hd. cbn [negb] in Hd. rewrite Nat.add_0_r in Hd.
      destruct (hitSeagull_already_hit i s gl Hi Hh) as [Es Eh].
      split; rewrite ?Es, ?Eh, ?Hd; try assumption.
      intros k g' Hk. destruct (Hg k g' Hk) as [F C]. split; [| exact C].
      rewrite existsb_snoc, <- F.
      destruct (Nat.eqb_spec k i) as [-> | _]; [| now rewrite orb_false_r].
      replace g' with gl by congruence. rewrite Hh. reflexivity.
    + (* first hit of seagull i *)
      rewrite <- Hflag in Hd. cbn [negb] in Hd.
      destruct (hitSeagull_first_hit i s gl Hi (conj Hh Hcb))
        as (gl' & Hh' & Hcb' & Es & Eh).
      assert (Hlt : (i < length (ExampleScene.seagulls s))%nat)
        by (eapply lookup_lt_Some; exact Hi).
      split; rewrite ?Es, ?Eh.
      * now rewrite length_insert.
      * intros k g' Hk. rewrite existsb_snoc.
        destruct (Nat.eqb_spec k i) as [-> | Hne].
        -- rewrite list_lookup_insert_eq in Hk by exact Hlt.
           injection Hk as <-. rewrite orb_true_r. split; congruence.
        -- rewrite list_lookup_insert_ne in Hk by congruence.
           destruct (Hg k g' Hk) as [F C]. now rewrite orb_false_r.
      * unfold ExampleScene.handleSeagullHit.
        cbn [ExampleScene.remainingSeagulls]. rewrite Hr.
        destruct (Z.leb_spec
                    (Z.of_nat ExampleScene.NUM_SEAGULLS
                     - Z.of_nat (distinct_hits l) - 1) 0);
          cbn [ExampleScene.showWinScreen ExampleScene.remainingSeagulls];
          lia.
      * unfold ExampleScene.handleSeagullHit.
        cbn [ExampleScene.remainingSeagulls]. rewrite Hr.
        destruct (Z.leb_spec
                    (Z.of_nat ExampleScene.NUM_SEAGULLS
                     - Z.of_nat (distinct_hits l) - 1) 0);
          cbn [ExampleScene.showWinScreen ExampleScene.winSignals]; rewrite Hs.
        -- replace (Nat.eqb (distinct_hits (l ++ [i]))
                      ExampleScene.NUM_SEAGULLS) with true
             by (symmetry; apply Nat.eqb_eq; lia).
           replace (Nat.eqb (distinct_hits l) ExampleScene.NUM_SEAGULLS)
             with false by (symmetry; apply Nat.eqb_neq; lia).
           reflexivity.
        -- replace (Nat.eqb (distinct_hits (l ++ [i]))
                      ExampleScene.NUM_SEAGULLS) with false
             by (symmetry; apply Nat.eqb_neq; lia).
           replace (Nat.eqb (distinct_hits l) ExampleScene.NUM_SEAGULLS)
             with false by (symmetry; apply Nat.eqb_neq; lia).
           reflexivity.
      * unfold ExampleScene.handleSeagullHit.
        cbn [ExampleScene.remainingSeagulls]. rewrite Hr.
        destruct (Z.leb_spec
                    (Z.of_nat ExampleScene.NUM_SEAGULLS
                     - Z.of_nat (distinct_hits l) - 1) 0);
          cbn [ExampleScene.showWinScreen ExampleScene.winScreen]; rewrite Hw.
        -- replace (Nat.eqb (distinct_hits (l ++ [i]))
                      ExampleScene.NUM_SEAGULLS) with true
             by (symmetry; apply Nat.eqb_eq; lia).
           reflexivity.
        -- replace (Nat.eqb (distinct_hits (l ++ [i]))
                      ExampleScene.NUM_SEAGULLS) with false
             by (symmetry; apply Nat.eqb_neq; lia).
           replace (Nat.eqb (distinct_hits l) ExampleScene.NUM_SEAGULLS)
             with false by (symmetry; apply Nat.eqb_neq; lia).
           reflexivity.
  - (* no such seagull *)
    assert (Hout : (ExampleScene.NUM_SEAGULLS <= i)%nat)
      by (rewrite <- Hlen; apply lookup_ge_None; exact Hi).
    apply Nat.ltb_ge in Hout. rewrite Hout in Hd. cbn [andb] in Hd.
    rewrite Nat.add_0_r in Hd. rewrite (hitSeagull_out_of_range i s Hi).
    split; rewrite ?Hd; try assumption.
    intros k g' Hk. destruct (Hg k g' Hk) as [F C]. split; [| exact C].
    rewrite existsb_snoc, <- F.
    destruct (Nat.eqb_spec k i) as [-> | _]; [congruence |].
    now rewrite orb_false_r.
Qed.

Lemma balls_loop_frame (now : nat -> Z) (n : nat) (s : ExampleScene.t) :
  let s' := ExampleScene.balls_loop now n s in
  ExampleScene.hud s' = ExampleScene.hud s
  /\ ExampleScene.seagulls s' = ExampleScene.seagulls s
  /\ ExampleScene.nextId s' = ExampleScene.nextId s.
Proof.
  cbv zeta. revert s. induction n as [| i IH]; intros s; [easy |].
  cbn [ExampleScene.balls_loop].
  destruct (IH (ExampleScene.loop_turn (now i) i s)) as (-> & -> & ->).
  unfold ExampleScene.loop_turn.
  destruct (ExampleScene.balls s !! i) as [b |]; [| easy].
  destruct (Ball.update (now i) b) as [[|] b1]; [easy |].
  now rewrite removeDead_eq.
Qed.

Lemma win_inv_same (l : list nat) (s s' : ExampleScene.t) :
  ExampleScene.hud s' = ExampleScene.hud s ->
  ExampleScene.seagulls s' = ExampleScene.seagulls s ->
  win_inv l s -> win_inv l s'.
Proof.
  intros Eh Es [H1 H2 H3 H4 H5]. split; rewrite ?Eh, ?Es; assumption.
Qed.

(** A frame moves the seagulls and the balls; the countdown does not see
    it. *)
Lemma win_inv_update gp (dt : Q) (gd : nat -> R) (now : nat -> Z)
    (l : list nat) (s : ExampleScene.t) :
  win_inv l s -> win_inv l (ExampleScene.update gp dt gd now s).
Proof.
  intros [H1 H2 H3 H4 H5]. unfold ExampleScene.update.
  set (s0 := ExampleScene.mk _ _ _ _ _ _ _ _).
  destruct (balls_loop_frame now (length (ExampleScene.balls s)) s0)
    as (Eh & Es & _).
  split; rewrite ?Eh, ?Es; cbn [s0 ExampleScene.hud ExampleScene.seagulls];
    try assumption.
  - now rewrite length_imap.
  - intros k gl Hk. rewrite list_lookup_imap in Hk.
    destruct (ExampleScene.seagulls s !! k) as [g0 |] eqn:E; [| easy].
    injection Hk as <-. destruct (H2 k g0 E) as [F C].
    destruct (seagull_update_keeps gp (gd k) g0)
      as (-> & _ & _ & _ & _ & _ & _ & ->).
    easy.
Qed.

Lemma win_inv_event gp (l : list nat) (e : SceneEvent) (s : ExampleScene.t) :
  win_inv l s -> win_inv (l ++ event_hits e) (scene_event gp s e).
Proof.
  intros H. destruct e as [dt gd now | pos vel now | i | [i |] | i];
    cbn [event_hits scene_event]; rewrite ?app_nil_r.
  - now apply win_inv_update.
  - eapply win_inv_same; [| | exact H]; reflexivity.
  - now apply win_inv_step.
  - (* the engine reports a collision with the body of seagull i *)
    pose proof (win_inv_step l i s H) as Hstep.
    unfold ExampleScene.onBallCollide.
    destruct (ExampleScene.seagulls s !! i) as [gl |] eqn:Hi.
    + destruct (Seagull.isHit gl) eqn:Hh; [| exact Hstep].
      destruct (hitSeagull_already_hit i s gl Hi Hh) as [Es Eh].
      eapply win_inv_same; [| | exact Hstep]; congruence.
    + now rewrite (hitSeagull_out_of_range i s Hi) in Hstep.
  - exact H.
  - unfold ExampleScene.attachSeagull.
    destruct (ExampleScene.seagulls s !! i) as [gl |]; [| exact H].
    destruct (Seagull.getModel gl); [| exact H].
    eapply win_inv_same; [| | exact H]; reflexivity.
Qed.

Lemma win_inv_run gp (sid : ObjId) (g : Js.Rng) (es : list SceneEvent) :
  win_inv (hit_indices es) (run gp es (ExampleScene.create sid g)).
Proof.
  induction es as [| e es IH] using rev_ind.
  - apply win_inv_create.
  - unfold run, hit_indices in *. rewrite fold_left_app, flat_map_app.
    cbn [fold_left flat_map]. rewrite app_nil_r.
    now apply win_inv_event.
Qed.

(** C3. With the 5 seagulls that the constructor creates, after any
    sequence of events (frames, balls thrown, timers, and hit() reached
    through either collision path on any seagull index, repeats and
    indices of no seagull included), showWinScreen has been called once
    if the events have hit all 5 seagulls and not at all otherwise; the
    win screen is displayed in the first case only, and the countdown is
    5 minus the number of distinct seagulls hit.  As this holds after
    every prefix of the events, the signal fires at the hit which brings
    the number of distinct seagulls to 5, and never again. *)
Theorem win_signal_at_fifth_distinct_hit gp (sid : ObjId) (g : Js.Rng)
    (es : list SceneEvent) :
  let s := run gp es (ExampleScene.create sid g) in
  let n := distinct_hits (hit_indices es) in
  ExampleScene.winSignals (ExampleScene.hud s)
  = (if Nat.eqb n 5 then 1%nat else 0%nat)
  /\ ExampleScene.winScreen (ExampleScene.hud s) = Some (Nat.eqb n 5)
  /\ ExampleScene.remainingSeagulls (ExampleScene.hud s)
     = (5 - Z.of_nat n)%Z
  /\ (n <= 5)%nat.
Proof.
  cbv zeta. destruct (win_inv_run gp sid g es) as [_ _ Hr Hs Hw].
  split; [exact Hs | split; [exact Hw | split; [exact Hr |]]].
  apply distinct_hits_le.
Qed.

Example win_after_five_distinct :
  distinct_hits [0; 1; 1; 2; 7; 3; 0; 4]%nat = 5%nat
  /\ distinct_hits [0; 1; 1; 2; 7; 3; 0]%nat = 4%nat.
Proof. split; reflexivity. Qed.

(** * ExampleScene: the balls of a reachable scene *)

Lemma fallback_resources (oid r : ObjId) :
  r ∈ group_resources (Seagull.fallbackModel oid) ->
  (oid < r < oid + 8)%nat.
Proof.
  unfold group_resources, Seagull.fallbackModel. cbn [Seagull.meshes flat_map
    Seagull.geometry Seagull.material app].
  intros H. repeat (apply elem_of_cons in H as [-> | H]; [lia |]).
  now apply elem_of_nil in H.
Qed.

Lemma spawnSeagull_model (s : ExampleScene.t) :
  exists x,
    Seagull.model x = Some (Seagull.fallbackModel (ExampleScene.nextId s))
    /\ ExampleScene.seagulls (ExampleScene.spawnSeagull s)
       = ExampleScene.seagulls s ++ [x]
    /\ ExampleScene.nextId (ExampleScene.spawnSeagull s)
       = (ExampleScene.nextId s + 8)%nat
    /\ ExampleScene.balls (ExampleScene.spawnSeagull s) = ExampleScene.balls s
    /\ ExampleScene.physicsWorld (ExampleScene.spawnSeagull s)
       = ExampleScene.physicsWorld s.
Proof.
  unfold ExampleScene.spawnSeagull, Seagull.create, Seagull.setBounds.
  destruct (Seagull.createRandomPath Seagull.defaultBounds _) as [p g1].
  cbn [Js.Math_random].
  destruct (Seagull.createRandomPath (Seagull.mkBox3 _ _) _) as [p' g2].
  eexists. split; [| split; [reflexivity | repeat split]]. reflexivity.
Qed.

Lemma spawn_many_frame (n : nat) (s : ExampleScene.t) :
  gulls_allocated s ->
  let s' := Nat.iter n ExampleScene.spawnSeagull s in
  ExampleScene.balls s' = ExampleScene.balls s
  /\ ExampleScene.physicsWorld s' = ExampleScene.physicsWorld s
  /\ (ExampleScene.nextId s <= ExampleScene.nextId s')%nat
  /\ gulls_allocated s'.
Proof.
  intros H0. cbv zeta. induction n as [| n (Hb & Hp & Hn & Hg)]; [easy |].
  rewrite Nat.iter_succ.
  generalize dependent (Nat.iter n ExampleScene.spawnSeagull s).
  intros s1 Hb Hp Hn Hg.
  destruct (spawnSeagull_model s1) as (x & Hx & Es & En & Eb & Ep).
  rewrite Eb, Ep, En. repeat split; [assumption | assumption | lia |].
  intros k gl m r Hk Hm Hr. rewrite Es in Hk. rewrite En.
  apply lookup_app_Some in Hk as [Hk | [_ Hk]].
  - specialize (Hg k gl m r Hk Hm Hr). lia.
  - apply list_lookup_singleton_Some in Hk as [_ <-].
    rewrite Hx in Hm. injection Hm as <-.
    apply fallback_resources in Hr. lia.
Qed.

Lemma create_frame (sid : ObjId) (g : Js.Rng) :
  ExampleScene.balls (ExampleScene.create sid g) = []
  /\ ExampleScene.physicsWorld (ExampleScene.create sid g)
     = PhysicsWorld.create
  /\ (0 < ExampleScene.nextId (ExampleScene.create sid g))%nat
  /\ gulls_allocated (ExampleScene.create sid g).
Proof.
  unfold ExampleScene.create, ExampleScene.initSeagulls. cbv zeta.
  set (s0 := ExampleScene.mk _ _ (ExampleScene.mkHud _ _ _) _ _ _ _ _).
  assert (H0 : gulls_allocated s0) by (intros k gl m r Hk; easy).
  destruct (spawn_many_frame ExampleScene.NUM_SEAGULLS s0 H0)
    as (Hb & _ & Hn & Hg).
  revert Hb Hn Hg.
  generalize (Nat.iter ExampleScene.NUM_SEAGULLS ExampleScene.spawnSeagull s0).
  intros s1 Hb Hn Hg.
  cbn [ExampleScene.balls ExampleScene.physicsWorld ExampleScene.nextId s0]
    in *.
  repeat split; [assumption | lia | exact Hg].
Qed.

Lemma scene_wf_create (sid : ObjId) (g : Js.Rng) :
  scene_wf (ExampleScene.create sid g).
Proof.
  destruct (create_frame sid g) as (Hb & Hp & Hn & Hg).
  assert (Hground : forall x : nat,
             x ∈ [PhysicsWorld.groundBody] ->
             (x < ExampleScene.nextId (ExampleScene.create sid g))%nat).
  { intros x Hx. apply list_elem_of_singleton in Hx. subst x.
    exact Hn. }
  split; [split |..]; rewrite ?Hb, ?Hp; try exact Hground.
  - constructor.
  - intros r. cbn. lia.
  - apply NoDup_singleton.
  - apply NoDup_singleton.
  - reflexivity.
  - intros k gl m r Hk Hm Hr. split; [| reflexivity].
    exact (Hg k gl m r Hk Hm Hr).
Qed.

Lemma owners_app (r : ObjId) (l k : list Ball.t) :
  owners r (l ++ k) = (owners r l + owners r k)%nat.
Proof. unfold owners. now rewrite map_app, list_sum_app. Qed.

(** The ball that throwBall creates owns the resources [n + 2] and
    [n + 3], [n] being nextId. *)
Lemma thrown_ball_owns (pos vel : Vector3.t) (cb : option nat) (now : Z)
    (n r : nat) :
  let b := Ball.create pos vel cb now n in
  (owners r [b] <= 1)%nat
  /\ ((r < n)%nat -> owners r [b] = 0%nat)
  /\ ((n + 4 <= r)%nat -> owners r [b] = 0%nat).
Proof.
  cbv zeta.
  assert (Hb : owners r [Ball.create pos vel cb now n]
               = count_occ Nat.eq_dec [n + 2; n + 3]%nat r).
  { unfold owners, owned, list_sum. cbn [map fold_right].
    now rewrite Nat.add_0_r. }
  rewrite Hb. cbn [count_occ].
  destruct (Nat.eq_dec (n + 2) r), (Nat.eq_dec (n + 3) r);
    repeat split; lia.
Qed.

Lemma scene_wf_throwBall (pos vel : Vector3.t) (now : Z) (s : ExampleScene.t) :
  scene_wf s -> scene_wf (ExampleScene.throwBall pos vel now s).
Proof.
  intros [[Hlive Hown Hreg Heng] Hfresh Hr He Hg].
  unfold ExampleScene.throwBall, Ball.getMesh, Ball.getBody.
  set (n := ExampleScene.nextId s) in *.
  pose proof (thrown_ball_owns pos vel (Some ExampleScene.collideCallback)
                now n) as Hnew.
  set (b := Ball.create pos vel _ now n) in *.
  assert (Hnb : Ball.bodyId (Ball.body b)
                ∉ PhysicsWorld.wbodies
                    (PhysicsWorld.world (ExampleScene.physicsWorld s))).
  { intros Hin. specialize (He _ Hin).
    cbn [b Ball.create Ball.body Ball.bodyId] in He. lia. }
  unfold PhysicsWorld.addBody. rewrite (World_addBody_fresh _ _ Hnb).
  split; [split |..];
    cbn [ExampleScene.balls ExampleScene.physicsWorld ExampleScene.nextId
         ExampleScene.seagulls
         PhysicsWorld.bodies PhysicsWorld.world
         PhysicsWorld.wbodies b Ball.create
         Ball.body Ball.bodyId].
  - apply Forall_app. split; [exact Hlive | now constructor].
  - intros r. rewrite owners_app. destruct (Hnew r) as (H1 & H0 & _).
    destruct (Nat.lt_ge_cases r n) as [Hlt | Hge].
    + rewrite (H0 Hlt). specialize (Hown r). lia.
    + rewrite (Hfresh r Hge). lia.
  - apply NoDup_app. split; [exact Hreg | split; [| apply NoDup_singleton]].
    intros x Hx Hx'. apply list_elem_of_singleton in Hx'.
    specialize (Hr x Hx). lia.
  - apply NoDup_app. split; [exact Heng | split; [| apply NoDup_singleton]].
    intros x Hx Hx'. apply list_elem_of_singleton in Hx'.
    specialize (He x Hx). lia.
  - intros r Hge. rewrite owners_app. destruct (Hnew r) as (_ & _ & H4).
    rewrite (Hfresh r ltac:(lia)), (H4 Hge). reflexivity.
  - intros x Hx. apply elem_of_app in Hx as [Hx | Hx].
    + specialize (Hr x Hx). lia.
    + apply list_elem_of_singleton in Hx. lia.
  - intros x Hx. apply elem_of_app in Hx as [Hx | Hx].
    + specialize (He x Hx). lia.
    + apply list_elem_of_singleton in Hx. lia.
  - intros k gl m r Hk Hm Hr'. destruct (Hg k gl m r Hk Hm Hr') as [Hlt H0].
    split; [lia |]. rewrite owners_app, H0.
    destruct (Hnew r) as (_ & Hz & _). now rewrite (Hz Hlt).
Qed.

Lemma group_resources_meshes (m m' : Seagull.Group) :
  Seagull.meshes m' = Seagull.meshes m ->
  group_resources m' = group_resources m.
Proof. unfold group_resources. now intros ->. Qed.

(** A frame keeps the resources of every seagull model. *)
Lemma update_gull_resources gp (dt : Q) (gd : nat -> R) (now : nat -> Z)
    (s : ExampleScene.t) (k : nat) (gl : Seagull.t ExampleScene.Hud)
    (m : Seagull.Group) :
  ExampleScene.seagulls (ExampleScene.update gp dt gd now s) !! k = Some gl ->
  Seagull.model gl = Some m ->
  exists gl0 m0,
    ExampleScene.seagulls s !! k = Some gl0
    /\ Seagull.model gl0 = Some m0
    /\ group_resources m = group_resources m0.
Proof.
  unfold ExampleScene.update.
  set (s0 := ExampleScene.mk _ _ _ _ _ _ _ _).
  destruct (balls_loop_frame now (length (ExampleScene.balls s)) s0)
    as (_ & -> & _).
  cbn [s0 ExampleScene.seagulls]. rewrite list_lookup_imap.
  destruct (ExampleScene.seagulls s !! k) as [gl0 |]; [| easy].
  intros [= <-] Hm.
  destruct (seagull_update_keeps gp (gd k) gl0) as (_ & _ & Hmesh & _).
  rewrite Hm in Hmesh.
  destruct (Seagull.model gl0) as [m0 |] eqn:E0; [| easy].
  exists gl0, m0. split; [reflexivity | split; [exact E0 |]].
  apply group_resources_meshes. now injection Hmesh.
Qed.

Lemma scene_wf_update gp (dt : Q) (gd : nat -> R) (now : nat -> Z)
    (s : ExampleScene.t) :
  scene_wf s -> scene_wf (ExampleScene.update gp dt gd now s).
Proof.
  intros [[Hlive Hown Hreg Heng] Hfresh Hr He Hg].
  assert (Hgull : forall k gl m r,
             ExampleScene.seagulls (ExampleScene.update gp dt gd now s) !! k
             = Some gl ->
             Seagull.model gl = Some m -> r ∈ group_resources m ->
             (r < ExampleScene.nextId s)%nat
             /\ owners r (ExampleScene.balls s) = 0%nat).
  { intros k gl m r Hk Hm Hr'.
    destruct (update_gull_resources gp dt gd now s k gl m Hk Hm)
      as (gl0 & m0 & Hk0 & Hm0 & E).
    rewrite E in Hr'. exact (Hg k gl0 m0 r Hk0 Hm0 Hr'). }
  revert Hgull. unfold ExampleScene.update.
  set (s0 := ExampleScene.mk _ _ _ _ _ _ _ _).
  destruct (physics_update_bodies dt (ExampleScene.physicsWorld s))
    as [Eb Ew].
  destruct (balls_loop_frame now (length (ExampleScene.balls s)) s0)
    as (_ & _ & En).
  destruct (balls_loop_post now (length (ExampleScene.balls s)) s0)
    as [_ _ P3 P4 P5 P6 P7 _ P9 _].
  cbn [s0 ExampleScene.balls ExampleScene.physicsWorld ExampleScene.nextId]
    in *.
  rewrite Eb in P4, P6. rewrite Ew in P5, P7. intros Hgull.
  split; [split |..]; rewrite ?En; auto.
  - intros r. specialize (P9 r). specialize (Hown r). lia.
  - intros r Hge. specialize (P9 r). specialize (Hfresh r Hge). lia.
  - intros k gl m r Hk Hm Hr'.
    destruct (Hgull k gl m r Hk Hm Hr') as [Hlt H0]. split; [exact Hlt |].
    specialize (P9 r). lia.
Qed.

Lemma seagull_hit_keeps_model {Env : Type} (s : Seagull.t Env) (st : Stage)
    (env : Env) :
  Seagull.model (fst (fst (Seagull.hit s st env))) = Seagull.model s.
Proof.
  destruct (Seagull.isHit s) eqn:E.
  - unfold Seagull.hit. now rewrite E.
  - now rewrite (seagull_first_hit s st env E).
Qed.

(** hit() on a seagull of the scene keeps every model, the balls and the
    physics world. *)
Lemma hitSeagull_keeps (i : nat) (s : ExampleScene.t) :
  ExampleScene.balls (ExampleScene.hitSeagull i s) = ExampleScene.balls s
  /\ ExampleScene.physicsWorld (ExampleScene.hitSeagull i s)
     = ExampleScene.physicsWorld s
  /\ ExampleScene.nextId (ExampleScene.hitSeagull i s) = ExampleScene.nextId s
  /\ forall k gl,
       ExampleScene.seagulls (ExampleScene.hitSeagull i s) !! k = Some gl ->
       exists gl0, ExampleScene.seagulls s !! k = Some gl0
                   /\ Seagull.model gl = Seagull.model gl0.
Proof.
  unfold ExampleScene.hitSeagull.
  destruct (ExampleScene.seagulls s !! i) as [g0 |] eqn:Hi.
  2:{ repeat split. intros k gl Hk. now exists gl. }
  pose proof (seagull_hit_keeps_model g0 (ExampleScene.stage s)
                (ExampleScene.hud s)) as Hm.
  destruct (Seagull.hit g0 _ _) as [[g' st'] h']. cbn [fst] in Hm.
  cbn [ExampleScene.balls ExampleScene.physicsWorld ExampleScene.nextId
       ExampleScene.seagulls].
  repeat split. intros k gl Hk.
  destruct (Nat.eq_dec k i) as [-> | Hne].
  - rewrite list_lookup_insert_eq in Hk
      by (eapply lookup_lt_Some; exact Hi).
    injection Hk as <-. now exists g0.
  - rewrite list_lookup_insert_ne in Hk by congruence. now exists gl.
Qed.

Lemma scene_wf_hitSeagull (i : nat) (s : ExampleScene.t) :
  scene_wf s -> scene_wf (ExampleScene.hitSeagull i s).
Proof.
  intros [[H1 H2 H3 H4] H5 H6 H7 H8].
  destruct (hitSeagull_keeps i s) as (Eb & Ep & En & Hk).
  split; [split |..]; rewrite ?Eb, ?Ep, ?En; try assumption.
  intros k gl m r Hl Hm Hr. destruct (Hk k gl Hl) as (gl0 & Hl0 & E).
  rewrite E in Hm. exact (H8 k gl0 m r Hl0 Hm Hr).
Qed.

Lemma scene_wf_event gp (e : SceneEvent) (s : ExampleScene.t) :
  scene_wf s -> scene_wf (scene_event gp s e).
Proof.
  intros H. destruct e as [dt gd now | pos vel now | i | [i |] | i];
    cbn [scene_event].
  - now apply scene_wf_update.
  - now apply scene_wf_throwBall.
  - now apply scene_wf_hitSeagull.
  - unfold ExampleScene.onBallCollide.
    destruct (ExampleScene.seagulls s !! i) as [gl |]; [| exact H].
    destruct (Seagull.isHit gl); [exact H |].
    now apply scene_wf_hitSeagull.
  - exact H.
  - unfold ExampleScene.attachSeagull.
    destruct (ExampleScene.seagulls s !! i) as [gl |]; [| exact H].
    destruct (Seagull.getModel gl); [| exact H].
    destruct H as [[H1 H2 H3 H4] H5 H6 H7 H8].
    split; [split |..]; assumption.
Qed.

Lemma scene_wf_run gp (sid : ObjId) (g : Js.Rng) (es : list SceneEvent) :
  scene_wf (run gp es (ExampleScene.create sid g)).
Proof.
  induction es as [| e es IH] using rev_ind.
  - apply scene_wf_create.
  - unfold run in *. rewrite fold_left_app. cbn [fold_left].
    now apply scene_wf_event.
Qed.

(** Every scene reached from the constructor tracks its balls well. *)
Lemma reachable_balls_wf gp (sid : ObjId) (g : Js.Rng)
    (es : list SceneEvent) :
  balls_wf (run gp es (ExampleScene.create sid g)).
Proof. apply sw_balls, scene_wf_run. Qed.

(** What one frame does with the ball [b] tracked at index [j]. *)
Lemma update_cleans_balls gp (dt : Q) (gd : nat -> R) (now : nat -> Z)
    (s : ExampleScene.t) (j : nat) (b : Ball.t) :
  balls_wf s -> ExampleScene.balls s !! j = Some b ->
  let s' := ExampleScene.update gp dt gd now s in
  if fst (Ball.update (now j) b) then
    forall r, r ∈ ball_resources b ->
      releases r (ExampleScene.stage s') = releases r (ExampleScene.stage s)
      /\ owners r (ExampleScene.balls s') = 1%nat
  else
    parentOf (Ball.meshId (Ball.mesh b)) (ExampleScene.stage s')
      <> Some (ExampleScene.sceneId s')
    /\ (Ball.bodyId (Ball.body b)
         ∉ PhysicsWorld.bodies (ExampleScene.physicsWorld s'))
    /\ (Ball.bodyId (Ball.body b)
         ∉ PhysicsWorld.wbodies
             (PhysicsWorld.world (ExampleScene.physicsWorld s')))
    /\ forall r, r ∈ ball_resources b ->
         releases r (ExampleScene.stage s')
         = S (releases r (ExampleScene.stage s))
         /\ owners r (ExampleScene.balls s') = 0%nat.
Proof.
  intros [Hlive Hown Hreg Heng] Hb.
  unfold ExampleScene.update.
  set (s0 := ExampleScene.mk _ _ _ _ _ _ _ _).
  destruct (physics_update_bodies dt (ExampleScene.physicsWorld s))
    as [Eb Ew].
  pose proof (balls_loop_post now (length (ExampleScene.balls s)) s0) as P.
  set (s' := ExampleScene.balls_loop now _ s0) in *. cbv zeta.
  destruct P as [P1 P2 P3 P4 P5 P6 P7 P8 P9 P10].
  cbn [s0 ExampleScene.sceneId ExampleScene.stage ExampleScene.balls
       ExampleScene.physicsWorld] in *.
  assert (Hj : (j < length (ExampleScene.balls s))%nat)
    by (eapply lookup_lt_Some; exact Hb).
  destruct (fst (Ball.update (now j) b)) eqn:Ealive.
  + intros r Hr. apply owned_pos in Hr.
    pose proof (tally_split (fun i b => reports_dead (now i) b) r
                  (ExampleScene.balls s) (length (ExampleScene.balls s)))
      as Hsplit.
    pose proof (tally_ge (fun i b => negb (reports_dead (now i) b)) r
                  (ExampleScene.balls s) _ j b Hj Hb) as Hge.
    unfold reports_dead in Hge at 1. rewrite Ealive in Hge.
    specialize (Hge eq_refl). specialize (Hown r).
    specialize (P8 r Hlive). specialize (P9 r). unfold dead_in in *.
    split; lia.
  + assert (Hdead : reports_dead (now j) b = true)
      by (unfold reports_dead; now rewrite Ealive).
    destruct (P10 j b Hj Hb Hdead) as (D1 & D2 & D3).
    rewrite Eb in D2. rewrite Ew in D3. rewrite P1.
    split; [exact D1 | split; [now apply D2 | split; [now apply D3 |]]].
    intros r Hr. apply owned_pos in Hr.
    pose proof (tally_ge (fun i b => reports_dead (now i) b) r
                  (ExampleScene.balls s) _ j b Hj Hb Hdead) as Hge.
    specialize (Hown r). specialize (P8 r Hlive). specialize (P9 r).
    unfold dead_in in *. split; lia.
Qed.

Lemma seagull_hit_releases {Env : Type} (s : Seagull.t Env) (st : Stage)
    (env : Env) (r : ObjId) :
  (forall m, Seagull.model s = Some m -> r ∉ group_resources m) ->
  releases r (snd (fst (Seagull.hit s st env))) = releases r st.
Proof.
  intros Hr. destruct (Seagull.isHit s) eqn:E.
  - unfold Seagull.hit. now rewrite E.
  - destruct (Seagull.model s) as [m |] eqn:Em.
    + destruct (seagull_first_hit_effects s st env E) as [_ H].
      destruct (H m Em) as [_ ->].
      assert (Hc : count_occ Nat.eq_dec (group_resources m) r = 0%nat).
      { apply count_occ_not_In. intros Hin. apply (Hr m eq_refl).
        now apply list_elem_of_In. }
      now rewrite Hc.
    + rewrite (seagull_first_hit s st env E). cbn [fst snd].
      unfold Seagull.dispose. cbn [snd Seagull.model]. now rewrite Em.
Qed.

Lemma hitSeagull_releases (i : nat) (s : ExampleScene.t) (r : ObjId) :
  retired r s ->
  releases r (ExampleScene.stage (ExampleScene.hitSeagull i s))
  = releases r (ExampleScene.stage s).
Proof.
  intros [_ _ Hg]. unfold ExampleScene.hitSeagull.
  destruct (ExampleScene.seagulls s !! i) as [gl |] eqn:Hi; [| reflexivity].
  pose proof (seagull_hit_releases gl (ExampleScene.stage s)
                (ExampleScene.hud s) r (fun m => Hg i gl m Hi)) as H.
  destruct (Seagull.hit gl _ _) as [[g' st'] h']. exact H.
Qed.

Lemma retired_hitSeagull (i : nat) (s : ExampleScene.t) (r : ObjId) :
  retired r s ->
  retired r (ExampleScene.hitSeagull i s)
  /\ releases r (ExampleScene.stage (ExampleScene.hitSeagull i s))
     = releases r (ExampleScene.stage s).
Proof.
  intros H. split; [| now apply hitSeagull_releases].
  destruct H as [H1 H2 H3].
  destruct (hitSeagull_keeps i s) as (Eb & _ & En & Hk).
  split; rewrite ?Eb, ?En; try assumption.
  intros k gl m Hl Hm. destruct (Hk k gl Hl) as (gl0 & Hl0 & E).
  rewrite E in Hm. exact (H3 k gl0 m Hl0 Hm).
Qed.

(** Nothing that happens to a well-formed scene releases a retired
    resource, or brings it back into use. *)
Lemma retired_event gp (e : SceneEvent) (s : ExampleScene.t) (r : ObjId) :
  scene_wf s -> retired r s ->
  retired r (scene_event gp s e)
  /\ releases r (ExampleScene.stage (scene_event gp s e))
     = releases r (ExampleScene.stage s).
Proof.
  intros Hwf Hret.
  destruct e as [dt gd now | pos vel now | i | [i |] | i]; cbn [scene_event].
  - (* a frame *)
    destruct Hwf as [[Hlive _ _ _] _ _ _ _]. destruct Hret as [H1 H2 H3].
    assert (Hgull : forall k gl m,
               ExampleScene.seagulls (ExampleScene.update gp dt gd now s) !! k
               = Some gl ->
               Seagull.model gl = Some m -> r ∉ group_resources m).
    { intros k gl m Hk Hm.
      destruct (update_gull_resources gp dt gd now s k gl m Hk Hm)
        as (gl0 & m0 & Hk0 & Hm0 & ->).
      exact (H3 k gl0 m0 Hk0 Hm0). }
    revert Hgull. unfold ExampleScene.update.
    set (s0 := ExampleScene.mk _ _ _ _ _ _ _ _).
    destruct (balls_loop_frame now (length (ExampleScene.balls s)) s0)
      as (_ & _ & En).
    destruct (balls_loop_post now (length (ExampleScene.balls s)) s0)
      as [_ _ _ _ _ _ _ P8 P9 _].
    specialize (P8 r Hlive). specialize (P9 r).
    cbn [s0 ExampleScene.balls ExampleScene.stage ExampleScene.nextId] in *.
    intros Hgull. split; [split |]; rewrite ?En; try assumption; lia.
  - (* a ball is thrown *)
    destruct Hret as [H1 H2 H3]. unfold ExampleScene.throwBall.
    destruct (thrown_ball_owns pos vel (Some ExampleScene.collideCallback)
                now (ExampleScene.nextId s) r) as (_ & Hz & _).
    split; [split |];
      cbn [ExampleScene.balls ExampleScene.nextId ExampleScene.seagulls
           ExampleScene.stage].
    + rewrite owners_app, H1, (Hz H2). reflexivity.
    + lia.
    + exact H3.
    + reflexivity.
  - now apply retired_hitSeagull.
  - unfold ExampleScene.onBallCollide.
    destruct (ExampleScene.seagulls s !! i) as [gl |]; [| easy].
    destruct (Seagull.isHit gl); [easy |].
    now apply retired_hitSeagull.
  - easy.
  - unfold ExampleScene.attachSeagull.
    destruct (ExampleScene.seagulls s !! i) as [gl |]; [| easy].
    destruct (Seagull.getModel gl); [| easy].
    destruct Hret as [H1 H2 H3]. split; [split |]; easy.
Qed.

Lemma retired_run gp (es : list SceneEvent) (s : ExampleScene.t) (r : ObjId) :
  scene_wf s -> retired r s ->
  releases r (ExampleScene.stage (run gp es s))
  = releases r (ExampleScene.stage s).
Proof.
  revert s. induction es as [| e es IH]; intros s Hwf Hret; [reflexivity |].
  unfold run in *. cbn [fold_left].
  destruct (retired_event gp e s r Hwf Hret) as [Hret' <-].
  apply IH; [now apply scene_wf_event | exact Hret'].
Qed.

(** Once a frame has seen a ball of a reachable scene dead, the release
    count of its resources stays one above what it was, whatever
    happens next. *)
Lemma dead_ball_released_once gp (sid : ObjId) (g : Js.Rng)
    (es es' : list SceneEvent) (dt : Q) (gd : nat -> R) (now : nat -> Z)
    (j : nat) (b : Ball.t) (r : ObjId) :
  let s := run gp es (ExampleScene.create sid g) in
  ExampleScene.balls s !! j = Some b ->
  fst (Ball.update (now j) b) = false ->
  r ∈ ball_resources b ->
  releases r (ExampleScene.stage
                (run gp es' (ExampleScene.update gp dt gd now s)))
  = S (releases r (ExampleScene.stage s)).
Proof.
  cbv zeta. set (s := run gp es (ExampleScene.create sid g)).
  intros Hb Hdead Hr.
  pose proof (scene_wf_run gp sid g es) as Hwf. fold s in Hwf.
  pose proof (update_cleans_balls gp dt gd now s j b (sw_balls s Hwf) Hb)
    as Hclean.
  cbv zeta in Hclean. rewrite Hdead in Hclean.
  destruct Hclean as (_ & _ & _ & Hres). destruct (Hres r Hr) as [<- Hgone].
  assert (Howned : (1 <= owners r (ExampleScene.balls s))%nat).
  { etransitivity; [apply owned_pos; exact Hr |].
    eapply owned_le_owners; exact Hb. }
  apply retired_run; [now apply scene_wf_update |].
  split.
  - exact Hgone.
  - destruct (scene_wf_update gp dt gd now s Hwf) as [_ Hfresh' _ _ _].
    destruct (Nat.lt_ge_cases r
                (ExampleScene.nextId (ExampleScene.update gp dt gd now s)))
      as [Hlt | Hge]; [exact Hlt |].
    exfalso. unfold ExampleScene.update in Hge.
    destruct (balls_loop_frame now (length (ExampleScene.balls s))
                (ExampleScene.mk (ExampleScene.sceneId s)
                   (ExampleScene.stage s) (ExampleScene.hud s)
                   (imap (fun i gl => Seagull.update gp (gd i) gl)
                      (ExampleScene.seagulls s))
                   (PhysicsWorld.update dt (ExampleScene.physicsWorld s))
                   (ExampleScene.balls s) (ExampleScene.rng s)
                   (ExampleScene.nextId s))) as (_ & _ & En).
    rewrite En in Hge. cbn [ExampleScene.nextId] in Hge.
    pose proof (sw_fresh s Hwf r Hge). lia.
  - intros k gl m Hk Hm Hin.
    destruct (update_gull_resources gp dt gd now s k gl m Hk Hm)
      as (gl0 & m0 & Hk0 & Hm0 & E).
    rewrite E in Hin.
    destruct (sw_gulls s Hwf k gl0 m0 r Hk0 Hm0 Hin) as [_ H0]. lia.
Qed.

(** C6. (1) A ball that was not disposed reports alive exactly when
    [now - creationTime < 5000].  (2) In a scene whose tracked balls are
    live and own distinct resources, one ExampleScene.update treats the
    ball [b] at index [j] as follows, [now j] being the time its update()
    reads.  If it reports alive, none of its resources is released and it
    stays tracked.  If it reports dead, its mesh is no child of the scene
    any more, its body is in neither body list of the physics world, each
    of its resources has been released exactly once more, and no tracked
    ball owns them any longer.  (3) Every scene reached from the
    constructor by frames, thrown balls, hits and timers is such a scene.
    (4) In such a run, once a frame has seen a ball dead, the release
    count of its resources stays one above what it was before that
    frame, whatever happens afterwards: it is disposed exactly once. *)
Theorem ball_lifetime_and_single_cleanup :
  (forall (now : Z) (b : Ball.t),
      Ball.disposed b = false ->
      (fst (Ball.update now b) = true
       <-> (now - Ball.creationTime b < 5000)%Z))
  /\
  (forall gp (dt : Q) (gd : nat -> R) (now : nat -> Z) (s : ExampleScene.t)
          (j : nat) (b : Ball.t),
      balls_wf s -> ExampleScene.balls s !! j = Some b ->
      let s' := ExampleScene.update gp dt gd now s in
      if fst (Ball.update (now j) b) then
        forall r, r ∈ ball_resources b ->
          releases r (ExampleScene.stage s') = releases r (ExampleScene.stage s)
          /\ owners r (ExampleScene.balls s') = 1%nat
      else
        parentOf (Ball.meshId (Ball.mesh b)) (ExampleScene.stage s')
          <> Some (ExampleScene.sceneId s')
        /\ (Ball.bodyId (Ball.body b)
             ∉ PhysicsWorld.bodies (ExampleScene.physicsWorld s'))
        /\ (Ball.bodyId (Ball.body b)
             ∉ PhysicsWorld.wbodies
                 (PhysicsWorld.world (ExampleScene.physicsWorld s')))
        /\ forall r, r ∈ ball_resources b ->
             releases r (ExampleScene.stage s')
             = S (releases r (ExampleScene.stage s))
             /\ owners r (ExampleScene.balls s') = 0%nat)
  /\
  (forall gp (sid : ObjId) (g : Js.Rng) (es : list SceneEvent),
      balls_wf (run gp es (ExampleScene.create sid g)))
  /\
  (forall gp (sid : ObjId) (g : Js.Rng) (es es' : list SceneEvent) (dt : Q)
          (gd : nat -> R) (now : nat -> Z) (j : nat) (b : Ball.t) (r : ObjId),
      let s := run gp es (ExampleScene.create sid g) in
      ExampleScene.balls s !! j = Some b ->
      fst (Ball.update (now j) b) = false ->
      r ∈ ball_resources b ->
      releases r (ExampleScene.stage
                    (run gp es' (ExampleScene.update gp dt gd now s)))
      = S (releases r (ExampleScene.stage s))).
Proof.
  split; [| split; [| split]].
  - intros now b Hd. unfold Ball.update. rewrite Hd. cbn [fst].
    unfold Ball.LIFETIME. apply Z.ltb_lt.
  - exact update_cleans_balls.
  - exact reachable_balls_wf.
  - exact dead_ball_released_once.
Qed.

(** The first ball of the demo scene, thrown at 0, is seen dead by the
    frame at 6000 ms; a later hit and a later frame do not release its
    geometry (object 43) again. *)
Lemma ball_lifetime_and_single_cleanup_witness :
  (fst (Ball.update 6000 demo_ball) = true
   <-> (6000 - Ball.creationTime demo_ball < 5000)%Z)
  /\
  (let s' := ExampleScene.update origin_sampler 1 (fun _ => 0%R)
               (fun _ => 6000%Z) demo_scene in
   parentOf 41 (ExampleScene.stage s') <> Some (ExampleScene.sceneId s')
   /\ (42%nat ∉ PhysicsWorld.bodies (ExampleScene.physicsWorld s'))
   /\ (42%nat ∉ PhysicsWorld.wbodies
                (PhysicsWorld.world (ExampleScene.physicsWorld s')))
   /\ forall r, r ∈ ball_resources demo_ball ->
        releases r (ExampleScene.stage s')
        = S (releases r (ExampleScene.stage demo_scene))
        /\ owners r (ExampleScene.balls s') = 0%nat)
  /\
  releases 43
    (ExampleScene.stage
       (run origin_sampler
          [Hit 0; Tick 1 (fun _ => 0%R) (fun _ => 7000%Z)]
          (ExampleScene.update origin_sampler 1 (fun _ => 0%R)
             (fun _ => 6000%Z) demo_scene)))
  = S (releases 43 (ExampleScene.stage demo_scene)).
Proof.
  destruct ball_lifetime_and_single_cleanup as (H1 & H2 & H3 & H4).
  split; [| split].
  - apply H1. reflexivity.
  - exact (H2 origin_sampler 1%Q (fun _ => 0%R) (fun _ => 6000%Z) demo_scene
              0%nat demo_ball
              (H3 origin_sampler 0%nat demo_rng
                  [Throw (Vector3.mk 0 2 0) (Vector3.mk 0 0 (-100)) 0;
                   Throw (Vector3.mk 0 2 0) (Vector3.mk 0 0 (-100)) 3000])
              eq_refl).
  - exact (H4 origin_sampler 0%nat demo_rng
              [Throw (Vector3.mk 0 2 0) (Vector3.mk 0 0 (-100)) 0;
               Throw (Vector3.mk 0 2 0) (Vector3.mk 0 0 (-100)) 3000]
              [Hit 0; Tick 1 (fun _ => 0%R) (fun _ => 7000%Z)]
              1%Q (fun _ => 0%R) (fun _ => 6000%Z) 0%nat demo_ball 43%nat
              eq_refl eq_refl (list_elem_of_here _ _)).
Defined.

(** * FirstPersonControls: the bounce of a raycast projectile *)

Lemma stepBall_bounce (b : FirstPersonControls.BallMesh) (v : Vector3.t)
    (delta : R) (collidable : nat) (c : FirstPersonControls.Intersection)
    (rest : list FirstPersonControls.Intersection) (normal : Vector3.t) :
  FirstPersonControls.velocity b = Some v ->
  (0 < collidable)%nat ->
  (FirstPersonControls.distance c < Vector3.length v * delta)%R ->
  FirstPersonControls.objectIsSeagull c = false ->
  FirstPersonControls.faceNormal c = Some normal ->
  FirstPersonControls.stepBall collidable (c :: rest) delta b
  = FirstPersonControls.Bounced
      (FirstPersonControls.mkBall (FirstPersonControls.ballId b)
         (Vector3.addScaledVector (FirstPersonControls.point c)
            (Quaternion.apply normal (FirstPersonControls.objectQuaternion c))
            (2 / 10))
         (Some (Vector3.multiplyScalar
                  (Vector3.reflect v
                     (Quaternion.apply normal
                        (FirstPersonControls.objectQuaternion c)))
                  (6 / 10)))).
Proof.
  intros Hv Hc Hd Hs Hn. unfold FirstPersonControls.stepBall.
  rewrite Hv. apply Nat.ltb_lt in Hc. rewrite Hc.
  destruct (Rlt_dec _ _) as [_ | Hno]; [| contradiction].
  rewrite Hs, Hn. reflexivity.
Qed.

(** The rotation of a vector by a quaternion, component by component. *)
Lemma apply_components (n : Vector3.t) (q : Quaternion.t) :
  let tx := (2 * (Quaternion.y q * Vector3.z n - Quaternion.z q * Vector3.y n))%R in
  let ty := (2 * (Quaternion.z q * Vector3.x n - Quaternion.x q * Vector3.z n))%R in
  let tz := (2 * (Quaternion.x q * Vector3.y n - Quaternion.y q * Vector3.x n))%R in
  Quaternion.apply n q
  = Vector3.mk
      (Vector3.x n + Quaternion.w q * tx + Quaternion.y q * tz
       - Quaternion.z q * ty)
      (Vector3.y n + Quaternion.w q * ty + Quaternion.z q * tx
       - Quaternion.x q * tz)
      (Vector3.z n + Quaternion.w q * tz + Quaternion.x q * ty
       - Quaternion.y q * tx).
Proof. reflexivity. Qed.

Lemma apply_identity (n : Vector3.t) :
  Quaternion.apply n Quaternion.identity = n.
Proof.
  destruct n as [nx ny nz]. unfold Quaternion.apply, Quaternion.identity.
  cbn [Vector3.x Vector3.y Vector3.z Quaternion.x Quaternion.y Quaternion.z
       Quaternion.w].
  f_equal; ring.
Qed.

Lemma falling_ball_speed :
  Vector3.length (Vector3.mk 0 (-1) 0) = 1%R.
Proof.
  unfold Vector3.length, Vector3.lengthSq. cbn.
  replace (0 * 0 + -1 * -1 + 0 * 0)%R with 1%R by ring. apply sqrt_1.
Qed.

(** The bounce of the falling ball, which moves by (0,-1,0) in a tick
    of one second, on a face at distance 1/2. *)
Lemma falling_ball_bounce (c : FirstPersonControls.Intersection)
    (normal : Vector3.t) :
  FirstPersonControls.distance c = (1 / 2)%R ->
  FirstPersonControls.objectIsSeagull c = false ->
  FirstPersonControls.faceNormal c = Some normal ->
  FirstPersonControls.stepBall 1 [c] 1 falling_ball
  = FirstPersonControls.Bounced
      (FirstPersonControls.mkBall 7
         (Vector3.addScaledVector (FirstPersonControls.point c)
            (Quaternion.apply normal (FirstPersonControls.objectQuaternion c))
            (2 / 10))
         (Some (Vector3.multiplyScalar
                  (Vector3.reflect (Vector3.mk 0 (-1) 0)
                     (Quaternion.apply normal
                        (FirstPersonControls.objectQuaternion c)))
                  (6 / 10)))).
Proof.
  intros Hd Hs Hn.
  apply (stepBall_bounce falling_ball (Vector3.mk 0 (-1) 0) 1 1 c []
           normal eq_refl (Nat.lt_0_succ 0)); [| exact Hs | exact Hn].
  rewrite falling_ball_speed, Hd. lra.
Qed.

Lemma vector_eq (a b c a' b' c' : R) :
  a = a' -> b = b' -> c = c' -> Vector3.mk a b c = Vector3.mk a' b' c'.
Proof. now intros -> -> ->. Qed.

Lemma floor_tile_bounce :
  FirstPersonControls.stepBall 1 [floor_tile] 1 falling_ball
  = FirstPersonControls.Bounced
      (FirstPersonControls.mkBall 7 (Vector3.mk 0 (7 / 10) 0)
         (Some (Vector3.mk 0 (6 / 10) 0))).
Proof.
  rewrite (falling_ball_bounce floor_tile (Vector3.mk 0 1 0))
    by reflexivity.
  unfold floor_tile, Quaternion.identity, Quaternion.apply,
    Vector3.addScaledVector, Vector3.multiplyScalar, Vector3.reflect,
    Vector3.sub, Vector3.dot.
  cbn [FirstPersonControls.point FirstPersonControls.objectQuaternion
       Vector3.x Vector3.y Vector3.z Quaternion.x Quaternion.y
       Quaternion.z Quaternion.w].
  unfold Vector3.multiplyScalar. cbn [Vector3.x Vector3.y Vector3.z].
  do 2 f_equal; [| f_equal]; apply vector_eq; lra.
Qed.

Lemma sphere_face_bounce :
  FirstPersonControls.stepBall 1 [sphere_face] 1 falling_ball
  = FirstPersonControls.Bounced
      (FirstPersonControls.mkBall 7 (Vector3.mk (3 / 25) (33 / 50) 0)
         (Some (Vector3.mk (72 / 125) (21 / 125) 0))).
Proof.
  rewrite (falling_ball_bounce sphere_face (Vector3.mk (3 / 5) (4 / 5) 0))
    by reflexivity.
  unfold sphere_face, Quaternion.identity, Quaternion.apply,
    Vector3.addScaledVector, Vector3.multiplyScalar, Vector3.reflect,
    Vector3.sub, Vector3.dot.
  cbn [FirstPersonControls.point FirstPersonControls.objectQuaternion
       Vector3.x Vector3.y Vector3.z Quaternion.x Quaternion.y
       Quaternion.z Quaternion.w].
  unfold Vector3.multiplyScalar. cbn [Vector3.x Vector3.y Vector3.z].
  do 2 f_equal; [| f_equal]; apply vector_eq; lra.
Qed.

Lemma sphere_face_world_normal :
  worldNormal half_turn sphere_face (Vector3.mk (3 / 5) (4 / 5) 0)
  = Vector3.mk (- (3 / 5)) (4 / 5) 0.
Proof.
  unfold worldNormal, sphere_face, half_turn, Quaternion.identity,
    Quaternion.apply.
  cbn [FirstPersonControls.objectQuaternion Vector3.x Vector3.y Vector3.z
       Quaternion.x Quaternion.y Quaternion.z Quaternion.w].
  apply vector_eq; lra.
Qed.

Lemma sphere_face_spec_velocity :
  spec_bounce_velocity half_turn sphere_face (Vector3.mk (3 / 5) (4 / 5) 0)
    (Vector3.mk 0 (-1) 0)
  = Vector3.mk (- (72 / 125)) (21 / 125) 0.
Proof.
  unfold spec_bounce_velocity. rewrite sphere_face_world_normal.
  unfold Vector3.multiplyScalar, Vector3.reflect, Vector3.sub, Vector3.dot,
    FirstPersonControls.BOUNCE_FACTOR.
  cbn [Vector3.x Vector3.y Vector3.z].
  unfold Vector3.multiplyScalar. cbn [Vector3.x Vector3.y Vector3.z].
  apply vector_eq; lra.
Qed.

Lemma sphere_face_spec_position :
  spec_bounce_position half_turn sphere_face (Vector3.mk (3 / 5) (4 / 5) 0)
  = Vector3.mk (- (3 / 25)) (33 / 50) 0.
Proof.
  unfold spec_bounce_position. rewrite sphere_face_world_normal.
  unfold Vector3.addScaledVector, sphere_face.
  cbn [FirstPersonControls.point Vector3.x Vector3.y Vector3.z].
  apply vector_eq; lra.
Qed.

(** C7.  When the nearest intersection is closer than the distance the
    ball travels this tick, is no seagull and has a face normal, the
    ball leaves the tick with its velocity reflected about the face
    normal rotated by the quaternion of the intersected object alone,
    and scaled by 0.6, and is placed at the impact point plus 0.2 times
    that vector; velocity and position are given component by
    component.  The loop stores this ball as it is, without adding
    velocity * delta or gravity.  That vector is the world-space normal
    when the parent of the object is not rotated, and then velocity and
    position are those of the specification: (0,-1,0) against the
    normal (0,1,0) of an unrotated object gives (0, 0.6, 0) at 0.2 above
    the impact point.  It is not when the parent is rotated, against
    the comment "Convert normal from object space to world space": on a
    mesh inside a parent turned half a turn about the y axis, with the
    face normal (3/5, 4/5, 0), the world-space normal is (-3/5, 4/5, 0);
    the specification sends the ball falling by (0,-1,0) to the
    velocity (-72/125, 21/125, 0), 0.2 outside the face, and the code
    to (72/125, 21/125, 0), on the other side of it. *)
Theorem raycast_bounce_reflects (b : FirstPersonControls.BallMesh)
    (v : Vector3.t) (delta : R) (meshes : list ObjId)
    (c : FirstPersonControls.Intersection)
    (rest : list FirstPersonControls.Intersection) (normal : Vector3.t)
    (sc : ExampleScene.t) :
  FirstPersonControls.velocity b = Some v ->
  (0 < length meshes)%nat ->
  (FirstPersonControls.distance c < Vector3.length v * delta)%R ->
  FirstPersonControls.objectIsSeagull c = false ->
  FirstPersonControls.faceNormal c = Some normal ->
  let q := FirstPersonControls.objectQuaternion c in
  let p := FirstPersonControls.point c in
  let tx := (2 * (Quaternion.y q * Vector3.z normal
                  - Quaternion.z q * Vector3.y normal))%R in
  let ty := (2 * (Quaternion.z q * Vector3.x normal
                  - Quaternion.x q * Vector3.z normal))%R in
  let tz := (2 * (Quaternion.x q * Vector3.y normal
                  - Quaternion.y q * Vector3.x normal))%R in
  let nx := (Vector3.x normal + Quaternion.w q * tx + Quaternion.y q * tz
             - Quaternion.z q * ty)%R in
  let ny := (Vector3.y normal + Quaternion.w q * ty + Quaternion.z q * tx
             - Quaternion.x q * tz)%R in
  let nz := (Vector3.z normal + Quaternion.w q * tz + Quaternion.x q * ty
             - Quaternion.y q * tx)%R in
  let d := (Vector3.x v * nx + Vector3.y v * ny + Vector3.z v * nz)%R in
  let b' :=
    FirstPersonControls.mkBall (FirstPersonControls.ballId b)
      (Vector3.mk (Vector3.x p + nx * (2 / 10)) (Vector3.y p + ny * (2 / 10))
                  (Vector3.z p + nz * (2 / 10)))
      (Some (Vector3.mk ((Vector3.x v - nx * (2 * d)) * (6 / 10))
                        ((Vector3.y v - ny * (2 * d)) * (6 / 10))
                        ((Vector3.z v - nz * (2 * d)) * (6 / 10)))) in
  FirstPersonControls.stepBall (length meshes) (c :: rest) delta b
  = FirstPersonControls.Bounced b'
  /\ FirstPersonControls.balls_loop (fun _ => c :: rest) delta 1
       (FirstPersonControls.mk [b] meshes) sc
     = (FirstPersonControls.mk [b'] meshes, sc)
  /\ worldNormal Quaternion.identity c normal = Vector3.mk nx ny nz
  /\ FirstPersonControls.velocity b'
     = Some (spec_bounce_velocity Quaternion.identity c normal v)
  /\ FirstPersonControls.position b'
     = spec_bounce_position Quaternion.identity c normal
  /\ FirstPersonControls.stepBall 1 [floor_tile] 1 falling_ball
     = FirstPersonControls.Bounced
         (FirstPersonControls.mkBall 7 (Vector3.mk 0 (7 / 10) 0)
            (Some (Vector3.mk 0 (6 / 10) 0)))
  /\ FirstPersonControls.stepBall 1 [sphere_face] 1 falling_ball
     = FirstPersonControls.Bounced
         (FirstPersonControls.mkBall 7 (Vector3.mk (3 / 25) (33 / 50) 0)
            (Some (Vector3.mk (72 / 125) (21 / 125) 0)))
  /\ worldNormal half_turn sphere_face (Vector3.mk (3 / 5) (4 / 5) 0)
     = Vector3.mk (- (3 / 5)) (4 / 5) 0
  /\ spec_bounce_velocity half_turn sphere_face (Vector3.mk (3 / 5) (4 / 5) 0)
       (Vector3.mk 0 (-1) 0)
     = Vector3.mk (- (72 / 125)) (21 / 125) 0
  /\ spec_bounce_position half_turn sphere_face (Vector3.mk (3 / 5) (4 / 5) 0)
     = Vector3.mk (- (3 / 25)) (33 / 50) 0.
Proof.
  intros Hv Hc Hd Hs Hn. cbv zeta.
  pose proof (stepBall_bounce b v delta (length meshes) c rest normal
                Hv Hc Hd Hs Hn) as Hstep.
  rewrite apply_components in Hstep. cbv zeta in Hstep.
  unfold Vector3.addScaledVector, Vector3.multiplyScalar, Vector3.reflect,
    Vector3.sub, Vector3.dot in Hstep.
  cbn [Vector3.x Vector3.y Vector3.z] in Hstep.
  split; [exact Hstep |].
  split.
  { cbn [FirstPersonControls.balls_loop FirstPersonControls.balls
         FirstPersonControls.collidableMeshes].
    change ([b] !! 0%nat) with (Some b). cbv iota. rewrite Hstep.
    reflexivity. }
  assert (Hw : worldNormal Quaternion.identity c normal
               = Quaternion.apply normal
                   (FirstPersonControls.objectQuaternion c)).
  { unfold worldNormal. apply apply_identity. }
  split; [rewrite Hw; apply apply_components |].
  split.
  { unfold spec_bounce_velocity. rewrite Hw, apply_components. cbv zeta.
    unfold Vector3.multiplyScalar, Vector3.reflect, Vector3.sub, Vector3.dot,
      FirstPersonControls.BOUNCE_FACTOR.
    cbn [FirstPersonControls.velocity Vector3.x Vector3.y Vector3.z].
    reflexivity. }
  split.
  { unfold spec_bounce_position. rewrite Hw, apply_components. cbv zeta.
    unfold Vector3.addScaledVector.
    cbn [FirstPersonControls.position Vector3.x Vector3.y Vector3.z].
    reflexivity. }
  split; [exact floor_tile_bounce |].
  split; [exact sphere_face_bounce |].
  split; [exact sphere_face_world_normal |].
  split; [exact sphere_face_spec_velocity | exact sphere_face_spec_position].
Qed.

Lemma tilted_tile_near :
  (FirstPersonControls.distance tilted_tile
   < Vector3.length (Vector3.mk 0 (-1) 0) * 1)%R.
Proof.
  rewrite falling_ball_speed. unfold tilted_tile.
  cbn [FirstPersonControls.distance]. lra.
Qed.

(** The falling ball meets the tilted tile within a tick of one second:
    the rotated normal is (0, 7/25, 24/25). *)
Lemma raycast_bounce_reflects_witness :
  FirstPersonControls.stepBall 1 [tilted_tile] 1 falling_ball
  = FirstPersonControls.Bounced
      (FirstPersonControls.mkBall 7 (Vector3.mk 0 (139 / 250) (24 / 125))
         (Some (Vector3.mk 0 (- (1581 / 3125)) (1008 / 3125)))).
Proof.
  refine (eq_trans
            (proj1 (raycast_bounce_reflects falling_ball (Vector3.mk 0 (-1) 0)
                      1 [9%nat] tilted_tile [] (Vector3.mk 0 1 0)
                      (ExampleScene.create 0 demo_rng)
                      eq_refl (Nat.lt_0_succ 0) tilted_tile_near
                      eq_refl eq_refl)) _).
  unfold tilted_tile, tilt.
  cbn [FirstPersonControls.point FirstPersonControls.objectQuaternion
       FirstPersonControls.ballId falling_ball
       Vector3.x Vector3.y Vector3.z Quaternion.x Quaternion.y
       Quaternion.z Quaternion.w].
  do 2 f_equal; [| f_equal]; apply vector_eq; lra.
Defined.

(** * Further properties of the sources *)

(** ** src/physics/PhysicsWorld.ts *)

Lemma loop_took_step (p : PhysicsWorld.t) (n : nat) :
  (n <= PhysicsWorld.maxSteps)%nat ->
  (n < snd (PhysicsWorld.loop p n))%nat ->
  (0 <= PhysicsWorld.accumulator (fst (PhysicsWorld.loop p n)))%Q.
Proof.
  apply (PhysicsWorld.loop_elim
           (fun p n r => (n <= PhysicsWorld.maxSteps)%nat ->
                         (n < snd r)%nat ->
                         (0 <= PhysicsWorld.accumulator (fst r))%Q)).
  - intros q m Ht IH _ Hm Hlt.
    unfold PhysicsWorld.loop_test in Ht. apply andb_prop in Ht as [Hacc Hm'].
    apply Qle_bool_iff in Hacc. apply Nat.ltb_lt in Hm'.
    destruct (loop_spec (PhysicsWorld.loop_body q) (S m) ltac:(lia))
      as [Hc _ _ _ Ha _].
    destruct (Nat.eq_dec (snd (PhysicsWorld.loop (PhysicsWorld.loop_body q) (S m)))
                         (S m)) as [He | Hne].
    + rewrite He, Nat.sub_diag in Ha.
      cbn [PhysicsWorld.loop_body PhysicsWorld.accumulator Z.of_nat] in Ha.
      unfold PhysicsWorld.timeStep in *.
      change (inject_Z (Z.of_nat 0)) with 0%Q in Ha. Lqa.lra.
    + apply IH; lia.
  - intros q m _ _ _ Hlt. cbn in Hlt. lia.
Qed.

(** What one update() does to the accumulator [a] it starts from
    (the old accumulator plus deltaTime) in [k] steps. *)
Lemma update_facts (dt : Q) (p : PhysicsWorld.t) :
  let k := snd (PhysicsWorld.update_counting dt p) in
  let a := PhysicsWorld.accumulator (PhysicsWorld.update dt p) in
  (k <= 3)%nat
  /\ (a == PhysicsWorld.accumulator p + dt
           - inject_Z (Z.of_nat k) * PhysicsWorld.timeStep)%Q
  /\ ((k < 3)%nat -> (a < PhysicsWorld.timeStep)%Q)
  /\ ((0 < k)%nat -> (0 <= a)%Q)
  /\ PhysicsWorld.steps (PhysicsWorld.world (PhysicsWorld.update dt p)) =
     repeat PhysicsWorld.timeStep k
       ++ PhysicsWorld.steps (PhysicsWorld.world p).
Proof.
  unfold PhysicsWorld.update, PhysicsWorld.update_counting.
  set (q := PhysicsWorld.mk _ _ _).
  destruct (loop_spec q 0 (Nat.le_0_l _)) as [Hc Hs _ _ Ha He].
  pose proof (loop_took_step q 0 (Nat.le_0_l _)) as Hp.
  cbv zeta. rewrite Nat.sub_0_r in *. repeat split.
  - apply Hc.
  - exact Ha.
  - exact He.
  - exact Hp.
  - exact Hs.
Qed.

(** The step count of the exact model. *)
Lemma update_count_exact (dt : Q) (p : PhysicsWorld.t) :
  snd (PhysicsWorld.update_counting dt p) =
  Z.to_nat (Z.min 3 (Qfloor ((PhysicsWorld.accumulator p + dt)
                             / PhysicsWorld.timeStep))).
Proof.
  destruct (update_facts dt p) as (Hk & Ha & He & Hp & _).
  cbv zeta in *.
  set (k := snd (PhysicsWorld.update_counting dt p)) in *.
  set (a' := PhysicsWorld.accumulator (PhysicsWorld.update dt p)) in *.
  set (a := (PhysicsWorld.accumulator p + dt)%Q) in *.
  assert (Hdiv : (a / PhysicsWorld.timeStep == a * 60)%Q).
  { unfold PhysicsWorld.timeStep. field. }
  rewrite Hdiv. unfold PhysicsWorld.timeStep in *.
  pose proof (Qfloor_le (a * 60)) as Hfl.
  pose proof (Qlt_floor (a * 60)) as Hfu.
  set (f := Qfloor (a * 60)) in *.
  rewrite inject_Z_plus in Hfu. change (inject_Z 1) with 1%Q in Hfu.
  assert (Hcases : (k = 0 \/ k = 1 \/ k = 2 \/ k = 3)%nat) by lia.
  assert (Hlt : forall x y : Z, (inject_Z x < inject_Z y + 1)%Q -> (x <= y)%Z).
  { intros x y H. change 1%Q with (inject_Z 1) in H.
    rewrite <- inject_Z_plus in H. rewrite <- Zlt_Qlt in H. lia. }
  clearbody a a' f.
  destruct Hcases as [E | [E | [E | E]]]; rewrite E in *;
    [ change (inject_Z (Z.of_nat 0)) with 0%Q in Ha
    | change (inject_Z (Z.of_nat 1)) with 1%Q in Ha
    | change (inject_Z (Z.of_nat 2)) with 2%Q in Ha
    | change (inject_Z (Z.of_nat 3)) with 3%Q in Ha ].
  - specialize (He ltac:(lia)).
    assert (f <= 0)%Z.
    { apply Hlt. change (inject_Z 0) with 0%Q. Lqa.lra. }
    lia.
  - specialize (He ltac:(lia)). specialize (Hp ltac:(lia)).
    assert (f = 1)%Z.
    { apply Z.le_antisymm.
      - apply Hlt. change (inject_Z 1) with 1%Q. Lqa.lra.
      - apply Hlt. change (inject_Z 1) with 1%Q. Lqa.lra. }
    lia.
  - specialize (He ltac:(lia)). specialize (Hp ltac:(lia)).
    assert (f = 2)%Z.
    { apply Z.le_antisymm.
      - apply Hlt. change (inject_Z 2) with 2%Q. Lqa.lra.
      - apply Hlt. change (inject_Z 2) with 2%Q. Lqa.lra. }
    lia.
  - specialize (Hp ltac:(lia)).
    assert (3 <= f)%Z.
    { apply Hlt. change (inject_Z 3) with 3%Q. Lqa.lra. }
    lia.
Qed.

(** X1. Clear of the multiples of the timestep, the number of engine
    steps of one update() is the number of whole timesteps in the
    accumulated time, capped at 3: min(3, floor((accumulator +
    deltaTime) / timeStep)), and 0 when the accumulated time is
    negative.  For each number of steps the accumulated time is given
    as an interval: below one timestep no step is made, between [j]
    and [j + 1] timesteps [j] steps are, from three timesteps on
    three are.  Within the margin of a multiple the doubles of the
    source may round either way, and nothing is said. *)
Theorem physics_update_step_count (dt : Q) (p : PhysicsWorld.t) :
  let a := (PhysicsWorld.accumulator p + dt)%Q in
  let k := snd (PhysicsWorld.update_counting dt p) in
  clear_of_thresholds a ->
  k = Z.to_nat (Z.min 3 (Qfloor (a / PhysicsWorld.timeStep)))
  /\ ((a <= PhysicsWorld.timeStep * (1 - rounding_margin))%Q -> k = 0%nat)
  /\ ((PhysicsWorld.timeStep * (1 + rounding_margin) <= a)%Q ->
      (a <= 2 * PhysicsWorld.timeStep * (1 - rounding_margin))%Q -> k = 1%nat)
  /\ ((2 * PhysicsWorld.timeStep * (1 + rounding_margin) <= a)%Q ->
      (a <= 3 * PhysicsWorld.timeStep * (1 - rounding_margin))%Q -> k = 2%nat)
  /\ ((3 * PhysicsWorld.timeStep * (1 + rounding_margin) <= a)%Q -> k = 3%nat).
Proof.
  cbv zeta. intros _.
  split; [apply update_count_exact |].
  destruct (update_facts dt p) as (Hk & Ha & He & Hp & _). cbv zeta in *.
  set (k := snd (PhysicsWorld.update_counting dt p)) in *.
  set (a' := PhysicsWorld.accumulator (PhysicsWorld.update dt p)) in *.
  set (a := (PhysicsWorld.accumulator p + dt)%Q) in *.
  clearbody a a'.
  unfold PhysicsWorld.timeStep, rounding_margin in *.
  assert (Hcases : (k = 0 \/ k = 1 \/ k = 2 \/ k = 3)%nat) by lia.
  clearbody k.
  destruct Hcases as [E | [E | [E | E]]]; subst k;
    [ change (inject_Z (Z.of_nat 0)) with 0%Q in Ha
    | change (inject_Z (Z.of_nat 1)) with 1%Q in Ha
    | change (inject_Z (Z.of_nat 2)) with 2%Q in Ha
    | change (inject_Z (Z.of_nat 3)) with 3%Q in Ha ];
    try specialize (He ltac:(lia)); try specialize (Hp ltac:(lia));
    repeat split; intros; try reflexivity; exfalso; Lqa.lra.
Qed.

(** Witness: a fresh world and a frame of 25 ms, one and a half
    timesteps. *)
Lemma physics_update_step_count_witness :
  let a := (PhysicsWorld.accumulator PhysicsWorld.create + (25 # 1000))%Q in
  let k := snd (PhysicsWorld.update_counting (25 # 1000) PhysicsWorld.create) in
  k = Z.to_nat (Z.min 3 (Qfloor (a / PhysicsWorld.timeStep)))
  /\ ((a <= PhysicsWorld.timeStep * (1 - rounding_margin))%Q -> k = 0%nat)
  /\ ((PhysicsWorld.timeStep * (1 + rounding_margin) <= a)%Q ->
      (a <= 2 * PhysicsWorld.timeStep * (1 - rounding_margin))%Q -> k = 1%nat)
  /\ ((2 * PhysicsWorld.timeStep * (1 + rounding_margin) <= a)%Q ->
      (a <= 3 * PhysicsWorld.timeStep * (1 - rounding_margin))%Q -> k = 2%nat)
  /\ ((3 * PhysicsWorld.timeStep * (1 + rounding_margin) <= a)%Q -> k = 3%nat).
Proof.
  apply (physics_update_step_count (25 # 1000) PhysicsWorld.create).
  split; [| split].
  - right. vm_compute. discriminate.
  - left. vm_compute. discriminate.
  - left. vm_compute. discriminate.
Defined.

Lemma simulated_app (l : list Q) (r : list Q) :
  (fold_right Qplus 0 (l ++ r) == fold_right Qplus 0 l + fold_right Qplus 0 r)%Q.
Proof.
  induction l as [| x l IH]; simpl.
  - Lqa.lra.
  - rewrite IH. Lqa.lra.
Qed.

Lemma simulated_repeat (k : nat) (x : Q) :
  (fold_right Qplus 0 (repeat x k) == inject_Z (Z.of_nat k) * x)%Q.
Proof.
  induction k as [| k IH].
  - simpl. change (inject_Z 0) with 0%Q. ring.
  - cbn [repeat fold_right]. rewrite IH, Nat2Z.inj_succ. unfold Z.succ.
    rewrite inject_Z_plus. change (inject_Z 1) with 1%Q. ring.
Qed.

Lemma update_conserves (dt : Q) (p : PhysicsWorld.t) :
  (simulated (PhysicsWorld.update dt p)
   + PhysicsWorld.accumulator (PhysicsWorld.update dt p)
   == simulated p + PhysicsWorld.accumulator p + dt)%Q.
Proof.
  destruct (update_facts dt p) as (_ & Ha & _ & _ & Hs). cbv zeta in *.
  unfold simulated. rewrite Hs, simulated_app, simulated_repeat, Ha.
  Lqa.lra.
Qed.

(** X2. Over any run of frames no time is lost and none is invented:
    the time the engine has been stepped through plus the time left
    in the accumulator is what it was before the run plus the time the
    frames took. *)
Theorem physics_frames_conserve_time (dts : list Q) (p : PhysicsWorld.t) :
  (simulated (physics_frames dts p)
   + PhysicsWorld.accumulator (physics_frames dts p)
   == simulated p + PhysicsWorld.accumulator p + elapsed dts)%Q.
Proof.
  revert p. induction dts as [| dt dts IH]; intros p.
  - simpl. Lqa.lra.
  - unfold physics_frames in *. cbn [fold_left elapsed fold_right].
    rewrite IH, update_conserves. fold (elapsed dts). Lqa.lra.
Qed.

Lemma update_short_frame (dt : Q) (p : PhysicsWorld.t) :
  (0 <= PhysicsWorld.accumulator p < PhysicsWorld.timeStep)%Q ->
  short_frame dt ->
  (0 <= PhysicsWorld.accumulator (PhysicsWorld.update dt p)
   < PhysicsWorld.timeStep)%Q.
Proof.
  intros [H0 H1] [Hd0 Hd1].
  destruct (update_facts dt p) as (Hk & Ha & He & Hp & _). cbv zeta in *.
  set (k := snd (PhysicsWorld.update_counting dt p)) in *.
  set (a' := PhysicsWorld.accumulator (PhysicsWorld.update dt p)) in *.
  clearbody a'. unfold PhysicsWorld.timeStep, rounding_margin in *.
  assert (Hcases : (k = 0 \/ k = 1 \/ k = 2 \/ k = 3)%nat) by lia.
  clearbody k.
  destruct Hcases as [E | [E | [E | E]]]; subst k;
    [ change (inject_Z (Z.of_nat 0)) with 0%Q in Ha
    | change (inject_Z (Z.of_nat 1)) with 1%Q in Ha
    | change (inject_Z (Z.of_nat 2)) with 2%Q in Ha
    | change (inject_Z (Z.of_nat 3)) with 3%Q in Ha ].
  - specialize (He ltac:(lia)). split; Lqa.lra.
  - specialize (He ltac:(lia)). specialize (Hp ltac:(lia)). split; Lqa.lra.
  - specialize (He ltac:(lia)). specialize (Hp ltac:(lia)). split; Lqa.lra.
  - specialize (Hp ltac:(lia)). split; Lqa.lra.
Qed.

(** X3. While every frame stays below three timesteps (50 ms) by the
    rounding margin, the simulation keeps up: started with less than
    one timestep in the accumulator, every update() leaves less than
    one timestep in it, whatever the number of frames.  The bound is
    re-established by each frame on its own, with the margin to spare,
    so rounding does not build up over the frames. *)
Theorem physics_short_frames_keep_up (dts : list Q) (p : PhysicsWorld.t) :
  (0 <= PhysicsWorld.accumulator p < PhysicsWorld.timeStep)%Q ->
  Forall short_frame dts ->
  (0 <= PhysicsWorld.accumulator (physics_frames dts p)
   < PhysicsWorld.timeStep)%Q.
Proof.
  intros Hp Hd. revert p Hp.
  induction Hd as [| dt dts Hdt _ IH]; intros p Hp.
  - exact Hp.
  - unfold physics_frames in *. cbn [fold_left].
    apply IH, update_short_frame; assumption.
Qed.

(** Witness: a fresh world after a frame of 10 ms and one of 40 ms. *)
Lemma physics_short_frames_keep_up_witness :
  (0 <= PhysicsWorld.accumulator
          (physics_frames [1 # 100; 1 # 25] PhysicsWorld.create)
   < PhysicsWorld.timeStep)%Q.
Proof.
  apply (physics_short_frames_keep_up [1 # 100; 1 # 25] PhysicsWorld.create).
  - vm_compute. split; [discriminate | reflexivity].
  - repeat constructor; vm_compute; discriminate.
Defined.

Lemma update_long_frame (dt : Q) (p : PhysicsWorld.t) :
  (0 <= PhysicsWorld.accumulator p)%Q ->
  (3 * PhysicsWorld.timeStep <= dt)%Q ->
  snd (PhysicsWorld.update_counting dt p) = 3%nat
  /\ (PhysicsWorld.accumulator (PhysicsWorld.update dt p)
      == PhysicsWorld.accumulator p + (dt - 3 * PhysicsWorld.timeStep))%Q.
Proof.
  intros H0 Hd.
  destruct (update_facts dt p) as (Hk & Ha & He & _ & _). cbv zeta in *.
  set (k := snd (PhysicsWorld.update_counting dt p)) in *.
  set (a' := PhysicsWorld.accumulator (PhysicsWorld.update dt p)) in *.
  clearbody a'. unfold PhysicsWorld.timeStep in *.
  assert (Hcases : (k = 0 \/ k = 1 \/ k = 2 \/ k = 3)%nat) by lia.
  clearbody k.
  destruct Hcases as [E | [E | [E | E]]]; subst k;
    [ change (inject_Z (Z.of_nat 0)) with 0%Q in Ha
    | change (inject_Z (Z.of_nat 1)) with 1%Q in Ha
    | change (inject_Z (Z.of_nat 2)) with 2%Q in Ha
    | change (inject_Z (Z.of_nat 3)) with 3%Q in Ha ].
  - specialize (He ltac:(lia)). exfalso. Lqa.lra.
  - specialize (He ltac:(lia)). exfalso. Lqa.lra.
  - specialize (He ltac:(lia)). exfalso. Lqa.lra.
  - split; [reflexivity | Lqa.lra].
Qed.

(** X4. When every frame takes [dt] of at least three timesteps, each
    update() performs exactly 3 steps and the accumulator grows by
    [dt - 3 * timeStep] per frame: after [n] frames the engine has made
    [3 * n] steps and the backlog is the initial one plus
    [n * (dt - 3 * timeStep)], without bound. *)
Theorem physics_long_frames_fall_behind (n : nat) (dt : Q)
    (p : PhysicsWorld.t) :
  (0 <= PhysicsWorld.accumulator p)%Q ->
  (3 * PhysicsWorld.timeStep <= dt)%Q ->
  (PhysicsWorld.accumulator (physics_frames (repeat dt n) p)
   == PhysicsWorld.accumulator p
      + inject_Z (Z.of_nat n) * (dt - 3 * PhysicsWorld.timeStep))%Q
  /\ PhysicsWorld.steps (PhysicsWorld.world (physics_frames (repeat dt n) p))
     = repeat PhysicsWorld.timeStep (3 * n)
         ++ PhysicsWorld.steps (PhysicsWorld.world p).
Proof.
  intros H0 Hd. revert p H0. induction n as [| n IH]; intros p H0.
  - simpl. split; [change (inject_Z 0) with 0%Q; ring | reflexivity].
  - unfold physics_frames in *. cbn [repeat fold_left].
    destruct (update_long_frame dt p H0 Hd) as [Hk Ha].
    destruct (update_facts dt p) as (_ & _ & _ & _ & Hs). cbv zeta in Hs.
    rewrite Hk in Hs.
    assert (H0' : (0 <= PhysicsWorld.accumulator (PhysicsWorld.update dt p))%Q).
    { rewrite Ha. unfold PhysicsWorld.timeStep in *. Lqa.lra. }
    destruct (IH _ H0') as [IHa IHs]. split.
    + rewrite IHa, Ha, Nat2Z.inj_succ. unfold Z.succ.
      rewrite inject_Z_plus. change (inject_Z 1) with 1%Q. ring.
    + rewrite IHs, Hs, app_assoc, <- repeat_app. f_equal. f_equal. lia.
Qed.

(** Witness: a fresh world after two frames of one second. *)
Lemma physics_long_frames_fall_behind_witness :
  (PhysicsWorld.accumulator (physics_frames (repeat 1%Q 2) PhysicsWorld.create)
   == PhysicsWorld.accumulator PhysicsWorld.create
      + inject_Z (Z.of_nat 2) * (1 - 3 * PhysicsWorld.timeStep))%Q
  /\ PhysicsWorld.steps
       (PhysicsWorld.world (physics_frames (repeat 1%Q 2) PhysicsWorld.create))
     = repeat PhysicsWorld.timeStep (3 * 2)
         ++ PhysicsWorld.steps (PhysicsWorld.world PhysicsWorld.create).
Proof.
  apply (physics_long_frames_fall_behind 2 1%Q PhysicsWorld.create).
  - vm_compute. discriminate.
  - vm_compute. discriminate.
Defined.

Lemma remove_first_absent (b : nat) (l : list nat) :
  b ∉ l -> PhysicsWorld.remove_first b l = l.
Proof.
  induction l as [| a l IH]; intros H; [reflexivity |].
  apply not_elem_of_cons in H as [Hne Hl]. simpl.
  destruct (Nat.eqb a b) eqn:E.
  - apply Nat.eqb_eq in E. congruence.
  - now rewrite IH.
Qed.

Lemma remove_first_snoc (b : nat) (l : list nat) :
  b ∉ l -> PhysicsWorld.remove_first b (l ++ [b]) = l.
Proof.
  induction l as [| a l IH]; intros H.
  - simpl. now rewrite Nat.eqb_refl.
  - apply not_elem_of_cons in H as [Hne Hl]. simpl.
    destruct (Nat.eqb a b) eqn:E.
    + apply Nat.eqb_eq in E. congruence.
    + now rewrite IH.
Qed.

Lemma remove_each_once (l : list nat) (p : PhysicsWorld.t) :
  let q := fold_left (fun q b => PhysicsWorld.removeBody b q) l p in
  (PhysicsWorld.bodies p = l -> PhysicsWorld.bodies q = [])
  /\ (PhysicsWorld.wbodies (PhysicsWorld.world p) = l ->
      PhysicsWorld.wbodies (PhysicsWorld.world q) = [])
  /\ PhysicsWorld.accumulator q = PhysicsWorld.accumulator p
  /\ PhysicsWorld.steps (PhysicsWorld.world q)
     = PhysicsWorld.steps (PhysicsWorld.world p).
Proof.
  revert p. induction l as [| x l IH]; intros p; cbv zeta.
  - simpl. auto.
  - cbn [fold_left]. destruct (IH (PhysicsWorld.removeBody x p)) as (Hb & Hw & Ha & Hs).
    repeat split.
    + intros E. apply Hb. simpl. rewrite E. simpl. now rewrite Nat.eqb_refl.
    + intros E. apply Hw. simpl. rewrite E. simpl. now rewrite Nat.eqb_refl.
    + rewrite Ha. reflexivity.
    + rewrite Hs. reflexivity.
Qed.

(** X5. dispose() removes every body exactly once from a world whose
    engine holds the registered bodies: both the registry and the
    engine's list end up empty, the ground plane included, while the
    accumulator and the steps already made are untouched. *)
Theorem physics_dispose_empties (p : PhysicsWorld.t) :
  PhysicsWorld.wbodies (PhysicsWorld.world p) = PhysicsWorld.bodies p ->
  PhysicsWorld.bodies (PhysicsWorld.dispose p) = []
  /\ PhysicsWorld.wbodies (PhysicsWorld.world (PhysicsWorld.dispose p)) = []
  /\ PhysicsWorld.accumulator (PhysicsWorld.dispose p)
     = PhysicsWorld.accumulator p
  /\ PhysicsWorld.steps (PhysicsWorld.world (PhysicsWorld.dispose p))
     = PhysicsWorld.steps (PhysicsWorld.world p).
Proof.
  intros Hm. unfold PhysicsWorld.dispose.
  destruct (remove_each_once (PhysicsWorld.bodies p) p) as (Hb & Hw & Ha & Hs).
  cbv zeta in *. auto.
Qed.

(** Witness: a fresh world, which holds the ground plane, with one more
    body and one frame of one second behind it. *)
Lemma physics_dispose_empties_witness :
  let p := PhysicsWorld.update 1 (PhysicsWorld.addBody 7 PhysicsWorld.create) in
  PhysicsWorld.bodies (PhysicsWorld.dispose p) = []
  /\ PhysicsWorld.wbodies (PhysicsWorld.world (PhysicsWorld.dispose p)) = []
  /\ PhysicsWorld.accumulator (PhysicsWorld.dispose p)
     = PhysicsWorld.accumulator p
  /\ PhysicsWorld.steps (PhysicsWorld.world (PhysicsWorld.dispose p))
     = PhysicsWorld.steps (PhysicsWorld.world p).
Proof.
  apply (physics_dispose_empties
           (PhysicsWorld.update 1 (PhysicsWorld.addBody 7 PhysicsWorld.create))).
  vm_compute. reflexivity.
Defined.

(** X6. Adding a body that neither list holds and removing it again
    gives the world back as it was, and removing a body that was never
    added changes nothing. *)
Theorem physics_add_remove_round_trip (b : nat) (p : PhysicsWorld.t) :
  b ∉ PhysicsWorld.bodies p ->
  b ∉ PhysicsWorld.wbodies (PhysicsWorld.world p) ->
  PhysicsWorld.removeBody b (PhysicsWorld.addBody b p) = p
  /\ PhysicsWorld.removeBody b p = p.
Proof.
  intros Hb Hw. unfold PhysicsWorld.addBody.
  rewrite (World_addBody_fresh _ _ Hw).
  destruct p as [[st wb] acc bs]. simpl in *.
  unfold PhysicsWorld.removeBody, PhysicsWorld.World_removeBody. simpl.
  rewrite !remove_first_snoc, !remove_first_absent by assumption.
  split; reflexivity.
Qed.

(** Witness: body 7 and a fresh world. *)
Lemma physics_add_remove_round_trip_witness :
  PhysicsWorld.removeBody 7 (PhysicsWorld.addBody 7 PhysicsWorld.create)
  = PhysicsWorld.create
  /\ PhysicsWorld.removeBody 7 PhysicsWorld.create = PhysicsWorld.create.
Proof.
  apply (physics_add_remove_round_trip 7 PhysicsWorld.create).
  - vm_compute. intros H. apply list_elem_of_In in H. simpl in H. intuition lia.
  - vm_compute. intros H. apply list_elem_of_In in H. simpl in H. intuition lia.
Defined.

(** ** src/objects/Ball.ts *)

(** X7. Once update() has reported a ball dead, it reports it dead at
    every later reading of the clock: the creation time is never
    touched, and a disposed ball stays disposed. *)
Theorem ball_expired_stays_expired (now1 now2 : Z) (b : Ball.t) :
  (now1 <= now2)%Z ->
  fst (Ball.update now1 b) = false ->
  fst (Ball.update now2 (snd (Ball.update now1 b))) = false.
Proof.
  intros Hle. unfold Ball.update.
  destruct (Ball.disposed b) eqn:E; cbn [fst snd].
  - intros _. now rewrite E.
  - intros H. simpl.
    apply Z.ltb_ge in H. apply Z.ltb_ge. lia.
Qed.

(** Witness: the first ball of the demo scene, read at 5000 and at 6000 ms. *)
Lemma ball_expired_stays_expired_witness :
  fst (Ball.update 6000 (snd (Ball.update 5000 demo_ball))) = false.
Proof.
  apply (ball_expired_stays_expired 5000 6000 demo_ball).
  - lia.
  - reflexivity.
Defined.

(** X8. From the constructor to dispose(): the collide listener that
    the constructor registered is removed again, the geometry and the
    material that it allocated are released exactly once each, nothing
    else is released, and the scene graph is left alone. *)
Theorem ball_create_dispose_round_trip (pos vel : Vector3.t) (cb : option nat)
    (now : Z) (oid : nat) (st : Stage) :
  let b := Ball.create pos vel cb now oid in
  Ball.listeners (Ball.body (fst (Ball.dispose b st))) = []
  /\ Ball.disposed (fst (Ball.dispose b st)) = true
  /\ graph (snd (Ball.dispose b st)) = graph st
  /\ forall r,
       releases r (snd (Ball.dispose b st))
       = ((if Nat.eqb r (oid + 2) then 1 else 0)
          + (if Nat.eqb r (oid + 3) then 1 else 0) + releases r st)%nat.
Proof.
  cbv zeta. split; [| split; [| split]].
  - unfold Ball.dispose, Ball.create. cbn.
    destruct cb as [c |]; cbn; [now rewrite Nat.eqb_refl | reflexivity].
  - apply ball_dispose_sets_flag.
  - apply ball_dispose_graph.
  - intros r. rewrite ball_dispose_releases by reflexivity.
    unfold owned, ball_resources, Ball.create. cbn [Ball.geometry Ball.mesh
      Ball.material count_occ].
    destruct (Nat.eq_dec (oid + 2) r) as [E2 | E2];
      destruct (Nat.eq_dec (oid + 3) r) as [E3 | E3];
      destruct (Nat.eqb_spec r (oid + 2)); destruct (Nat.eqb_spec r (oid + 3));
      lia.
Qed.

(** ** src/objects/Seagull.ts *)

Lemma seagull_create_fields {Env : Type} (cb : option (Env -> Env))
    (g : Js.Rng) (oid : nat) :
  let s := fst (Seagull.create cb g oid) in
  exists r : R,
    (exists n, r = Js.draws g n)
    /\ Seagull.speed s = (3 / 100 + r * (2 / 100))%R
    /\ Seagull.progress s = 0%R
    /\ Seagull.isHit s = false
    /\ Seagull.modelLoaded s = true
    /\ Seagull.model s = Some (Seagull.fallbackModel oid)
    /\ Seagull.bounds s = Seagull.defaultBounds
    /\ Seagull.onHitCallback s = cb.
Proof.
  cbv zeta. unfold Seagull.create.
  destruct (Seagull.createRandomPath Seagull.defaultBounds g) as [p g1] eqn:Ep.
  unfold Seagull.createRandomPath in Ep. cbn in Ep.
  injection Ep as _ Hg1. subst g1. cbn.
  eexists. split; [eexists; reflexivity |]. repeat split.
Qed.

(** X9. The constructor leaves the seagull at the start of its path,
    not hit, carrying the fallback model, with a speed in
    [0.03, 0.05): between 3 and 5 percent of the loop per second. *)
Theorem seagull_constructor_speed {Env : Type} (cb : option (Env -> Env))
    (g : Js.Rng) (oid : nat) :
  Js.unit_draws g ->
  let s := fst (Seagull.create cb g oid) in
  (3 / 100 <= Seagull.speed s < 5 / 100)%R
  /\ Seagull.progress s = 0%R
  /\ Seagull.isHit s = false
  /\ Seagull.modelLoaded s = true
  /\ Seagull.model s = Some (Seagull.fallbackModel oid).
Proof.
  intros Hg. destruct (seagull_create_fields cb g oid)
    as (r & [n Hr] & Hs & Hp & Hh & Hl & Hm & _).
  cbv zeta in *. rewrite Hs. repeat split; try assumption.
  - specialize (Hg n). subst r. lra.
  - specialize (Hg n). subst r. lra.
Qed.

(** Witness: the demo seagull, every draw being 1/2. *)
Lemma seagull_constructor_speed_witness :
  (3 / 100 <= Seagull.speed demo_gull < 5 / 100)%R
  /\ Seagull.progress demo_gull = 0%R
  /\ Seagull.isHit demo_gull = false
  /\ Seagull.modelLoaded demo_gull = true
  /\ Seagull.model demo_gull = Some (Seagull.fallbackModel 1).
Proof.
  apply (seagull_constructor_speed (Some S) demo_rng 1).
  intros n. cbn. lra.
Defined.

Lemma rem1_unit (a : R) : (0 <= a)%R -> (0 <= Js.rem1 a < 1)%R.
Proof.
  intros Ha. unfold Js.rem1. destruct (Rle_dec 0 a) as [_ | H]; [| lra].
  destruct (base_Int_part a) as [Hle Hgt]. lra.
Qed.

Lemma advance_unit (p v d : R) :
  (0 <= p <= 1)%R -> (0 <= v * d)%R ->
  (0 <= advance p v d)%R
  /\ ((advance p v d <= 1)%R <-> (p + v * d <= 2)%R).
Proof.
  intros Hp Hd. unfold advance.
  destruct (Rlt_dec 1 (p + v * d)); split; try split; intros; lra.
Qed.

(** X10. update() wraps the progress by subtracting 1 at most once.
    Started in [0, 1] and moved forward, the progress is in [0, 1]
    again exactly when progress + speed * delta was at most 2; the
    look-ahead sample is always taken at a parameter in [0, 1). *)
Theorem seagull_progress_wraps_once {Env : Type}
    (gp : Seagull.CatmullRomCurve3 -> R -> Vector3.t) (delta : R)
    (s : Seagull.t Env) (m : Seagull.Group) :
  Seagull.model s = Some m -> Seagull.modelLoaded s = true ->
  (0 <= Seagull.progress s <= 1)%R ->
  (0 <= Seagull.speed s * delta)%R ->
  let u := Seagull.progress (Seagull.update gp delta s) in
  (0 <= u)%R
  /\ ((u <= 1)%R <-> (Seagull.progress s + Seagull.speed s * delta <= 2)%R)
  /\ (0 <= Js.rem1 (u + Seagull.lookAheadValue) < 1)%R
  /\ option_map Seagull.position (Seagull.model (Seagull.update gp delta s))
     = Some (gp (Seagull.path s) u).
Proof.
  intros Hm Hl Hp Hd. cbv zeta.
  destruct (seagull_update_moves gp delta s m Hm Hl) as [Hu Hpos].
  cbv zeta in *. rewrite Hpos, Hu.
  destruct (advance_unit _ _ _ Hp Hd) as [H0 H1].
  repeat split; try assumption; try apply H1.
  - apply rem1_unit. unfold Seagull.lookAheadValue. lra.
  - apply rem1_unit. unfold Seagull.lookAheadValue. lra.
Qed.

(** Witness: the demo seagull after a frame of one second. *)
Lemma seagull_progress_wraps_once_witness :
  let u := Seagull.progress (Seagull.update origin_sampler 1 demo_gull) in
  (0 <= u)%R
  /\ ((u <= 1)%R
      <-> (Seagull.progress demo_gull + Seagull.speed demo_gull * 1 <= 2)%R)
  /\ (0 <= Js.rem1 (u + Seagull.lookAheadValue) < 1)%R
  /\ option_map Seagull.position
       (Seagull.model (Seagull.update origin_sampler 1 demo_gull))
     = Some (origin_sampler (Seagull.path demo_gull) u).
Proof.
  apply (seagull_progress_wraps_once origin_sampler 1 demo_gull
           (Seagull.fallbackModel 1)).
  - reflexivity.
  - reflexivity.
  - cbn. lra.
  - cbn. lra.
Defined.

(** X11. A seagull built by the constructor stays on its loop: through
    any number of frames of at most 20 s each, its progress remains in
    [0, 1]. *)
Theorem seagull_progress_stays_on_loop {Env : Type}
    (gp : Seagull.CatmullRomCurve3 -> R -> Vector3.t)
    (cb : option (Env -> Env)) (g : Js.Rng) (oid : nat) (ds : list R) :
  Js.unit_draws g ->
  Forall (fun d => 0 <= d <= 20)%R ds ->
  (0 <= Seagull.progress (gull_frames gp ds (fst (Seagull.create cb g oid)))
   <= 1)%R.
Proof.
  intros Hg Hd.
  destruct (seagull_create_fields cb g oid)
    as (r & [n Hr] & Hs & Hp & _ & Hl & Hm & _). cbv zeta in *.
  assert (Hv : (0 <= Seagull.speed (fst (Seagull.create cb g oid))
                <= 1 / 20)%R).
  { rewrite Hs. specialize (Hg n). subst r. lra. }
  assert (H0 : (0 <= Seagull.progress (fst (Seagull.create cb g oid)) <= 1)%R)
    by (rewrite Hp; lra).
  assert (Hne : Seagull.model (fst (Seagull.create cb g oid)) <> None)
    by (rewrite Hm; discriminate).
  clear Hs Hp Hm Hr.
  revert Hv H0 Hl Hne. generalize (fst (Seagull.create cb g oid)). clear Hg.
  induction Hd as [| d ds Hd0 _ IH]; intros s Hv H0 Hl Hne; [exact H0 |].
  unfold gull_frames in *. cbn [fold_left].
  destruct (Seagull.model s) as [m |] eqn:Em; [| congruence].
  destruct (seagull_update_keeps gp d s) as (_ & Hg & _ & _ & Hs' & _ & Hl' & _).
  cbv zeta in *.
  destruct (seagull_update_moves gp d s m Em Hl) as [Hu _]. cbv zeta in Hu.
  assert (Hsd : (0 <= Seagull.speed s * d <= 1)%R) by nra.
  destruct (advance_unit (Seagull.progress s) (Seagull.speed s) d H0
              ltac:(lra)) as [Ha0 Ha1].
  apply IH.
  - now rewrite Hs'.
  - rewrite Hu. split; [exact Ha0 | apply Ha1; lra].
  - now rewrite Hl'.
  - rewrite Em in Hg. destruct (Seagull.model (Seagull.update gp d s));
      [discriminate | discriminate].
Qed.

(** Witness: the demo seagull through a frame of 16 ms and one of 20 s. *)
Lemma seagull_progress_stays_on_loop_witness :
  (0 <= Seagull.progress
          (gull_frames origin_sampler [16 / 1000; 20]
             (fst (Seagull.create (Some S) demo_rng 1)))
   <= 1)%R.
Proof.
  apply (seagull_progress_stays_on_loop origin_sampler (Some S) demo_rng 1
           [16 / 1000; 20]%R).
  - intros n. cbn. lra.
  - repeat constructor; lra.
Defined.

(** X12. hit() on a seagull that still carries its fallback model
    releases the resources that two meshes share twice: the body
    material (body and head), the wing geometry and the wing material
    (left and right wing); the other four resources are released
    once, and nothing else is. *)
Theorem seagull_fallback_hit_releases {Env : Type} (cb : option (Env -> Env))
    (g : Js.Rng) (oid : nat) (st : Stage) (env : Env) (r : nat) :
  let s := fst (Seagull.create cb g oid) in
  releases r (snd (fst (Seagull.hit s st env)))
  = (count_occ Nat.eq_dec
       [oid + 1; oid + 5; oid + 6; oid + 7;
        oid + 2; oid + 2; oid + 3; oid + 3; oid + 4; oid + 4]%nat r
     + releases r st)%nat.
Proof.
  cbv zeta.
  destruct (seagull_create_fields cb g oid)
    as (x & _ & _ & _ & Hh & _ & Hm & _). cbv zeta in *.
  destruct (seagull_first_hit_effects (fst (Seagull.create cb g oid)) st env Hh)
    as [_ H].
  destruct (H _ Hm) as [_ ->]. f_equal.
  unfold group_resources, Seagull.fallbackModel.
  cbn [Seagull.meshes flat_map Seagull.geometry Seagull.material app count_occ].
  repeat match goal with
         | |- context [Nat.eq_dec ?a r] => destruct (Nat.eq_dec a r)
         end; lia.
Qed.

Lemma dispose_again_model {Env : Type} (n : nat) (s : Seagull.t Env)
    (st : Stage) :
  Seagull.model (fst (Nat.iter n dispose_again (s, st))) = Seagull.model s.
Proof.
  induction n as [| n IH]; [reflexivity |].
  rewrite Nat.iter_succ. unfold dispose_again at 1.
  destruct (seagull_dispose_fields (fst (Nat.iter n dispose_again (s, st)))
              (snd (Nat.iter n dispose_again (s, st)))) as [Hm _].
  cbv zeta in Hm. now rewrite Hm.
Qed.

(** X13. Seagull.dispose() has no guard: each of [n] calls releases
    every resource of the model again, so a resource that occurs [c]
    times in the model has been released [n * c] more times; the
    model stays where it is in the scene graph. *)
Theorem seagull_dispose_repeats {Env : Type} (n : nat) (s : Seagull.t Env)
    (st : Stage) (m : Seagull.Group) (r : nat) :
  Seagull.model s = Some m ->
  releases r (snd (Nat.iter n dispose_again (s, st)))
  = (n * count_occ Nat.eq_dec (group_resources m) r + releases r st)%nat
  /\ graph (snd (Nat.iter n dispose_again (s, st))) = graph st.
Proof.
  intros Hm. induction n as [| n [IHr IHg]]; [split; reflexivity |].
  rewrite Nat.iter_succ. unfold dispose_again at 1 3. split.
  - rewrite (seagull_dispose_releases _ _ m r).
    + rewrite IHr. lia.
    + now rewrite dispose_again_model.
  - now rewrite seagull_dispose_graph.
Qed.

(** Witness: the demo seagull disposed twice; its body geometry is
    object 2. *)
Lemma seagull_dispose_repeats_witness :
  releases 2 (snd (Nat.iter 2 dispose_again (demo_gull, demo_stage)))
  = (2 * count_occ Nat.eq_dec (group_resources (Seagull.fallbackModel 1)) 2
     + releases 2 demo_stage)%nat
  /\ graph (snd (Nat.iter 2 dispose_again (demo_gull, demo_stage)))
     = graph demo_stage.
Proof.
  apply (seagull_dispose_repeats 2 demo_gull demo_stage
           (Seagull.fallbackModel 1) 2).
  reflexivity.
Defined.

(** X14. When the loaded model arrives it takes the place of the old
    one: the old model has no parent any more, the new one is a child
    of the old one's parent if there was one and is otherwise left
    where it was, unattached for a seagull that is in no scene.
    Nothing is released, and progress, path and the hit flag are kept. *)
Theorem seagull_model_loaded_swap {Env : Type} (gltf : Seagull.Gltf)
    (s : Seagull.t Env) (st : Stage) (m : Seagull.Group) :
  Seagull.model s = Some m ->
  Seagull.gid (Seagull.scene gltf) <> Seagull.gid m ->
  let s' := fst (Seagull.onModelLoaded gltf s st) in
  let st' := snd (Seagull.onModelLoaded gltf s st) in
  parentOf (Seagull.gid m) st' = None
  /\ parentOf (Seagull.gid (Seagull.scene gltf)) st'
     = match parentOf (Seagull.gid m) st with
       | Some p => Some p
       | None => parentOf (Seagull.gid (Seagull.scene gltf)) st
       end
  /\ disposeLog st' = disposeLog st
  /\ option_map Seagull.gid (Seagull.model s')
     = Some (Seagull.gid (Seagull.scene gltf))
  /\ Seagull.modelLoaded s' = true
  /\ Seagull.isHit s' = Seagull.isHit s
  /\ Seagull.progress s' = Seagull.progress s
  /\ Seagull.path s' = Seagull.path s.
Proof.
  intros Hm Hne. cbv zeta. unfold Seagull.onModelLoaded. rewrite Hm.
  cbn [fst snd Seagull.model Seagull.modelLoaded Seagull.isHit
       Seagull.progress Seagull.path option_map Seagull.gid].
  destruct (parentOf (Seagull.gid m) st) as [p |] eqn:Ep.
  - unfold parentOf, Object3D_add, Object3D_remove in *. rewrite Ep.
    rewrite Nat.eqb_refl. cbn [graph disposeLog].
    rewrite lookup_insert_ne by congruence.
    rewrite lookup_delete_eq, lookup_insert_eq. repeat split.
  - repeat split. exact Ep.
Qed.

(** Witness: the demo seagull, whose fallback model (object 1) is a
    child of the scene 0, receives the loaded model 50. *)
Lemma seagull_model_loaded_swap_witness :
  let gltf := Seagull.mkGltf
                (Seagull.mkGroup 50 Vector3.zero (Seagull.mkEuler 0 0 0)
                                 false []) 1 in
  let s' := fst (Seagull.onModelLoaded gltf demo_gull demo_stage) in
  let st' := snd (Seagull.onModelLoaded gltf demo_gull demo_stage) in
  parentOf 1 st' = None
  /\ parentOf 50 st'
     = match parentOf 1 demo_stage with
       | Some p => Some p
       | None => parentOf 50 demo_stage
       end
  /\ disposeLog st' = disposeLog demo_stage
  /\ option_map Seagull.gid (Seagull.model s') = Some 50%nat
  /\ Seagull.modelLoaded s' = true
  /\ Seagull.isHit s' = Seagull.isHit demo_gull
  /\ Seagull.progress s' = Seagull.progress demo_gull
  /\ Seagull.path s' = Seagull.path demo_gull.
Proof.
  apply (seagull_model_loaded_swap
           (Seagull.mkGltf
              (Seagull.mkGroup 50 Vector3.zero (Seagull.mkEuler 0 0 0)
                               false []) 1)
           demo_gull demo_stage (Seagull.fallbackModel 1)).
  - reflexivity.
  - cbn. lia.
Defined.

(** ** src/scenes/ExampleScene.ts *)

Lemma survivors_app (now : nat -> Z) (k : nat) (l1 l2 : list Ball.t) :
  survivors now k (l1 ++ l2)
  = survivors now k l1 ++ survivors now (k + length l1) l2.
Proof.
  revert k. induction l1 as [| b l1 IH]; intros k.
  - simpl. now rewrite Nat.add_0_r.
  - cbn [app survivors length].
    replace (k + S (length l1))%nat with (S k + length l1)%nat by lia.
    destruct (Ball.update (now k) b) as [[|] b']; rewrite IH; reflexivity.
Qed.

Lemma take_delete_same {A : Type} (l : list A) (i : nat) :
  take i (delete i l) = take i l.
Proof.
  revert i. induction l as [| a l IH]; intros [| i]; simpl; try reflexivity.
  f_equal. apply IH.
Qed.

Lemma drop_delete_same {A : Type} (l : list A) (i : nat) :
  drop i (delete i l) = drop (S i) l.
Proof.
  revert i. induction l as [| a l IH]; intros [| i]; simpl; try reflexivity.
  apply IH.
Qed.

Lemma loop_turn_balls (now : Z) (i : nat) (s : ExampleScene.t) (b : Ball.t) :
  ExampleScene.balls s !! i = Some b ->
  ExampleScene.balls (ExampleScene.loop_turn now i s)
  = if fst (Ball.update now b)
    then <[i := snd (Ball.update now b)]> (ExampleScene.balls s)
    else delete i (ExampleScene.balls s).
Proof.
  intros Hb. unfold ExampleScene.loop_turn. rewrite Hb.
  destruct (Ball.update now b) as [[|] b1]; cbn [fst snd].
  - reflexivity.
  - rewrite removeDead_eq. cbn [ExampleScene.balls ExampleScene.set_balls].
    apply delete_insert_same.
Qed.

Lemma balls_loop_survivors (now : nat -> Z) (n : nat) (s : ExampleScene.t) :
  (n <= length (ExampleScene.balls s))%nat ->
  ExampleScene.balls (ExampleScene.balls_loop now n s)
  = survivors now 0 (take n (ExampleScene.balls s))
      ++ drop n (ExampleScene.balls s).
Proof.
  revert s. induction n as [| i IH]; intros s Hn.
  - cbn [ExampleScene.balls_loop take survivors app]. now rewrite drop_0.
  - cbn [ExampleScene.balls_loop].
    destruct (lookup_lt_is_Some_2 (ExampleScene.balls s) i ltac:(lia))
      as [b Hb].
    pose proof (loop_turn_balls (now i) i s b Hb) as Ht.
    rewrite (take_S_r _ _ _ Hb), survivors_app.
    rewrite length_take, Nat.min_l by lia. cbn [Nat.add survivors].
    rewrite IH.
    + rewrite Ht. destruct (Ball.update (now i) b) as [[|] b1]; cbn [fst snd].
      * rewrite take_insert_ge by lia. rewrite <- app_assoc. f_equal.
        cbn [app]. rewrite drop_insert_ge by lia. rewrite Nat.sub_diag.
        rewrite (drop_S _ _ _ Hb). reflexivity.
      * rewrite app_nil_r, take_delete_same, drop_delete_same. reflexivity.
    + rewrite Ht. destruct (fst (Ball.update (now i) b)).
      * rewrite length_insert. lia.
      * rewrite length_delete by (eexists; exact Hb). lia.
Qed.

(** X15. The backward loop with splice() of update() skips no ball and
    visits none twice: the balls tracked after a frame are exactly
    those whose update() returned true, in their former order, each
    as its update() left it; [now i] is the clock reading inside the
    update() of the ball at index [i]. *)
Theorem update_keeps_survivors
    (gp : Seagull.CatmullRomCurve3 -> R -> Vector3.t) (dt : Q)
    (gd : nat -> R) (now : nat -> Z) (s : ExampleScene.t) :
  ExampleScene.balls (ExampleScene.update gp dt gd now s)
  = survivors now 0 (ExampleScene.balls s).
Proof.
  unfold ExampleScene.update.
  set (s0 := ExampleScene.mk _ _ _ _ _ _ _ _).
  change (ExampleScene.balls s) with (ExampleScene.balls s0).
  rewrite balls_loop_survivors by reflexivity.
  now rewrite firstn_all, drop_all, app_nil_r.
Qed.

Lemma hitSeagull_hit_flag (i : nat) (s : ExampleScene.t)
    (gl : Seagull.t ExampleScene.Hud) :
  ExampleScene.seagulls s !! i = Some gl ->
  exists gl',
    ExampleScene.seagulls (ExampleScene.hitSeagull i s) !! i = Some gl'
    /\ Seagull.isHit gl' = true.
Proof.
  intros Hi. unfold ExampleScene.hitSeagull. rewrite Hi.
  pose proof (seagull_hit_sets_flag gl (ExampleScene.stage s)
                (ExampleScene.hud s)) as Hf.
  destruct (Seagull.hit gl (ExampleScene.stage s) (ExampleScene.hud s))
    as [[g' st'] h']. cbn [fst] in Hf.
  exists g'. cbn [ExampleScene.seagulls]. split; [| exact Hf].
  apply list_lookup_insert_eq. eapply lookup_lt_Some. exact Hi.
Qed.

Lemma hitSeagull_on_hit (i : nat) (s : ExampleScene.t)
    (gl : Seagull.t ExampleScene.Hud) :
  ExampleScene.seagulls s !! i = Some gl -> Seagull.isHit gl = true ->
  ExampleScene.hitSeagull i s = s.
Proof.
  intros Hi Hh. unfold ExampleScene.hitSeagull, Seagull.hit.
  rewrite Hi, Hh. rewrite list_insert_id by exact Hi. now destruct s.
Qed.

Lemma collide_as_hit (i : nat) (s : ExampleScene.t) :
  ExampleScene.onBallCollide (Some i) s = ExampleScene.hitSeagull i s.
Proof.
  unfold ExampleScene.onBallCollide.
  destruct (ExampleScene.seagulls s !! i) as [gl |] eqn:Hi.
  - destruct (Seagull.isHit gl) eqn:Hh; [| reflexivity].
    symmetry. eapply hitSeagull_on_hit; eassumption.
  - now rewrite hitSeagull_out_of_range.
Qed.

(** X16. Both collision paths do the same thing to the scene: the
    guard [!seagull.isHit] of onBallCollide is the one hit() has
    itself, so reporting a collision with seagull [i] is calling hit()
    on it; and hitting the same seagull a second time changes nothing
    in the scene. *)
Theorem collide_is_hit_and_hit_is_idempotent (i : nat) (s : ExampleScene.t) :
  ExampleScene.onBallCollide (Some i) s = ExampleScene.hitSeagull i s
  /\ ExampleScene.hitSeagull i (ExampleScene.hitSeagull i s)
     = ExampleScene.hitSeagull i s.
Proof.
  split; [apply collide_as_hit |].
  destruct (ExampleScene.seagulls s !! i) as [gl |] eqn:Hi.
  - destruct (hitSeagull_hit_flag i s gl Hi) as (gl' & Hi' & Hh').
    eapply hitSeagull_on_hit; eassumption.
  - now rewrite !hitSeagull_out_of_range
      by (rewrite ?hitSeagull_out_of_range; assumption).
Qed.

Lemma world_inv_turn (now : Z) (i : nat) (s : ExampleScene.t) :
  world_inv s -> world_inv (ExampleScene.loop_turn now i s).
Proof.
  intros [[rest Hg] Hm Hb].
  destruct (ExampleScene.balls s !! i) as [b |] eqn:Hi.
  2:{ unfold ExampleScene.loop_turn. rewrite Hi. split; eauto. }
  destruct (ball_update_keeps now b) as (_ & _ & Hbd & _ & _). cbv zeta in Hbd.
  assert (Hb0 : Ball.bodyId (Ball.body b) <> PhysicsWorld.groundBody)
    by (eapply Forall_lookup_1 in Hb; eauto).
  assert (Hins : Forall (fun b => Ball.bodyId (Ball.body b)
                                  <> PhysicsWorld.groundBody)
                   (<[i := snd (Ball.update now b)]> (ExampleScene.balls s))).
  { apply Forall_insert; [exact Hb | now rewrite Hbd]. }
  destruct (loop_turn_cases now i s b Hi) as [[_ ->] | [_ ->]].
  - split; cbn [ExampleScene.set_balls ExampleScene.physicsWorld
                ExampleScene.balls]; eauto.
  - rewrite removeDead_eq. rewrite Hbd.
    split; cbn [ExampleScene.set_balls ExampleScene.physicsWorld
                ExampleScene.balls PhysicsWorld.removeBody PhysicsWorld.bodies
                PhysicsWorld.world PhysicsWorld.World_removeBody
                PhysicsWorld.wbodies].
    + exists (PhysicsWorld.remove_first (Ball.bodyId (Ball.body b)) rest).
      rewrite Hg. cbn [PhysicsWorld.remove_first].
      destruct (Nat.eqb_spec PhysicsWorld.groundBody (Ball.bodyId (Ball.body b)));
        [congruence | reflexivity].
    + now rewrite Hm.
    + rewrite delete_insert_same. now apply Forall_delete.
Qed.

Lemma world_inv_loop (now : nat -> Z) (n : nat) (s : ExampleScene.t) :
  world_inv s -> world_inv (ExampleScene.balls_loop now n s).
Proof.
  revert s. induction n as [| i IH]; intros s H; [exact H |].
  cbn [ExampleScene.balls_loop]. now apply IH, world_inv_turn.
Qed.

Lemma world_inv_event gp (e : SceneEvent) (s : ExampleScene.t) :
  scene_wf s -> world_inv s -> world_inv (scene_event gp s e).
Proof.
  intros Hwf H. destruct e as [dt gd now | pos vel now | i | [i |] | i];
    cbn [scene_event].
  - unfold ExampleScene.update. apply world_inv_loop.
    destruct H as [[rest Hg] Hm Hb].
    destruct (physics_update_bodies dt (ExampleScene.physicsWorld s))
      as [Eb Ew].
    split; cbn [ExampleScene.physicsWorld ExampleScene.balls];
      rewrite ?Eb, ?Ew; eauto.
  - destruct H as [[rest Hg] Hm Hb]. unfold ExampleScene.throwBall.
    assert (Hnb : Ball.bodyId (Ball.getBody
                    (Ball.create pos vel (Some ExampleScene.collideCallback)
                       now (ExampleScene.nextId s)))
                  ∉ PhysicsWorld.wbodies
                      (PhysicsWorld.world (ExampleScene.physicsWorld s))).
    { intros Hin. apply (sw_engine _ Hwf) in Hin.
      cbn [Ball.create Ball.getBody Ball.body Ball.bodyId] in Hin. lia. }
    unfold PhysicsWorld.addBody. rewrite (World_addBody_fresh _ _ Hnb).
    split; cbn [ExampleScene.physicsWorld ExampleScene.balls
                PhysicsWorld.bodies PhysicsWorld.world
                PhysicsWorld.wbodies].
    + exists (rest ++ [Ball.bodyId (Ball.getBody
                (Ball.create pos vel (Some ExampleScene.collideCallback) now
                   (ExampleScene.nextId s)))]).
      now rewrite Hg.
    + now rewrite Hm.
    + apply Forall_app. split; [exact Hb |]. constructor; [| constructor].
      unfold PhysicsWorld.groundBody. cbn. lia.
  - destruct (hitSeagull_keeps i s) as (Eb & Ep & _).
    destruct H as [Hg Hm Hb]. split; rewrite ?Ep, ?Eb; assumption.
  - unfold ExampleScene.onBallCollide.
    destruct (ExampleScene.seagulls s !! i) as [gl |]; [| exact H].
    destruct (Seagull.isHit gl); [exact H |].
    destruct (hitSeagull_keeps i s) as (Eb & Ep & _).
    destruct H as [Hg Hm Hb]. split; rewrite ?Ep, ?Eb; assumption.
  - exact H.
  - unfold ExampleScene.attachSeagull.
    destruct (ExampleScene.seagulls s !! i) as [gl |]; [| exact H].
    destruct (Seagull.getModel gl); [| exact H].
    destruct H as [Hg Hm Hb]. split; assumption.
Qed.

Lemma world_inv_create (sid : nat) (g : Js.Rng) :
  world_inv (ExampleScene.create sid g).
Proof.
  destruct (create_frame sid g) as (Eb & Ep & _).
  split; rewrite ?Ep, ?Eb.
  - now exists [].
  - reflexivity.
  - constructor.
Qed.

(** X17. In every scene reached from the constructor by frames, thrown
    balls, hits and timers, the ground plane is still a body of the
    physics world, and the engine holds exactly the bodies that the
    registry of PhysicsWorld lists, in the same order: removing the
    bodies of dead balls never removes anything else. *)
Theorem ground_plane_stays_registered
    (gp : Seagull.CatmullRomCurve3 -> R -> Vector3.t) (sid : nat)
    (g : Js.Rng) (es : list SceneEvent) :
  let pw := ExampleScene.physicsWorld (run gp es (ExampleScene.create sid g)) in
  PhysicsWorld.groundBody ∈ PhysicsWorld.bodies pw
  /\ PhysicsWorld.wbodies (PhysicsWorld.world pw) = PhysicsWorld.bodies pw.
Proof.
  cbv zeta.
  assert (H : world_inv (run gp es (ExampleScene.create sid g))).
  { induction es as [| e es IH] using rev_ind.
    - apply world_inv_create.
    - unfold run in *. rewrite fold_left_app. cbn [fold_left].
      apply world_inv_event; [| exact IH].
      exact (scene_wf_run gp sid g es). }
  destruct H as [[rest Hg] Hm _]. split; [| exact Hm].
  rewrite Hg. apply list_elem_of_here.
Qed.

Lemma game_inv_step (base : nat) (l : list nat) (i : nat)
    (s : ExampleScene.t) :
  game_inv base l s -> game_inv base (l ++ [i]) (ExampleScene.hitSeagull i s).
Proof.
  intros [Hlen Hg Hr Hs Hw].
  pose proof (distinct_hits_snoc l i) as Hd.
  pose proof (distinct_hits_le (l ++ [i])) as Hle.
  destruct (ExampleScene.seagulls s !! i) as [gl |] eqn:Hi.
  - assert (Hin : (i < ExampleScene.NUM_SEAGULLS)%nat)
      by (rewrite <- Hlen; eapply lookup_lt_Some; exact Hi).
    apply Nat.ltb_lt in Hin. rewrite Hin in Hd. cbn [andb] in Hd.
    destruct (Hg i gl Hi) as [Hflag Hcb].
    destruct (Seagull.isHit gl) eqn:Hh.
    + rewrite <- Hflag in Hd. cbn [negb] in Hd. rewrite Nat.add_0_r in Hd.
      rewrite (hitSeagull_on_hit i s gl Hi Hh).
      split; rewrite ?Hd; try assumption.
      intros k g' Hk. destruct (Hg k g' Hk) as [F C]. split; [| exact C].
      rewrite existsb_snoc, <- F.
      destruct (Nat.eqb_spec k i) as [-> | _]; [| now rewrite orb_false_r].
      replace g' with gl by congruence. rewrite Hh. reflexivity.
    + rewrite <- Hflag in Hd. cbn [negb] in Hd.
      destruct (hitSeagull_first_hit i s gl Hi (conj Hh Hcb))
        as (gl' & Hh' & Hcb' & Es & Eh).
      assert (Hlt : (i < length (ExampleScene.seagulls s))%nat)
        by (eapply lookup_lt_Some; exact Hi).
      assert (Hhud : ExampleScene.handleSeagullHit (ExampleScene.hud s)
                = if Nat.eqb (distinct_hits (l ++ [i])) ExampleScene.NUM_SEAGULLS
                  then ExampleScene.mkHud
                         (ExampleScene.remainingSeagulls (ExampleScene.hud s) - 1)
                         (Some true)
                         (S (ExampleScene.winSignals (ExampleScene.hud s)))
                  else ExampleScene.mkHud
                         (ExampleScene.remainingSeagulls (ExampleScene.hud s) - 1)
                         (ExampleScene.winScreen (ExampleScene.hud s))
                         (ExampleScene.winSignals (ExampleScene.hud s))).
      { unfold ExampleScene.handleSeagullHit, ExampleScene.showWinScreen.
        cbn [ExampleScene.remainingSeagulls ExampleScene.winScreen
             ExampleScene.winSignals]. rewrite Hr, Hw.
        destruct (Z.leb_spec
                    (Z.of_nat ExampleScene.NUM_SEAGULLS
                     - Z.of_nat (distinct_hits l) - 1) 0);
          destruct (Nat.eqb_spec (distinct_hits (l ++ [i]))
                      ExampleScene.NUM_SEAGULLS); try lia; reflexivity. }
      assert (Hold : Nat.eqb (distinct_hits l) ExampleScene.NUM_SEAGULLS = false)
        by (apply Nat.eqb_neq; lia).
      split; rewrite ?Es, ?Eh, ?Hhud.
      * now rewrite length_insert.
      * intros k g' Hk. rewrite existsb_snoc.
        destruct (Nat.eqb_spec k i) as [-> | Hne].
        -- rewrite list_lookup_insert_eq in Hk by exact Hlt.
           injection Hk as <-. rewrite orb_true_r. split; congruence.
        -- rewrite list_lookup_insert_ne in Hk by congruence.
           destruct (Hg k g' Hk) as [F C]. now rewrite orb_false_r.
      * destruct (Nat.eqb (distinct_hits (l ++ [i])) ExampleScene.NUM_SEAGULLS);
          cbn [ExampleScene.remainingSeagulls]; lia.
      * rewrite Hold in Hs.
        destruct (Nat.eqb (distinct_hits (l ++ [i])) ExampleScene.NUM_SEAGULLS);
          cbn [ExampleScene.winSignals]; lia.
      * rewrite Hold in Hw.
        destruct (Nat.eqb (distinct_hits (l ++ [i])) ExampleScene.NUM_SEAGULLS);
          cbn [ExampleScene.winScreen]; [reflexivity | exact Hw].
  - assert (Hout : (ExampleScene.NUM_SEAGULLS <= i)%nat)
      by (rewrite <- Hlen; apply lookup_ge_None; exact Hi).
    apply Nat.ltb_ge in Hout. rewrite Hout in Hd. cbn [andb] in Hd.
    rewrite Nat.add_0_r in Hd. rewrite (hitSeagull_out_of_range i s Hi).
    split; rewrite ?Hd; try assumption.
    intros k g' Hk. destruct (Hg k g' Hk) as [F C]. split; [| exact C].
    rewrite existsb_snoc, <- F.
    destruct (Nat.eqb_spec k i) as [-> | _]; [congruence |].
    now rewrite orb_false_r.
Qed.

Lemma game_inv_same (base : nat) (l : list nat) (s s' : ExampleScene.t) :
  ExampleScene.hud s' = ExampleScene.hud s ->
  ExampleScene.seagulls s' = ExampleScene.seagulls s ->
  game_inv base l s -> game_inv base l s'.
Proof.
  intros Eh Es [H1 H2 H3 H4 H5]. split; rewrite ?Eh, ?Es; assumption.
Qed.

Lemma game_inv_event gp (base : nat) (l : list nat) (e : SceneEvent)
    (s : ExampleScene.t) :
  game_inv base l s -> game_inv base (l ++ event_hits e) (scene_event gp s e).
Proof.
  intros H. destruct e as [dt gd now | pos vel now | i | [i |] | i];
    cbn [event_hits scene_event]; rewrite ?app_nil_r.
  - destruct H as [H1 H2 H3 H4 H5]. unfold ExampleScene.update.
    set (s0 := ExampleScene.mk _ _ _ _ _ _ _ _).
    destruct (balls_loop_frame now (length (ExampleScene.balls s)) s0)
      as (Eh & Es & _).
    split; rewrite ?Eh, ?Es; cbn [s0 ExampleScene.hud ExampleScene.seagulls];
      try assumption.
    + now rewrite length_imap.
    + intros k gl Hk. rewrite list_lookup_imap in Hk.
      destruct (ExampleScene.seagulls s !! k) as [g0 |] eqn:E; [| easy].
      injection Hk as <-. destruct (H2 k g0 E) as [F C].
      destruct (seagull_update_keeps gp (gd k) g0)
        as (-> & _ & _ & _ & _ & _ & _ & ->).
      easy.
  - eapply game_inv_same; [| | exact H]; reflexivity.
  - now apply game_inv_step.
  - rewrite collide_as_hit. now apply game_inv_step.
  - exact H.
  - unfold ExampleScene.attachSeagull.
    destruct (ExampleScene.seagulls s !! i) as [gl |]; [| exact H].
    destruct (Seagull.getModel gl); [| exact H].
    eapply game_inv_same; [| | exact H]; reflexivity.
Qed.

Lemma game_inv_run gp (base : nat) (es : list SceneEvent)
    (s : ExampleScene.t) :
  game_inv base [] s -> game_inv base (hit_indices es) (run gp es s).
Proof.
  intros H. induction es as [| e es IH] using rev_ind.
  - exact H.
  - unfold run, hit_indices in *. rewrite fold_left_app, flat_map_app.
    cbn [fold_left flat_map]. rewrite app_nil_r.
    now apply game_inv_event.
Qed.

Lemma spawn_many_stage (n : nat) (s : ExampleScene.t) :
  let s' := Nat.iter n ExampleScene.spawnSeagull s in
  ExampleScene.stage s' = ExampleScene.stage s
  /\ ExampleScene.sceneId s' = ExampleScene.sceneId s
  /\ ExampleScene.balls s' = ExampleScene.balls s
  /\ ExampleScene.physicsWorld s' = ExampleScene.physicsWorld s.
Proof.
  cbv zeta. induction n as [| n (H1 & H2 & H3 & H4)]; [easy |].
  rewrite Nat.iter_succ.
  generalize dependent (Nat.iter n ExampleScene.spawnSeagull s).
  intros s1 H1 H2 H3 H4. unfold ExampleScene.spawnSeagull.
  destruct (Seagull.create _ _ _) as [g0 r1].
  destruct (Seagull.setBounds _ _ _ _) as [g1 r2].
  cbn [ExampleScene.stage ExampleScene.sceneId ExampleScene.balls
       ExampleScene.physicsWorld]. easy.
Qed.

Lemma initSeagulls_stage (s : ExampleScene.t) :
  ExampleScene.stage (ExampleScene.initSeagulls s) = ExampleScene.stage s
  /\ ExampleScene.sceneId (ExampleScene.initSeagulls s) = ExampleScene.sceneId s
  /\ ExampleScene.balls (ExampleScene.initSeagulls s) = ExampleScene.balls s
  /\ ExampleScene.physicsWorld (ExampleScene.initSeagulls s)
     = ExampleScene.physicsWorld s.
Proof.
  unfold ExampleScene.initSeagulls. cbv zeta.
  set (s0 := ExampleScene.mk _ _ (ExampleScene.mkHud _ _ _) _ _ _ _ _).
  destruct (spawn_many_stage ExampleScene.NUM_SEAGULLS s0) as (H1 & H2 & H3 & H4).
  revert H1 H2 H3 H4.
  generalize (Nat.iter ExampleScene.NUM_SEAGULLS ExampleScene.spawnSeagull s0).
  intros s1 H1 H2 H3 H4.
  cbn [ExampleScene.stage ExampleScene.sceneId ExampleScene.balls
       ExampleScene.physicsWorld]. rewrite H1, H2, H3, H4. easy.
Qed.

Lemma playAgain_game_inv (s : ExampleScene.t) :
  game_inv (ExampleScene.winSignals (ExampleScene.hud s)) []
           (ExampleScene.playAgain s).
Proof.
  unfold ExampleScene.playAgain, ExampleScene.resetGame.
  set (s0 := ExampleScene.mk _ _ _ [] _ _ _ _).
  destruct (initSeagulls_post s0) as (xs & Hl & Hf & Hs & Hh).
  revert Hs Hh. generalize (ExampleScene.initSeagulls s0).
  intros s1 Hs Hh. cbn [app] in Hs.
  split; rewrite ?Hs, ?Hh; cbn [ExampleScene.remainingSeagulls
    ExampleScene.winSignals ExampleScene.winScreen s0 ExampleScene.hud].
  - exact Hl.
  - intros k gl Hk. eapply Forall_lookup_1 in Hf; [| exact Hk]. exact Hf.
  - reflexivity.
  - cbn. lia.
  - reflexivity.
Qed.

(** X18. "Play Again" starts a new game whatever the state of the old
    one: after the click and any further events, the countdown is 5
    minus the number of distinct new seagulls hit, the win screen is
    displayed exactly when all 5 have been hit, and showWinScreen has
    been called once more than before the click in that case and not
    again otherwise. *)
Theorem play_again_restarts_countdown
    (gp : Seagull.CatmullRomCurve3 -> R -> Vector3.t) (s : ExampleScene.t)
    (es : list SceneEvent) :
  let s' := run gp es (ExampleScene.playAgain s) in
  let n := distinct_hits (hit_indices es) in
  length (ExampleScene.seagulls s') = 5%nat
  /\ ExampleScene.remainingSeagulls (ExampleScene.hud s') = (5 - Z.of_nat n)%Z
  /\ ExampleScene.winScreen (ExampleScene.hud s') = Some (Nat.eqb n 5)
  /\ ExampleScene.winSignals (ExampleScene.hud s')
     = (ExampleScene.winSignals (ExampleScene.hud s)
        + if Nat.eqb n 5 then 1 else 0)%nat.
Proof.
  cbv zeta.
  destruct (game_inv_run gp _ es _ (playAgain_game_inv s))
    as [Hl _ Hr Hs Hw].
  split; [exact Hl | split; [exact Hr | split; [exact Hw | exact Hs]]].
Qed.

Lemma detach_all_gone (gs : list (Seagull.t ExampleScene.Hud)) (st : Stage) :
  let st' := fold_left ExampleScene.detachSeagull gs st in
  disposeLog st' = disposeLog st
  /\ (forall c q, parentOf c st' = Some q -> parentOf c st = Some q)
  /\ (forall c, (forall gl m, gl ∈ gs -> Seagull.model gl = Some m ->
                            Seagull.gid m <> c) ->
                parentOf c st' = parentOf c st)
  /\ (forall gl m, gl ∈ gs -> Seagull.model gl = Some m ->
        parentOf (Seagull.gid m) st' = None).
Proof.
  cbv zeta. revert st. induction gs as [| g gs IH]; intros st.
  - cbn [fold_left]. split; [| split; [| split]]; easy.
  - cbn [fold_left]. destruct (IH (ExampleScene.detachSeagull st g))
      as (Hlog & Hsub & Hsame & Hgone).
    assert (Hd1 : disposeLog (ExampleScene.detachSeagull st g) = disposeLog st).
    { unfold ExampleScene.detachSeagull, Seagull.getModel.
      destruct (Seagull.model g) as [m |]; [| reflexivity]. apply detach_log. }
    assert (Hd2 : forall c q,
               parentOf c (ExampleScene.detachSeagull st g) = Some q ->
               parentOf c st = Some q).
    { intros c q. unfold ExampleScene.detachSeagull, Seagull.getModel.
      destruct (Seagull.model g) as [m |]; [| easy].
      destruct (parentOf (Seagull.gid m) st) as [p |]; [| easy].
      apply Object3D_remove_shrinks. }
    split; [| split; [| split]].
    + now rewrite Hlog.
    + intros c q H. apply Hd2, Hsub, H.
    + intros c Hc. rewrite Hsame.
      * unfold ExampleScene.detachSeagull, Seagull.getModel.
        destruct (Seagull.model g) as [m |] eqn:Em; [| reflexivity].
        destruct (parentOf (Seagull.gid m) st) as [p |] eqn:Ep; [| reflexivity].
        assert (Hne : Seagull.gid m <> c)
          by (apply (Hc g m); [apply list_elem_of_here | exact Em]).
        unfold Object3D_remove, parentOf in *. rewrite Ep, Nat.eqb_refl.
        cbn [graph]. now rewrite lookup_delete_ne.
      * intros gl m Hin. apply Hc. now apply list_elem_of_further.
    + intros gl m Hin Hm. apply elem_of_cons in Hin as [-> | Hin].
      * destruct (parentOf (Seagull.gid m)
                    (fold_left ExampleScene.detachSeagull gs
                       (ExampleScene.detachSeagull st g))) as [q |] eqn:E;
          [| reflexivity].
        apply Hsub in E. unfold ExampleScene.detachSeagull, Seagull.getModel in E.
        rewrite Hm in E. now rewrite detach_gone in E.
      * now apply (Hgone gl m).
Qed.

(** X19. resetGame takes every model of the old seagulls out of the
    scene graph, whatever its parent, and leaves every other object
    where it is; it releases nothing, so the resources of the seagulls
    that were not hit stay allocated; the balls and the physics world
    are carried over. *)
Theorem reset_detaches_old_seagulls (s : ExampleScene.t) :
  let s' := ExampleScene.resetGame s in
  (forall gl m, gl ∈ ExampleScene.seagulls s -> Seagull.model gl = Some m ->
     parentOf (Seagull.gid m) (ExampleScene.stage s') = None)
  /\ (forall c,
        (forall gl m, gl ∈ ExampleScene.seagulls s ->
                      Seagull.model gl = Some m -> Seagull.gid m <> c) ->
        parentOf c (ExampleScene.stage s') = parentOf c (ExampleScene.stage s))
  /\ disposeLog (ExampleScene.stage s') = disposeLog (ExampleScene.stage s)
  /\ ExampleScene.balls s' = ExampleScene.balls s
  /\ ExampleScene.physicsWorld s' = ExampleScene.physicsWorld s.
Proof.
  cbv zeta. unfold ExampleScene.resetGame.
  set (s0 := ExampleScene.mk _ _ _ [] _ _ _ _).
  destruct (initSeagulls_stage s0) as (Est & _ & Eb & Ep).
  rewrite Est, Eb, Ep. cbn [s0 ExampleScene.stage ExampleScene.balls
                            ExampleScene.physicsWorld].
  destruct (detach_all_gone (ExampleScene.seagulls s) (ExampleScene.stage s))
    as (Hlog & _ & Hsame & Hgone). cbv zeta in *.
  split; [exact Hgone | split; [exact Hsame | split; [exact Hlog |]]].
  split; reflexivity.
Qed.

Lemma removeModel_all (sid : nat) (gs : list (Seagull.t ExampleScene.Hud))
    (st : Stage) :
  let st' := fold_left (ExampleScene.removeModel sid) gs st in
  disposeLog st' = disposeLog st
  /\ (forall c q, parentOf c st' = Some q -> parentOf c st = Some q)
  /\ (forall c, (forall gl m, gl ∈ gs -> Seagull.model gl = Some m ->
                            Seagull.gid m <> c) ->
                parentOf c st' = parentOf c st)
  /\ (forall gl m, gl ∈ gs -> Seagull.model gl = Some m ->
        parentOf (Seagull.gid m) st' <> Some sid).
Proof.
  cbv zeta. revert st. induction gs as [| g gs IH]; intros st.
  - cbn [fold_left]. split; [| split; [| split]]; easy.
  - cbn [fold_left]. destruct (IH (ExampleScene.removeModel sid st g))
      as (Hlog & Hsub & Hsame & Hgone).
    assert (Hd1 : disposeLog (ExampleScene.removeModel sid st g)
                  = disposeLog st).
    { unfold ExampleScene.removeModel, Seagull.getModel.
      destruct (Seagull.model g) as [m |]; [| reflexivity].
      apply Object3D_remove_log. }
    assert (Hd2 : forall c q,
               parentOf c (ExampleScene.removeModel sid st g) = Some q ->
               parentOf c st = Some q).
    { intros c q. unfold ExampleScene.removeModel, Seagull.getModel.
      destruct (Seagull.model g) as [m |]; [| easy].
      apply Object3D_remove_shrinks. }
    split; [| split; [| split]].
    + now rewrite Hlog.
    + intros c q H. apply Hd2, Hsub, H.
    + intros c Hc. rewrite Hsame.
      * unfold ExampleScene.removeModel, Seagull.getModel.
        destruct (Seagull.model g) as [m |] eqn:Em; [| reflexivity].
        assert (Hne : Seagull.gid m <> c)
          by (apply (Hc g m); [apply list_elem_of_here | exact Em]).
        unfold Object3D_remove, parentOf.
        destruct (graph st !! Seagull.gid m) as [q |]; [| reflexivity].
        destruct (Nat.eqb q sid); [| reflexivity].
        cbn [graph]. now rewrite lookup_delete_ne.
      * intros gl m Hin. apply Hc. now apply list_elem_of_further.
    + intros gl m Hin Hm. apply elem_of_cons in Hin as [-> | Hin].
      * intros E. apply Hsub in E.
        unfold ExampleScene.removeModel, Seagull.getModel in E.
        rewrite Hm in E. now apply Object3D_remove_gone in E.
      * now apply (Hgone gl m).
Qed.

Lemma remove_first_keeps (x b : nat) (l : list nat) :
  x ∈ l -> b <> x -> x ∈ PhysicsWorld.remove_first b l.
Proof.
  induction l as [| a l IH]; intros Hin Hne; [now apply elem_of_nil in Hin |].
  cbn [PhysicsWorld.remove_first].
  apply elem_of_cons in Hin as [-> | Hin].
  - destruct (Nat.eqb_spec a b); [congruence | apply list_elem_of_here].
  - destruct (Nat.eqb a b); [exact Hin |].
    apply list_elem_of_further. now apply IH.
Qed.

Lemma disposeBall_all (bs : list Ball.t) (pw : PhysicsWorld.t) (st : Stage) :
  let x := fold_left ExampleScene.disposeBall bs (pw, st) in
  graph (snd x) = graph st
  /\ (Forall (fun b => Ball.disposed b = false) bs ->
      forall r, releases r (snd x) = (owners r bs + releases r st)%nat)
  /\ (forall y, y ∈ PhysicsWorld.bodies pw ->
        (forall b, b ∈ bs -> Ball.bodyId (Ball.body b) <> y) ->
        y ∈ PhysicsWorld.bodies (fst x)).
Proof.
  cbv zeta. revert pw st. induction bs as [| b bs IH]; intros pw st.
  - cbn [fold_left fst snd]. split; [| split]; try easy.
  - cbn [fold_left].
    change (ExampleScene.disposeBall (pw, st) b)
      with (PhysicsWorld.removeBody (Ball.bodyId (Ball.getBody b)) pw,
            snd (Ball.dispose b st)).
    destruct (IH (PhysicsWorld.removeBody (Ball.bodyId (Ball.getBody b)) pw)
                 (snd (Ball.dispose b st))) as (Hg & Hr & Hb).
    split; [| split].
    + rewrite Hg. apply ball_dispose_graph.
    + intros Hl r. apply Forall_cons in Hl as [Hl0 Hl].
      rewrite (Hr Hl r), (ball_dispose_releases r b st Hl0).
      unfold owners, list_sum. cbn [map fold_right]. lia.
    + intros y Hy Hne. apply Hb.
      * cbn [PhysicsWorld.removeBody PhysicsWorld.bodies].
        apply remove_first_keeps; [exact Hy |].
        apply Hne, list_elem_of_here.
      * intros b' Hin. apply Hne. now apply list_elem_of_further.
Qed.

(** X20. dispose() of the scene empties both lists, takes the seagull
    models out of the scene and releases the resources of every ball
    once, one release per owner; but every object that is no seagull
    model keeps its parent, so the ball meshes stay in the scene
    graph, nothing of the seagull models is released, and the bodies
    that belong to no ball, the ground plane among them, stay in the
    physics world. *)
Theorem scene_dispose_effects (s : ExampleScene.t) :
  Forall (fun b => Ball.disposed b = false) (ExampleScene.balls s) ->
  let s' := ExampleScene.dispose s in
  ExampleScene.seagulls s' = [] /\ ExampleScene.balls s' = []
  /\ (forall gl m, gl ∈ ExampleScene.seagulls s -> Seagull.model gl = Some m ->
        parentOf (Seagull.gid m) (ExampleScene.stage s')
        <> Some (ExampleScene.sceneId s))
  /\ (forall c,
        (forall gl m, gl ∈ ExampleScene.seagulls s ->
                      Seagull.model gl = Some m -> Seagull.gid m <> c) ->
        parentOf c (ExampleScene.stage s') = parentOf c (ExampleScene.stage s))
  /\ (forall r, releases r (ExampleScene.stage s')
                = (owners r (ExampleScene.balls s)
                   + releases r (ExampleScene.stage s))%nat)
  /\ (forall y, y ∈ PhysicsWorld.bodies (ExampleScene.physicsWorld s) ->
        (forall b, b ∈ ExampleScene.balls s ->
                   Ball.bodyId (Ball.body b) <> y) ->
        y ∈ PhysicsWorld.bodies (ExampleScene.physicsWorld s')).
Proof.
  intros Hl. cbv zeta. unfold ExampleScene.dispose.
  destruct (removeModel_all (ExampleScene.sceneId s) (ExampleScene.seagulls s)
              (ExampleScene.stage s)) as (Hlog & Hsub & Hsame & Hgone).
  cbv zeta in *.
  set (st1 := fold_left (ExampleScene.removeModel (ExampleScene.sceneId s))
                (ExampleScene.seagulls s) (ExampleScene.stage s)) in *.
  destruct (disposeBall_all (ExampleScene.balls s)
              (ExampleScene.physicsWorld s) st1) as (Hg & Hr & Hb).
  cbv zeta in *.
  destruct (fold_left ExampleScene.disposeBall (ExampleScene.balls s)
              (ExampleScene.physicsWorld s, st1)) as [pw st2].
  cbn [fst snd ExampleScene.seagulls ExampleScene.balls ExampleScene.stage
       ExampleScene.physicsWorld] in *.
  split; [reflexivity | split; [reflexivity |]].
  split; [| split; [| split]].
  - intros gl m Hin Hm. unfold parentOf. rewrite Hg. now apply (Hgone gl m).
  - intros c Hc. unfold parentOf at 1. rewrite Hg. now apply Hsame.
  - intros r. rewrite (Hr Hl r). unfold releases. now rewrite Hlog.
  - exact Hb.
Qed.

(** Witness: the demo scene, which tracks two live balls. *)
Lemma scene_dispose_effects_witness :
  let s' := ExampleScene.dispose demo_scene in
  ExampleScene.seagulls s' = [] /\ ExampleScene.balls s' = []
  /\ (forall gl m, gl ∈ ExampleScene.seagulls demo_scene ->
        Seagull.model gl = Some m ->
        parentOf (Seagull.gid m) (ExampleScene.stage s')
        <> Some (ExampleScene.sceneId demo_scene))
  /\ (forall c,
        (forall gl m, gl ∈ ExampleScene.seagulls demo_scene ->
                      Seagull.model gl = Some m -> Seagull.gid m <> c) ->
        parentOf c (ExampleScene.stage s')
        = parentOf c (ExampleScene.stage demo_scene))
  /\ (forall r, releases r (ExampleScene.stage s')
                = (owners r (ExampleScene.balls demo_scene)
                   + releases r (ExampleScene.stage demo_scene))%nat)
  /\ (forall y,
        y ∈ PhysicsWorld.bodies (ExampleScene.physicsWorld demo_scene) ->
        (forall b, b ∈ ExampleScene.balls demo_scene ->
                   Ball.bodyId (Ball.body b) <> y) ->
        y ∈ PhysicsWorld.bodies (ExampleScene.physicsWorld s')).
Proof.
  apply (scene_dispose_effects demo_scene).
  unfold demo_scene, ExampleScene.throwBall.
  cbn [ExampleScene.balls]. apply Forall_app. split.
  - apply Forall_app. split; [| repeat constructor].
    destruct (create_frame 0 demo_rng) as [-> _]. constructor.
  - repeat constructor.
Defined.

(** ** src/FirstPersonControls.ts *)

Lemma rotation_lengthSq (v : Vector3.t) (q : Quaternion.t) :
  unit_quaternion q ->
  Vector3.lengthSq (Quaternion.apply v q) = Vector3.lengthSq v.
Proof.
  unfold unit_quaternion, Vector3.lengthSq, Quaternion.apply.
  destruct v as [vx vy vz], q as [qx qy qz qw]. cbn. intros H.
  set (ax := (qy * vz - qz * vy)%R). set (ay := (qz * vx - qx * vz)%R).
  set (az := (qx * vy - qy * vx)%R).
  replace ((vx + qw * (2 * ax) + qy * (2 * az) - qz * (2 * ay))
           * (vx + qw * (2 * ax) + qy * (2 * az) - qz * (2 * ay))
           + (vy + qw * (2 * ay) + qz * (2 * ax) - qx * (2 * az))
             * (vy + qw * (2 * ay) + qz * (2 * ax) - qx * (2 * az))
           + (vz + qw * (2 * az) + qx * (2 * ay) - qy * (2 * ax))
             * (vz + qw * (2 * az) + qx * (2 * ay) - qy * (2 * ax)))%R
    with (vx * vx + vy * vy + vz * vz
          + 4 * (ax * ax + ay * ay + az * az)
            * (qx * qx + qy * qy + qz * qz + qw * qw - 1))%R
    by (unfold ax, ay, az; ring).
  rewrite H. ring.
Qed.





(** X22. A free-flight step never leaves a ball below the floor y = 0,
    and never leaves it crawling: after the step the ball is at rest
    or its squared speed is at least 0.1; above the floor its position
    is the old one plus velocity times delta. *)
Theorem integrate_floor_and_rest (delta : R)
    (b : FirstPersonControls.BallMesh) (v : Vector3.t) :
  let b' := FirstPersonControls.integrate delta b v in
  (0 <= Vector3.y (FirstPersonControls.position b'))%R
  /\ (exists v', FirstPersonControls.velocity b' = Some v'
                 /\ (v' = Vector3.zero \/ (1 / 10 <= Vector3.lengthSq v')%R))
  /\ ((0 < Vector3.y (FirstPersonControls.position b'))%R ->
      FirstPersonControls.position b'
      = Vector3.addScaledVector (FirstPersonControls.position b) v delta)
  /\ FirstPersonControls.ballId b' = FirstPersonControls.ballId b.
Proof.
  cbv zeta. unfold FirstPersonControls.integrate.
  remember (Vector3.addScaledVector (FirstPersonControls.position b) v delta)
    as p1 eqn:Ep1. clear Ep1.
  destruct (Rlt_dec (Vector3.y p1) 0) as [Hlow | Hup];
    match goal with
    | |- context [Rlt_dec (Vector3.lengthSq ?w) (1 / 10)] =>
        destruct (Rlt_dec (Vector3.lengthSq w) (1 / 10)) as [Hs | Hs]
    end;
    cbn [FirstPersonControls.position FirstPersonControls.velocity
         FirstPersonControls.ballId Vector3.y].
  - split; [apply Rle_refl | split; [| split; [| reflexivity]]].
    + eexists. split; [reflexivity | now left].
    + intros H. exfalso. exact (Rlt_irrefl 0 H).
  - split; [apply Rle_refl | split; [| split; [| reflexivity]]].
    + eexists. split; [reflexivity | right; apply Rnot_lt_le, Hs].
    + intros H. exfalso. exact (Rlt_irrefl 0 H).
  - split; [apply Rnot_lt_le, Hup | split; [| split; reflexivity]].
    eexists. split; [reflexivity | now left].
  - split; [apply Rnot_lt_le, Hup | split; [| split; reflexivity]].
    eexists. split; [reflexivity | right; apply Rnot_lt_le, Hs].
Qed.

Lemma addScaled_zero (p : Vector3.t) (d : R) :
  Vector3.addScaledVector p Vector3.zero d = p.
Proof.
  destruct p as [px py pz]. unfold Vector3.addScaledVector, Vector3.zero.
  cbn. f_equal; ring.
Qed.

(** X23. A ball that has come to rest stays where it is, on the floor
    or above it: with velocity zero, a frame shorter than 30 ms and
    whatever the raycaster returns, the step leaves the ball exactly
    as it was, because the speed that gravity adds in one frame is
    below the rest threshold. *)
Theorem resting_ball_stays (collidable : nat)
    (ints : list FirstPersonControls.Intersection) (delta : R)
    (b : FirstPersonControls.BallMesh) :
  FirstPersonControls.velocity b = Some Vector3.zero ->
  (0 <= Vector3.y (FirstPersonControls.position b))%R ->
  (0 <= delta < 3 / 100)%R ->
  Forall (fun c => 0 <= FirstPersonControls.distance c)%R ints ->
  FirstPersonControls.stepBall collidable ints delta b
  = FirstPersonControls.Integrated b.
Proof.
  intros Hv Hy Hd Hi. unfold FirstPersonControls.stepBall. rewrite Hv.
  assert (Hz : Vector3.length Vector3.zero = 0%R).
  { apply length_zero. unfold Vector3.lengthSq, Vector3.zero. cbn. ring. }
  rewrite Hz, Rmult_0_l.
  assert (Hint : FirstPersonControls.integrate delta b Vector3.zero = b).
  { unfold FirstPersonControls.integrate. rewrite addScaled_zero.
    destruct (Rlt_dec (Vector3.y (FirstPersonControls.position b)) 0); [lra |].
    unfold Vector3.zero at 1 2 3. cbn [Vector3.x Vector3.y Vector3.z].
    match goal with
    | |- context [Rlt_dec ?a ?t] =>
        destruct (Rlt_dec a t) as [_ | Hno]
    end.
    - destruct b as [i p w]. cbn in *. now rewrite Hv.
    - exfalso. apply Hno. unfold Vector3.lengthSq. cbn. nra. }
  destruct (Nat.ltb 0 collidable); [| now rewrite Hint].
  destruct ints as [| c r]; [now rewrite Hint |].
  apply Forall_cons in Hi as [Hc _].
  destruct (Rlt_dec (FirstPersonControls.distance c) 0); [lra |].
  now rewrite Hint.
Qed.

(** Witness: a ball resting five units above the floor, a frame of
    16 ms, the floor tile in the raycaster's answer. *)
Lemma resting_ball_stays_witness :
  FirstPersonControls.stepBall 1 [floor_tile] (16 / 1000) (resting_ball 5)
  = FirstPersonControls.Integrated (resting_ball 5).
Proof.
  apply (resting_ball_stays 1 [floor_tile] (16 / 1000) (resting_ball 5)).
  - reflexivity.
  - cbn. lra.
  - lra.
  - repeat constructor. cbn. lra.
Defined.

Lemma length_of_square (v : Vector3.t) (k : R) :
  (0 <= k)%R -> Vector3.lengthSq v = (k * k)%R -> Vector3.length v = k.
Proof.
  intros Hk H. unfold Vector3.length. rewrite H.
  apply sqrt_square, Hk.
Qed.

(** X24. Whatever way the camera faces, a thrown ball leaves at speed
    100 from a point half a unit away from the camera, along the
    camera's forward axis; throwBall tracks it last and makes it a
    child of the scene. *)
Theorem thrown_ball_speed (cam : FirstPersonControls.Camera) (oid : nat)
    (ctl : FirstPersonControls.t) (sc : ExampleScene.t) :
  unit_quaternion (FirstPersonControls.cameraQuaternion cam) ->
  let b := FirstPersonControls.newBall cam oid in
  let r := FirstPersonControls.throwBall cam oid ctl sc in
  (exists v, FirstPersonControls.velocity b = Some v
             /\ Vector3.length v = 100%R
             /\ FirstPersonControls.position b
                = Vector3.addScaledVector
                    (FirstPersonControls.cameraPosition cam) v (5 / 1000))
  /\ Vector3.length
       (Vector3.sub (FirstPersonControls.position b)
                    (FirstPersonControls.cameraPosition cam)) = (5 / 10)%R
  /\ FirstPersonControls.balls (fst r) = FirstPersonControls.balls ctl ++ [b]
  /\ parentOf oid (ExampleScene.stage (snd r))
     = Some (ExampleScene.sceneId sc).
Proof.
  intros Hq. cbv zeta. unfold FirstPersonControls.throwBall,
    FirstPersonControls.newBall.
  set (d := Quaternion.apply (Vector3.mk 0 0 (-1))
              (FirstPersonControls.cameraQuaternion cam)).
  assert (Hd : Vector3.lengthSq d = 1%R).
  { unfold d. rewrite rotation_lengthSq by exact Hq.
    unfold Vector3.lengthSq. cbn. ring. }
  clearbody d.
  cbn [FirstPersonControls.velocity FirstPersonControls.position
       FirstPersonControls.balls FirstPersonControls.ballId fst snd
       FirstPersonControls.set_stage ExampleScene.stage].
  split; [| split; [| split]].
  - eexists. split; [reflexivity | split].
    + apply length_of_square; [unfold FirstPersonControls.BALL_SPEED; lra |].
      rewrite lengthSq_scaled, Hd. unfold FirstPersonControls.BALL_SPEED. lra.
    + unfold Vector3.addScaledVector, Vector3.multiplyScalar,
        FirstPersonControls.BALL_SPEED. cbn. f_equal; field.
  - apply length_of_square; [lra |].
    unfold Vector3.lengthSq in *. unfold Vector3.sub, Vector3.addScaledVector.
    cbn.
    replace ((Vector3.x (FirstPersonControls.cameraPosition cam)
              + Vector3.x d * (5 / 10)
              - Vector3.x (FirstPersonControls.cameraPosition cam))
             * (Vector3.x (FirstPersonControls.cameraPosition cam)
                + Vector3.x d * (5 / 10)
                - Vector3.x (FirstPersonControls.cameraPosition cam))
             + (Vector3.y (FirstPersonControls.cameraPosition cam)
                + Vector3.y d * (5 / 10)
                - Vector3.y (FirstPersonControls.cameraPosition cam))
               * (Vector3.y (FirstPersonControls.cameraPosition cam)
                  + Vector3.y d * (5 / 10)
                  - Vector3.y (FirstPersonControls.cameraPosition cam))
             + (Vector3.z (FirstPersonControls.cameraPosition cam)
                + Vector3.z d * (5 / 10)
                - Vector3.z (FirstPersonControls.cameraPosition cam))
               * (Vector3.z (FirstPersonControls.cameraPosition cam)
                  + Vector3.z d * (5 / 10)
                  - Vector3.z (FirstPersonControls.cameraPosition cam)))%R
      with (25 / 100 * (Vector3.x d * Vector3.x d + Vector3.y d * Vector3.y d
                        + Vector3.z d * Vector3.z d))%R by field.
    rewrite Hd. field.
  - reflexivity.
  - unfold parentOf, Object3D_add. cbn [graph]. apply lookup_insert_eq.
Qed.

(** Witness: the demo camera throws mesh 90 into the demo scene. *)
Lemma thrown_ball_speed_witness :
  let b := FirstPersonControls.newBall demo_camera 90 in
  let r := FirstPersonControls.throwBall demo_camera 90
             (FirstPersonControls.mk [] []) demo_scene in
  (exists v, FirstPersonControls.velocity b = Some v
             /\ Vector3.length v = 100%R
             /\ FirstPersonControls.position b
                = Vector3.addScaledVector
                    (FirstPersonControls.cameraPosition demo_camera) v
                    (5 / 1000))
  /\ Vector3.length
       (Vector3.sub (FirstPersonControls.position b)
                    (FirstPersonControls.cameraPosition demo_camera))
     = (5 / 10)%R
  /\ FirstPersonControls.balls (fst r) = [] ++ [b]
  /\ parentOf 90 (ExampleScene.stage (snd r))
     = Some (ExampleScene.sceneId demo_scene).
Proof.
  apply (thrown_ball_speed demo_camera 90 (FirstPersonControls.mk [] [])
           demo_scene).
  unfold unit_quaternion. cbn. ring.
Defined.

Lemma resolve_game_inv (base : nat) (l : list nat) (i : nat)
    (b : FirstPersonControls.BallMesh) (c : FirstPersonControls.Intersection)
    (ctl : FirstPersonControls.t) (sc : ExampleScene.t) :
  game_inv base l sc ->
  exists h, (length h <= 1)%nat
    /\ game_inv base (l ++ h)
         (snd (FirstPersonControls.resolveSeagullHit i b c ctl sc)).
Proof.
  intros H. unfold FirstPersonControls.resolveSeagullHit.
  set (sc1 := match FirstPersonControls.find_owner _ _ _ with
              | Some k => ExampleScene.hitSeagull k sc
              | None => sc
              end).
  assert (H1 : exists h, (length h <= 1)%nat /\ game_inv base (l ++ h) sc1).
  { unfold sc1. destruct (FirstPersonControls.find_owner _ _ _) as [k |].
    - exists [k]. split; [simpl; lia | now apply game_inv_step].
    - exists []. split; [simpl; lia | now rewrite app_nil_r]. }
  destruct H1 as (h & Hh & Hinv). exists h. split; [exact Hh |].
  destruct (parentOf _ _) as [p |]; [| exact Hinv].
  destruct (Nat.eqb p _); [| exact Hinv].
  cbn [snd]. eapply game_inv_same; [| | exact Hinv]; reflexivity.
Qed.

Lemma raycast_loop_game_inv (cast : nat -> list FirstPersonControls.Intersection)
    (delta : R) (base : nat) (n : nat) (l : list nat)
    (ctl : FirstPersonControls.t) (sc : ExampleScene.t) :
  game_inv base l sc ->
  exists hits, (length hits <= n)%nat
    /\ game_inv base (l ++ hits)
         (snd (FirstPersonControls.balls_loop cast delta n ctl sc)).
Proof.
  revert l ctl sc. induction n as [| i IH]; intros l ctl sc H.
  - exists []. split; [simpl; lia | now rewrite app_nil_r].
  - cbn [FirstPersonControls.balls_loop].
    assert (Hskip : forall ctl',
              exists hits, (length hits <= S i)%nat
                /\ game_inv base (l ++ hits)
                     (snd (FirstPersonControls.balls_loop cast delta i ctl' sc))).
    { intros ctl'. destruct (IH l ctl' sc H) as (hs & Hl & Hi).
      exists hs. split; [lia | exact Hi]. }
    destruct (FirstPersonControls.balls ctl !! i) as [b |]; [| apply Hskip].
    destruct (FirstPersonControls.stepBall _ _ _ _) as [| c | b' | b'];
      try apply Hskip.
    destruct (resolve_game_inv base l i b c ctl sc H) as (h & Hh & Hinv).
    destruct (FirstPersonControls.resolveSeagullHit i b c ctl sc)
      as [ctl1 sc1]. cbn [snd] in Hinv.
    destruct (IH (l ++ h) ctl1 sc1 Hinv) as (hs & Hl & Hi).
    exists (h ++ hs). split; [rewrite length_app; lia |].
    now rewrite app_assoc.
Qed.

(** X25. The raycast loop of FirstPersonControls.update acts on the
    countdown only as a series of hit() calls, at most one for each
    ball: run in any scene reached from the constructor, it leaves the
    countdown at 5 minus the number of distinct seagulls hit so far,
    with the win screen displayed and showWinScreen called once
    exactly when that number is 5. *)
Theorem raycast_loop_keeps_countdown
    (gp : Seagull.CatmullRomCurve3 -> R -> Vector3.t) (sid : nat)
    (g : Js.Rng) (es : list SceneEvent)
    (cast : nat -> list FirstPersonControls.Intersection) (delta : R)
    (ctl : FirstPersonControls.t) :
  let sc := run gp es (ExampleScene.create sid g) in
  let sc' := snd (FirstPersonControls.balls_loop cast delta
                    (length (FirstPersonControls.balls ctl)) ctl sc) in
  exists hits,
    (length hits <= length (FirstPersonControls.balls ctl))%nat
    /\ let k := distinct_hits (hit_indices es ++ hits) in
       ExampleScene.remainingSeagulls (ExampleScene.hud sc')
       = (5 - Z.of_nat k)%Z
       /\ ExampleScene.winScreen (ExampleScene.hud sc') = Some (Nat.eqb k 5)
       /\ ExampleScene.winSignals (ExampleScene.hud sc')
          = (if Nat.eqb k 5 then 1 else 0)%nat
       /\ (distinct_hits (hit_indices es) <= k <= 5)%nat.
Proof.
  cbv zeta.
  assert (H0 : game_inv 0 [] (ExampleScene.create sid g)).
  { destruct (win_inv_create sid g) as [H1 H2 H3 H4 H5].
    split; assumption. }
  pose proof (game_inv_run gp 0 es _ H0) as H.
  destruct (raycast_loop_game_inv cast delta 0
              (length (FirstPersonControls.balls ctl)) _ ctl _ H)
    as (hits & Hl & [_ _ Hr Hs Hw]).
  exists hits. split; [exact Hl |]. cbv zeta.
  split; [exact Hr | split; [exact Hw | split; [exact Hs |]]].
  split; [| apply distinct_hits_le].
  clear. induction hits as [| h hs IH] using rev_ind.
  - now rewrite app_nil_r.
  - rewrite app_assoc, distinct_hits_snoc. lia.
Qed.

Lemma stepBall_blind (ints : list FirstPersonControls.Intersection)
    (delta : R) (b : FirstPersonControls.BallMesh)
    (c : FirstPersonControls.Intersection) :
  FirstPersonControls.stepBall 0 ints delta b
  <> FirstPersonControls.HitSeagull c.
Proof.
  unfold FirstPersonControls.stepBall.
  destruct (FirstPersonControls.velocity b); [| discriminate].
  cbn [Nat.ltb Nat.leb]. discriminate.
Qed.

(** X26. Without collidable meshes the raycast loop is blind: whatever
    the raycaster would return, no seagull is hit and no ball is
    removed; the scene comes back as it was and the controls track as
    many balls as before. *)
Theorem raycast_loop_blind_without_meshes
    (cast : nat -> list FirstPersonControls.Intersection) (delta : R)
    (n : nat) (ctl : FirstPersonControls.t) (sc : ExampleScene.t) :
  FirstPersonControls.collidableMeshes ctl = [] ->
  let r := FirstPersonControls.balls_loop cast delta n ctl sc in
  snd r = sc
  /\ length (FirstPersonControls.balls (fst r))
     = length (FirstPersonControls.balls ctl)
  /\ FirstPersonControls.collidableMeshes (fst r) = [].
Proof.
  cbv zeta. revert ctl. induction n as [| i IH]; intros ctl Hc.
  - cbn. auto.
  - cbn [FirstPersonControls.balls_loop].
    destruct (FirstPersonControls.balls ctl !! i) as [b |]; [| now apply IH].
    rewrite Hc. cbn [length].
    pose proof (stepBall_blind (cast i) delta b) as Hb.
    destruct (FirstPersonControls.stepBall 0 (cast i) delta b)
      as [| c | b' | b'].
    + now apply IH.
    + now destruct (Hb c).
    + destruct (IH (FirstPersonControls.mk
                      (<[i := b']> (FirstPersonControls.balls ctl)) []))
        as (H1 & H2 & H3); [reflexivity |].
      rewrite H1, H2, H3. cbn [FirstPersonControls.balls].
      now rewrite length_insert.
    + destruct (IH (FirstPersonControls.mk
                      (<[i := b']> (FirstPersonControls.balls ctl)) []))
        as (H1 & H2 & H3); [reflexivity |].
      rewrite H1, H2, H3. cbn [FirstPersonControls.balls].
      now rewrite length_insert.
Qed.

(** Witness: the falling ball over the floor tile, the controls
    knowing no mesh. *)
Lemma raycast_loop_blind_without_meshes_witness :
  let r := FirstPersonControls.balls_loop (fun _ => [floor_tile]) 1 1
             (FirstPersonControls.mk [falling_ball] []) demo_scene in
  snd r = demo_scene
  /\ length (FirstPersonControls.balls (fst r))
     = length (FirstPersonControls.balls
                 (FirstPersonControls.mk [falling_ball] []))
  /\ FirstPersonControls.collidableMeshes (fst r) = [].
Proof.
  apply (raycast_loop_blind_without_meshes (fun _ => [floor_tile]) 1 1
           (FirstPersonControls.mk [falling_ball] []) demo_scene).
  reflexivity.
Defined.

Lemma length_delete_le {A : Type} (l : list A) (i : nat) :
  (length (delete i l) <= length l)%nat.
Proof.
  revert i. induction l as [| a l IH]; intros [| i]; simpl; try lia.
  specialize (IH i). lia.
Qed.

Lemma controls_disposeBall_all (sh : FirstPersonControls.Shared) (sid : nat)
    (bs : list FirstPersonControls.BallMesh) (st : Stage) :
  let st' := fold_left (FirstPersonControls.disposeBall sh sid) bs st in
  (forall r, releases r st'
             = (length bs
                * count_occ Nat.eq_dec
                    [FirstPersonControls.ballGeometry sh;
                     FirstPersonControls.ballMaterial sh] r
                + releases r st)%nat)
  /\ (forall c q, parentOf c st' = Some q -> parentOf c st = Some q)
  /\ (forall b, b ∈ bs ->
        parentOf (FirstPersonControls.ballId b) st' <> Some sid).
Proof.
  cbv zeta. revert st. induction bs as [| b bs IH]; intros st.
  - cbn [fold_left length Nat.mul Nat.add]. split; [| split]; easy.
  - cbn [fold_left]. unfold FirstPersonControls.disposeBall at 2 4 6.
    set (st1 := gpu_dispose _ (gpu_dispose _ (Object3D_remove _ _ st))).
    destruct (IH st1) as (Hr & Hsub & Hgone).
    assert (Hsub1 : forall c q, parentOf c st1 = Some q ->
                                parentOf c st = Some q).
    { intros c q. unfold st1, parentOf, gpu_dispose. cbn [graph].
      apply Object3D_remove_shrinks. }
    split; [| split].
    + intros r. rewrite Hr. unfold st1.
      rewrite !releases_gpu_dispose. unfold releases.
      rewrite Object3D_remove_log. cbn [length count_occ].
      destruct (Nat.eq_dec (FirstPersonControls.ballGeometry sh) r);
        destruct (Nat.eq_dec (FirstPersonControls.ballMaterial sh) r); lia.
    + intros c q H. apply Hsub1, Hsub, H.
    + intros b' Hin. apply elem_of_cons in Hin as [-> | Hin].
      * intros E. apply Hsub in E. unfold st1, parentOf, gpu_dispose in E.
        cbn [graph] in E. now apply Object3D_remove_gone in E.
      * now apply Hgone.
Qed.

(** X27. The thrown meshes share one geometry and one material, and
    both the expiry timer and dispose() release them per ball: the
    timer of any one ball releases the shared geometry, also while
    other balls are in flight, and dispose() with [n] balls tracked
    releases geometry and material [n + 1] times each; the timer takes
    its ball out of the scene, and dispose() all tracked balls. *)
Theorem projectiles_release_shared_resources
    (sh : FirstPersonControls.Shared) (oid : nat)
    (ctl : FirstPersonControls.t) (sc : ExampleScene.t) :
  FirstPersonControls.ballGeometry sh <> FirstPersonControls.ballMaterial sh ->
  let geo := FirstPersonControls.ballGeometry sh in
  let mat := FirstPersonControls.ballMaterial sh in
  let e := FirstPersonControls.expireBall sh oid ctl sc in
  let d := FirstPersonControls.dispose sh ctl sc in
  let n := length (FirstPersonControls.balls ctl) in
  (releases geo (ExampleScene.stage (snd e))
   = S (releases geo (ExampleScene.stage sc))
   /\ releases mat (ExampleScene.stage (snd e))
      = releases mat (ExampleScene.stage sc)
   /\ parentOf oid (ExampleScene.stage (snd e))
      <> Some (ExampleScene.sceneId sc)
   /\ (length (FirstPersonControls.balls (fst e)) <= n)%nat)
  /\ (releases geo (ExampleScene.stage (snd d))
      = (S n + releases geo (ExampleScene.stage sc))%nat
      /\ releases mat (ExampleScene.stage (snd d))
         = (S n + releases mat (ExampleScene.stage sc))%nat
      /\ FirstPersonControls.balls (fst d) = []
      /\ forall b, b ∈ FirstPersonControls.balls ctl ->
           parentOf (FirstPersonControls.ballId b)
                    (ExampleScene.stage (snd d))
           <> Some (ExampleScene.sceneId sc)).
Proof.
  intros Hne. cbv zeta. split.
  - unfold FirstPersonControls.expireBall.
    cbn [fst snd FirstPersonControls.set_stage ExampleScene.stage
         FirstPersonControls.balls].
    set (st1 := match parentOf oid (ExampleScene.stage sc) with
                | Some p => _
                | None => _
                end).
    assert (Hlog : disposeLog st1 = disposeLog (ExampleScene.stage sc)).
    { unfold st1. destruct (parentOf oid (ExampleScene.stage sc)) as [p |];
        [| reflexivity].
      destruct (Nat.eqb p _); [apply Object3D_remove_log | reflexivity]. }
    assert (Hpar : parentOf oid st1 <> Some (ExampleScene.sceneId sc)).
    { unfold st1.
      destruct (parentOf oid (ExampleScene.stage sc)) as [p |] eqn:Ep.
      - destruct (Nat.eqb_spec p (ExampleScene.sceneId sc)) as [-> | Hp].
        + apply Object3D_remove_gone.
        + rewrite Ep. congruence.
      - rewrite Ep. discriminate. }
    rewrite !releases_gpu_dispose. unfold releases. rewrite Hlog.
    cbn [count_occ].
    destruct (Nat.eq_dec (FirstPersonControls.ballGeometry sh)
                (FirstPersonControls.ballGeometry sh)); [| congruence].
    destruct (Nat.eq_dec (FirstPersonControls.ballGeometry sh)
                (FirstPersonControls.ballMaterial sh)); [congruence |].
    split; [reflexivity | split; [reflexivity | split; [exact Hpar |]]].
    destruct (FirstPersonControls.indexOf oid _ 0) as [i |]; [| lia].
    apply length_delete_le.
  - unfold FirstPersonControls.dispose.
    cbn [fst snd FirstPersonControls.set_stage ExampleScene.stage
         FirstPersonControls.balls].
    destruct (controls_disposeBall_all sh (ExampleScene.sceneId sc)
                (FirstPersonControls.balls ctl) (ExampleScene.stage sc))
      as (Hr & _ & Hgone). cbv zeta in *.
    rewrite !releases_gpu_dispose, !Hr. cbn [count_occ].
    destruct (Nat.eq_dec (FirstPersonControls.ballGeometry sh)
                (FirstPersonControls.ballGeometry sh)); [| congruence].
    destruct (Nat.eq_dec (FirstPersonControls.ballGeometry sh)
                (FirstPersonControls.ballMaterial sh)); [congruence |].
    destruct (Nat.eq_dec (FirstPersonControls.ballMaterial sh)
                (FirstPersonControls.ballMaterial sh)); [| congruence].
    destruct (Nat.eq_dec (FirstPersonControls.ballMaterial sh)
                (FirstPersonControls.ballGeometry sh)); [congruence |].
    split; [lia | split; [lia | split; [reflexivity |]]].
    intros b Hb. unfold parentOf, gpu_dispose. cbn [graph].
    now apply Hgone.
Qed.

(** Witness: the controls after two throws of the demo camera into the
    demo scene; the timer of the first ball, mesh 90, fires. *)
Lemma projectiles_release_shared_resources_witness :
  let ctl := FirstPersonControls.mk
               [FirstPersonControls.newBall demo_camera 90;
                FirstPersonControls.newBall demo_camera 91] [] in
  let e := FirstPersonControls.expireBall demo_shared 90 ctl demo_scene in
  let d := FirstPersonControls.dispose demo_shared ctl demo_scene in
  (releases 70 (ExampleScene.stage (snd e))
   = S (releases 70 (ExampleScene.stage demo_scene))
   /\ releases 71 (ExampleScene.stage (snd e))
      = releases 71 (ExampleScene.stage demo_scene)
   /\ parentOf 90 (ExampleScene.stage (snd e))
      <> Some (ExampleScene.sceneId demo_scene)
   /\ (length (FirstPersonControls.balls (fst e)) <= 2)%nat)
  /\ (releases 70 (ExampleScene.stage (snd d))
      = (3 + releases 70 (ExampleScene.stage demo_scene))%nat
      /\ releases 71 (ExampleScene.stage (snd d))
         = (3 + releases 71 (ExampleScene.stage demo_scene))%nat
      /\ FirstPersonControls.balls (fst d) = []
      /\ forall b, b ∈ FirstPersonControls.balls ctl ->
           parentOf (FirstPersonControls.ballId b)
                    (ExampleScene.stage (snd d))
           <> Some (ExampleScene.sceneId demo_scene)).
Proof.
  apply (projectiles_release_shared_resources demo_shared 90
           (FirstPersonControls.mk
              [FirstPersonControls.newBall demo_camera 90;
               FirstPersonControls.newBall demo_camera 91] [])
           demo_scene).
  cbn. lia.
Defined.

Lemma lengthSq_of_length (v : Vector3.t) (k : R) :
  Vector3.length v = k -> Vector3.lengthSq v = (k * k)%R.
Proof. intros <-. symmetry. apply length_sqr. Qed.

Lemma moving_length (d : Vector3.t) (delta : R) :
  (0 <= delta)%R -> Vector3.lengthSq d <> 0%R ->
  Vector3.length
    (if Rlt_dec 0 (Vector3.length d)
     then Vector3.multiplyScalar (Vector3.normalize d)
            (FirstPersonControls.movementSpeed * delta)
     else d)
  = (FirstPersonControls.movementSpeed * delta)%R.
Proof.
  intros Hd Hne. pose proof (length_pos d Hne) as Hpos.
  destruct (Rlt_dec 0 (Vector3.length d)); [| contradiction].
  apply length_of_square.
  - unfold FirstPersonControls.movementSpeed. lra.
  - rewrite lengthSq_scaled.
    rewrite (lengthSq_of_length _ 1 (normalize_unit d Hne)). ring.
Qed.

Lemma standing_length (d : Vector3.t) (delta : R) :
  Vector3.lengthSq d = 0%R ->
  Vector3.length
    (if Rlt_dec 0 (Vector3.length d)
     then Vector3.multiplyScalar (Vector3.normalize d)
            (FirstPersonControls.movementSpeed * delta)
     else d)
  = 0%R.
Proof.
  intros H0. pose proof (length_zero d H0) as Hz.
  destruct (Rlt_dec 0 (Vector3.length d)) as [H | _]; [lra | exact Hz].
Qed.

(** X28. The player walks at one speed in every direction: whichever
    keys are held, the movement vector this.direction that update()
    hands to the controls has length 15 * delta when the keys ask for
    a direction, diagonals included, and is zero when they ask for
    none or cancel each other; it never has a vertical component. *)
Theorem movement_speed_uniform (k : FirstPersonControls.Keys) (delta : R) :
  (0 <= delta)%R ->
  let d := FirstPersonControls.moveDirection k delta in
  Vector3.length d
  = (if xorb (FirstPersonControls.moveRight k) (FirstPersonControls.moveLeft k)
        || xorb (FirstPersonControls.moveForward k)
                (FirstPersonControls.moveBackward k)
     then FirstPersonControls.movementSpeed * delta else 0)%R
  /\ Vector3.y d = 0%R.
Proof.
  intros Hd. cbv zeta. unfold FirstPersonControls.moveDirection. cbv zeta.
  split.
  - destruct k as [[|] [|] [|] [|] j];
      cbn [FirstPersonControls.moveRight FirstPersonControls.moveLeft
           FirstPersonControls.moveForward FirstPersonControls.moveBackward
           FirstPersonControls.Number xorb orb];
      first
        [ apply standing_length; unfold Vector3.lengthSq; cbn; ring
        | apply moving_length; [exact Hd |];
          unfold Vector3.lengthSq; cbn; lra ].
  - destruct (Rlt_dec 0 _); [| reflexivity].
    unfold Vector3.multiplyScalar, Vector3.normalize, Vector3.divideScalar.
    cbn [Vector3.y Vector3.multiplyScalar]. ring.
Qed.

(** Witness: W held down, a frame of 16 ms. *)
Lemma movement_speed_uniform_witness :
  let d := FirstPersonControls.moveDirection demo_keys (16 / 1000) in
  Vector3.length d
  = (if xorb (FirstPersonControls.moveRight demo_keys)
             (FirstPersonControls.moveLeft demo_keys)
        || xorb (FirstPersonControls.moveForward demo_keys)
                (FirstPersonControls.moveBackward demo_keys)
     then FirstPersonControls.movementSpeed * (16 / 1000) else 0)%R
  /\ Vector3.y d = 0%R.
Proof.
  apply (movement_speed_uniform demo_keys (16 / 1000)). lra.
Defined.

Lemma jumpStep_cases (c : nat) (g : option R) (d : R)
    (k : FirstPersonControls.Keys) (p : FirstPersonControls.Player) :
  let r := FirstPersonControls.jumpStep c g d k p in
  (snd r = true /\ FirstPersonControls.canJump p = true
   /\ FirstPersonControls.canJump (fst r) = false
   /\ FirstPersonControls.velocityY (fst r) = FirstPersonControls.jumpSpeed
   /\ FirstPersonControls.jumpRequested k = true)
  \/ (snd r = false
      /\ FirstPersonControls.canJump (fst r) = FirstPersonControls.canJump p).
Proof.
  cbv zeta. unfold FirstPersonControls.jumpStep. cbv zeta.
  assert (Hc : FirstPersonControls.canJump
                 (FirstPersonControls.checkGroundCollision c g p)
               = FirstPersonControls.canJump p).
  { unfold FirstPersonControls.checkGroundCollision.
    now destruct (Nat.eqb c 0). }
  destruct (FirstPersonControls.jumpRequested k); cbn [andb]; [| now right].
  destruct (FirstPersonControls.isOnGround _); cbn [andb]; [| now right].
  rewrite Hc. destruct (FirstPersonControls.canJump p); [| now right].
  left. cbn. auto.
Qed.

Lemma timers_fired_snoc (es : list PlayerEvent) (e : PlayerEvent) :
  timers_fired (es ++ [e])
  = (timers_fired es + match e with TimerFired => 1 | _ => 0 end)%nat.
Proof.
  unfold timers_fired. rewrite List.filter_app, length_app.
  destruct e; reflexivity.
Qed.

(** X29. A jump needs its timer: over any sequence of frames and timer
    callbacks, whatever the keys and the ground, the number of jumps
    started is at most the number of times the 250 ms timer has fired,
    plus one if the player could jump at the start; holding the
    space bar does not jump again before the timer fires. *)
Theorem jump_needs_timer (es : list PlayerEvent)
    (p : FirstPersonControls.Player) :
  let r := fold_left player_event es (p, 0%nat) in
  (snd r + (if FirstPersonControls.canJump (fst r) then 1 else 0)
   <= timers_fired es
      + (if FirstPersonControls.canJump p then 1 else 0))%nat.
Proof.
  cbv zeta. induction es as [| e es IH] using rev_ind.
  - cbn. lia.
  - rewrite fold_left_app, timers_fired_snoc. cbn [fold_left].
    destruct (fold_left player_event es (p, 0%nat)) as [q j].
    cbn [fst snd] in IH. destruct e as [c g d k |]; cbn [player_event fst snd].
    + destruct (jumpStep_cases c g d k q) as [(Hj & Hq & Hq' & _) | (Hj & Hq)];
        cbv zeta in *;
        destruct (FirstPersonControls.jumpStep c g d k q) as [q' jumped];
        cbn [fst snd] in *; subst jumped.
      * rewrite Hq in IH. rewrite Hq'. lia.
      * rewrite Hq. lia.
    + cbn [FirstPersonControls.jumpTimer FirstPersonControls.canJump].
      destruct (FirstPersonControls.canJump q); lia.
Qed.

(** ** The vertex shader of the ocean *)

Lemma fract_unit (x : R) : (0 <= OceanShader.fract x < 1)%R.
Proof.
  unfold OceanShader.fract, OceanShader.floor.
  destruct (base_Int_part x) as [Hle Hgt]. lra.
Qed.

Lemma smoothT_unit (t : R) :
  (0 <= t <= 1)%R -> (0 <= t * t * (3 - 2 * t) <= 1)%R.
Proof.
  intros [H0 H1]. split.
  - apply Rmult_le_pos; [nra | lra].
  - assert (H : (0 <= (1 - t) * (1 - t) * (1 + 2 * t))%R)
      by (apply Rmult_le_pos; [nra | lra]).
    replace ((1 - t) * (1 - t) * (1 + 2 * t))%R
      with (1 - t * t * (3 - 2 * t))%R in H by ring.
    lra.
Qed.

Lemma Rabs_bound (x B : R) : (Rabs x <= B)%R -> (- B <= x <= B)%R.
Proof.
  intros H. pose proof (Rle_abs x) as H1. pose proof (Rle_abs (- x)) as H2.
  rewrite Rabs_Ropp in H2. lra.
Qed.

Lemma smooth_bound (a b t B : R) :
  (Rabs a <= B)%R -> (Rabs b <= B)%R -> (0 <= t <= 1)%R ->
  (Rabs (OceanShader.smoothInterpolation a b t) <= B)%R.
Proof.
  intros Ha Hb Ht. unfold OceanShader.smoothInterpolation, OceanShader.mix.
  cbv zeta. pose proof (smoothT_unit t Ht) as [Hs0 Hs1].
  set (s := (t * t * (3 - 2 * t))%R) in *. clearbody s.
  apply Rabs_bound in Ha. apply Rabs_bound in Hb. apply Rabs_le.
  split; nra.
Qed.

Lemma gradient_dot_bound (p d : OceanShader.vec2) :
  (-1 <= OceanShader.vx d <= 1)%R -> (-1 <= OceanShader.vy d <= 1)%R ->
  (Rabs (OceanShader.dot (OceanShader.randomGradient p) d) <= sqrt 2)%R.
Proof.
  intros Hx Hy. unfold OceanShader.randomGradient. cbv zeta.
  set (a := (OceanShader.random p * 20 * (314159 / 100000))%R).
  unfold OceanShader.dot. cbn [OceanShader.vx OceanShader.vy].
  pose proof (sin2_cos2 a) as Hu. unfold Rsqr in Hu.
  set (c := cos a) in *. set (s := sin a) in *. clearbody c s.
  set (dx := OceanShader.vx d) in *. set (dy := OceanShader.vy d) in *.
  clearbody dx dy.
  apply Rsqr_incr_0_var; [| apply sqrt_pos].
  rewrite <- Rsqr_abs. rewrite Rsqr_sqrt by lra. unfold Rsqr.
  pose proof (Rle_0_sqr (c * dy - s * dx)) as Hcs. unfold Rsqr in Hcs.
  assert (Hdx : (dx * dx <= 1)%R) by nra.
  assert (Hdy : (dy * dy <= 1)%R) by nra.
  replace ((c * dx + s * dy) * (c * dx + s * dy))%R
    with ((s * s + c * c) * (dx * dx + dy * dy)
          - (c * dy - s * dx) * (c * dy - s * dx))%R by ring.
  rewrite Hu. lra.
Qed.

Lemma perlin_bound (p : OceanShader.vec2) :
  (Rabs (OceanShader.perlinNoise p) <= sqrt 2)%R.
Proof.
  unfold OceanShader.perlinNoise. cbv zeta.
  pose proof (fract_unit (OceanShader.vx p)) as Hx.
  pose proof (fract_unit (OceanShader.vy p)) as Hy.
  cbn [OceanShader.vx OceanShader.vy].
  repeat apply smooth_bound; try lra;
    apply gradient_dot_bound; cbn [OceanShader.sub OceanShader.vx
                                    OceanShader.vy]; lra.
Qed.

Lemma fbm_loop_bound (n : nat) (x : OceanShader.vec2) (total a f : R) :
  (0 <= a)%R ->
  (Rabs (OceanShader.fbm_loop n x total a f)
   <= Rabs total + sqrt 2 * a * 2 * (1 - (1 / 2) ^ n))%R.
Proof.
  revert total a f. induction n as [| n IH]; intros total a f Ha.
  - cbn [OceanShader.fbm_loop pow]. lra.
  - cbn [OceanShader.fbm_loop pow].
    eapply Rle_trans; [apply IH; lra |].
    pose proof (perlin_bound (OceanShader.scale x f)) as Hp.
    set (P := OceanShader.perlinNoise (OceanShader.scale x f)) in *.
    clearbody P.
    pose proof (Rabs_triang total (P * a)) as Ht.
    rewrite Rabs_mult, (Rabs_right a) in Ht by lra.
    assert (Hpa : (Rabs P * a <= sqrt 2 * a)%R) by nra.
    set (h := ((1 / 2) ^ n)%R) in *. clearbody h.
    pose proof (sqrt_pos 2) as Hs.
    set (B := sqrt 2) in *. clearbody B.
    nra.
Qed.

(** X30. The noise that displaces the ocean is bounded: every
    gradient is a unit vector and the six octaves have amplitudes
    1/2, ..., 1/64, so that, wherever the vertex is and whatever the
    time, the displacement is at most 63/64 * sqrt 2 times the wave
    amplitude in absolute value, and the vertex moves along its
    normal by exactly the displacement. *)
Theorem ocean_displacement_bounded (u : OceanShader.Uniforms)
    (position normal : Vector3.t) :
  let r := OceanShader.main u position normal in
  (Rabs (snd r) <= 63 / 64 * sqrt 2 * Rabs (OceanShader.waveAmplitude u))%R
  /\ Vector3.sub (fst r) position = Vector3.multiplyScalar normal (snd r).
Proof.
  cbv zeta. unfold OceanShader.main. cbv zeta. cbn [fst snd]. split.
  - rewrite Rabs_mult. apply Rmult_le_compat_r; [apply Rabs_pos |].
    unfold OceanShader.fbm.
    eapply Rle_trans; [apply fbm_loop_bound; lra |].
    rewrite Rabs_R0. pose proof (sqrt_pos 2) as Hs.
    replace ((1 / 2) ^ 6)%R with (1 / 64)%R by (simpl; field). lra.
  - unfold Vector3.sub, Vector3.addScaledVector, Vector3.multiplyScalar.
    cbn [Vector3.x Vector3.y Vector3.z]. f_equal; ring.
Qed.
